(** * Creature decision engine of canary: monster.cpp

    A shallow embedding of the per-tick monster AI of
    [enc_temp_folder/.../monster.cpp]: target registry, combat scheduler,
    movement planner and idle/death life cycle, followed by the properties
    proved about them.

    Conventions.
    - A C++ object reference (shared_ptr / weak_ptr) is the creature id it
      points to; [None] is the null pointer.  Pointer equality is id equality.
    - Fixed-width integers are [Z] with the wrap-around written out
      ([to_uint32], [to_int32]).
    - A draw of the random generator, the clock and every query answered by
      code outside monster.cpp (map, tiles, line of sight, the Creature base
      class) is an explicit input of the function that consumes it.
    - An out-parameter ([Direction &moveDirection], [bool &inRange], ...) is
      passed in and returned. *)

From Stdlib Require Import ZArith Bool Lia.
From stdpp Require Import base option list gmap strings.

Open Scope Z_scope.

(** ** Machine integers *)

Definition to_uint32 (v : Z) : Z := v mod 2 ^ 32.
Definition to_int32 (v : Z) : Z := (v + 2 ^ 31) mod 2 ^ 32 - 2 ^ 31.

(** ** Positions and directions *)

(** [struct Position]: the header is not part of the sources at hand; the
    three coordinates are the fields monster.cpp reads. *)
Record Position := mkPosition { pos_x : Z; pos_y : Z; pos_z : Z }.

Definition Position_default : Position := mkPosition 0 0 0.

(** The constructor [Position(x, y, z)].  The header is not part of the
    sources at hand: x and y are 16-bit and z is an 8-bit unsigned field, and
    an argument computed in int (creaturePos.y - 1) is converted to the
    field's type. *)
Definition Position_of (x y z : Z) : Position :=
  mkPosition (x mod 2 ^ 16) (y mod 2 ^ 16) (z mod 2 ^ 8).

Definition Position_eqb (a b : Position) : bool :=
  (pos_x a =? pos_x b) && (pos_y a =? pos_y b) && (pos_z a =? pos_z b).

Definition getOffsetX (p1 p2 : Position) : Z := pos_x p1 - pos_x p2.
Definition getOffsetY (p1 p2 : Position) : Z := pos_y p1 - pos_y p2.
Definition getDistanceX (p1 p2 : Position) : Z := Z.abs (getOffsetX p1 p2).
Definition getDistanceY (p1 p2 : Position) : Z := Z.abs (getOffsetY p1 p2).
Definition getDistanceZ (p1 p2 : Position) : Z := Z.abs (pos_z p1 - pos_z p2).

(** The Chebyshev distance on the plane, the larger of the two axis
    distances. *)
Definition chebyshev (p1 p2 : Position) : Z :=
  Z.max (getDistanceX p1 p2) (getDistanceY p1 p2).

Inductive Direction :=
| DIRECTION_NORTH | DIRECTION_EAST | DIRECTION_SOUTH | DIRECTION_WEST
| DIRECTION_SOUTHWEST | DIRECTION_SOUTHEAST
| DIRECTION_NORTHWEST | DIRECTION_NORTHEAST.

(** ** Creature templates *)

(** [spellBlock_t]: [spell] is the spell object ([None] is [nullptr]),
    identified by a number. *)
Record spellBlock_t := mkSpell {
  sb_spell : option Z;
  sb_chance : Z;
  sb_speed : Z;
  sb_range : Z;
  sb_minCombatValue : Z;
  sb_maxCombatValue : Z;
  sb_isMelee : bool
}.

Record summonBlock_t := mkSummon {
  su_name : string;
  su_chance : Z;
  su_speed : Z;
  su_count : Z;
  su_force : bool
}.

(** The fields of [mType->info] read by the functions below. *)
Record MonsterType := mkMonsterType {
  mt_name : string;
  mt_isHostile : bool;
  mt_targetDistance : Z;
  mt_changeTargetSpeed : Z;
  mt_changeTargetChance : Z;
  mt_strategiesTargetNearest : Z;
  mt_strategiesTargetHealth : Z;
  mt_strategiesTargetDamage : Z;
  mt_attackSpells : list spellBlock_t;
  mt_defenseSpells : list spellBlock_t;
  mt_summons : list summonBlock_t;
  mt_maxSummons : Z
}.

(** ** Other creatures, as the monster observes them *)

Inductive CreatureKind := KPlayer | KMonster | KNpc.

Inductive ZoneType_t := ZONE_PROTECTION | ZONE_NOPVP | ZONE_PVP | ZONE_NOLOGOUT | ZONE_NORMAL.

Definition FACTION_DEFAULT : Z := 0.
Definition FACTION_PLAYER : Z := 1.

Record Creature := mkCreature {
  c_id : Z;
  c_kind : CreatureKind;
  c_name : string;
  c_position : Position;
  c_health : Z;
  c_faction : Z;
  c_master : option Z;
  c_removed : bool;
  c_attackable : bool;
  c_zone : ZoneType_t;
  c_disconnected : bool;
  c_ignoredByMonsters : bool;
  c_isIdle : bool;
  c_totalPlayersOnScreen : Z
}.

Definition getPlayer (c : Creature) : bool :=
  match c_kind c with KPlayer => true | _ => false end.
Definition getMonster (c : Creature) : bool :=
  match c_kind c with KMonster => true | _ => false end.
Definition c_isSummon (c : Creature) : bool :=
  match c_master c with Some _ => true | None => false end.

Definition set_c_position (v : Position) (c : Creature) : Creature :=
  mkCreature (c_id c) (c_kind c) (c_name c) v (c_health c) (c_faction c)
    (c_master c) (c_removed c) (c_attackable c) (c_zone c) (c_disconnected c)
    (c_ignoredByMonsters c) (c_isIdle c) (c_totalPlayersOnScreen c).
Definition set_c_health (v : Z) (c : Creature) : Creature :=
  mkCreature (c_id c) (c_kind c) (c_name c) (c_position c) v (c_faction c)
    (c_master c) (c_removed c) (c_attackable c) (c_zone c) (c_disconnected c)
    (c_ignoredByMonsters c) (c_isIdle c) (c_totalPlayersOnScreen c).
Definition set_c_master (v : option Z) (c : Creature) : Creature :=
  mkCreature (c_id c) (c_kind c) (c_name c) (c_position c) (c_health c) (c_faction c)
    v (c_removed c) (c_attackable c) (c_zone c) (c_disconnected c)
    (c_ignoredByMonsters c) (c_isIdle c) (c_totalPlayersOnScreen c).
Definition set_c_isIdle (v : bool) (c : Creature) : Creature :=
  mkCreature (c_id c) (c_kind c) (c_name c) (c_position c) (c_health c) (c_faction c)
    (c_master c) (c_removed c) (c_attackable c) (c_zone c) (c_disconnected c)
    (c_ignoredByMonsters c) v (c_totalPlayersOnScreen c).

(** The live creatures, by id: what locking a reference resolves to. *)
Abbreviation Store := (gmap Z Creature).

(** * Helpers shared by the components *)

(** [canUseAttack]: the first attack ability whose range covers the target
    decides, by line of sight.  [isSightClear] is the game's query. *)
Fixpoint canUseAttack_loop (isSightClear : Position -> Position -> bool)
    (pos targetPos : Position) (distance : Z) (spells : list spellBlock_t) : bool :=
  match spells with
  | [] => false
  | spellBlock :: rest =>
      if negb (sb_range spellBlock =? 0) && (distance <=? sb_range spellBlock)
      then isSightClear pos targetPos
      else canUseAttack_loop isSightClear pos targetPos distance rest
  end.

Definition canUseAttack (isSightClear : Position -> Position -> bool)
    (mType : MonsterType) (pos : Position) (target : Creature) : bool :=
  if mt_isHostile mType then
    let targetPos := c_position target in
    let distance := Z.max (to_uint32 (getDistanceX pos targetPos))
                          (to_uint32 (getDistanceY pos targetPos)) in
    canUseAttack_loop isSightClear pos targetPos distance (mt_attackSpells mType)
  else true.

(** * Movement planner *)

Module Movement.

(** Queries answered outside monster.cpp. *)
Record World := mkWorld {
  getNextPosition : Direction -> Position -> Position;
  isInZone : Position -> Z -> Position -> bool;
  getWalkCache : Position -> Z;
  (** the tile exists, shows no creature on top and accepts the monster *)
  tileAccepts : Position -> bool;
  isSightClear : Position -> Position -> bool;
  despawnRange : Z;
  despawnRadius : Z
}.

(** The part of the monster the planner reads and writes. *)
Record Monster := mkMonster {
  mType : MonsterType;
  position : Position;
  targetDistance : Z;
  stepDuration : Z;
  spawnMonster : bool;
  masterPos : Position;
  attackedCreature : option Creature
}.

Definition set_stepDuration (v : Z) (m : Monster) : Monster :=
  mkMonster (mType m) (position m) (targetDistance m) v
            (spawnMonster m) (masterPos m) (attackedCreature m).

Section Planner.
Variable w : World.

Definition isInSpawnRange (m : Monster) (pos : Position) : bool :=
  if negb (spawnMonster m) then true
  else if despawnRadius w =? 0 then true
  else if negb (isInZone w (masterPos m) (despawnRadius w) pos) then false
  else if despawnRange w =? 0 then true
  else if getDistanceZ pos (masterPos m) >? despawnRange w then false
  else true.

Definition canWalkTo (m : Monster) (pos : Position) (moveDirection : Direction) : bool :=
  let pos := getNextPosition w moveDirection pos in
  if isInSpawnRange m pos then
    if getWalkCache w pos =? 0 then false
    else if tileAccepts w pos then true else false
  else false.

(** [getRandomStep]: [dirList] is the static list as std::shuffle left it. *)
Fixpoint getRandomStep_loop (m : Monster) (creaturePos : Position)
    (dirList : list Direction) (moveDirection : Direction) : bool * Direction :=
  match dirList with
  | [] => (false, moveDirection)
  | dir :: rest =>
      if canWalkTo m creaturePos dir then (true, dir)
      else getRandomStep_loop m creaturePos rest moveDirection
  end.

Definition getRandomStep (m : Monster) (creaturePos : Position)
    (dirList : list Direction) (moveDirection : Direction) : bool * Direction :=
  getRandomStep_loop m creaturePos dirList moveDirection.

(** [getDanceStep].  [shuffle] is the outcome of std::shuffle on the
    collected directions and [rnd] the draw of
    [uniform_random(0, dirList.size() - 1)]; an index outside the vector has
    no defined result. *)
Definition getDanceStep (m : Monster) (shuffle : list Direction -> list Direction)
    (rnd : Z) (creaturePos : Position) (moveDirection : Direction)
    (keepAttack keepDistance : bool) : option (bool * Direction) :=
  match attackedCreature m with
  | None => Some (false, moveDirection)
  | Some attacked =>
      let canDoAttackNow := canUseAttack (isSightClear w) (mType m) creaturePos attacked in
      let centerPos := c_position attacked in
      let offset_x := getOffsetX creaturePos centerPos in
      let offset_y := getOffsetY creaturePos centerPos in
      let distance_x := Z.abs offset_x in
      let distance_y := Z.abs offset_y in
      let centerToDist := Z.max (to_uint32 distance_x) (to_uint32 distance_y) in
      (* monsters not at targetDistance shouldn't dancestep *)
      if centerToDist <? to_uint32 (targetDistance m) then Some (false, moveDirection)
      else
        let dirList : list Direction := [] in
        let dirList :=
          if negb keepDistance || (offset_y >=? 0) then
            let tmpDist := Z.max (to_uint32 distance_x)
                             (to_uint32 (Z.abs ((pos_y creaturePos - 1) - pos_y centerPos))) in
            if (tmpDist =? centerToDist) && canWalkTo m creaturePos DIRECTION_NORTH then
              let result :=
                if keepAttack then
                  negb canDoAttackNow
                  || canUseAttack (isSightClear w) (mType m) (Position_of (pos_x creaturePos) (pos_y creaturePos - 1)
                                                (pos_z creaturePos)) attacked
                else true in
              if result then dirList ++ [DIRECTION_NORTH] else dirList
            else dirList
          else dirList in
        let dirList :=
          if negb keepDistance || (offset_y <=? 0) then
            let tmpDist := Z.max (to_uint32 distance_x)
                             (to_uint32 (Z.abs ((pos_y creaturePos + 1) - pos_y centerPos))) in
            if (tmpDist =? centerToDist) && canWalkTo m creaturePos DIRECTION_SOUTH then
              let result :=
                if keepAttack then
                  negb canDoAttackNow
                  || canUseAttack (isSightClear w) (mType m) (Position_of (pos_x creaturePos) (pos_y creaturePos + 1)
                                                (pos_z creaturePos)) attacked
                else true in
              if result then dirList ++ [DIRECTION_SOUTH] else dirList
            else dirList
          else dirList in
        let dirList :=
          if negb keepDistance || (offset_x <=? 0) then
            let tmpDist := Z.max (to_uint32 (Z.abs ((pos_x creaturePos + 1) - pos_x centerPos)))
                                 (to_uint32 distance_y) in
            if (tmpDist =? centerToDist) && canWalkTo m creaturePos DIRECTION_EAST then
              let result :=
                if keepAttack then
                  negb canDoAttackNow
                  || canUseAttack (isSightClear w) (mType m) (Position_of (pos_x creaturePos + 1) (pos_y creaturePos)
                                                (pos_z creaturePos)) attacked
                else true in
              if result then dirList ++ [DIRECTION_EAST] else dirList
            else dirList
          else dirList in
        let dirList :=
          if negb keepDistance || (offset_x >=? 0) then
            let tmpDist := Z.max (to_uint32 (Z.abs ((pos_x creaturePos - 1) - pos_x centerPos)))
                                 (to_uint32 distance_y) in
            if (tmpDist =? centerToDist) && canWalkTo m creaturePos DIRECTION_WEST then
              let result :=
                if keepAttack then
                  negb canDoAttackNow
                  || canUseAttack (isSightClear w) (mType m) (Position_of (pos_x creaturePos - 1) (pos_y creaturePos)
                                                (pos_z creaturePos)) attacked
                else true in
              if result then dirList ++ [DIRECTION_WEST] else dirList
            else dirList
          else dirList in
        match dirList with
        | [] => Some (false, moveDirection)
        | _ :: _ =>
            if (0 <=? rnd) then
              match shuffle dirList !! Z.to_nat rnd with
              | Some dir => Some (true, dir)
              | None => None
              end
            else None
        end
  end.

(** [getDistanceStep].  [coin] is the draw of boolean_random() (at most one
    is made on any path) and [dirList] the shuffled list getRandomStep walks.
    The result is the updated monster (stepDuration), the returned flag and
    [moveDirection] as the caller finds it afterwards. *)
Definition getDistanceStep (m : Monster) (coin : bool) (dirList : list Direction)
    (targetPos : Position) (moveDirection : Direction) (flee : bool)
    : Monster * bool * Direction :=
  let creaturePos := position m in
  let dx := getDistanceX creaturePos targetPos in
  let dy := getDistanceY creaturePos targetPos in
  let distance := Z.max (to_int32 dx) (to_int32 dy) in
  if negb flee && ((distance >? targetDistance m) || negb (isSightClear w creaturePos targetPos))
  then (m, false, moveDirection) (* let the A* calculate it *)
  else if negb flee && (distance =? targetDistance m)
  then (m, true, moveDirection)
  else
  let offsetx := getOffsetX creaturePos targetPos in
  let offsety := getOffsetY creaturePos targetPos in
  let m :=
    if (dx <=? 1) && (dy <=? 1) then
      if stepDuration m <? 2 then set_stepDuration (stepDuration m + 1) m else m
    else if stepDuration m >? 0 then set_stepDuration (stepDuration m - 1) m
    else m in
  let cw := canWalkTo m creaturePos in
  if (offsetx =? 0) && (offsety =? 0) then
    let '(r, d) := getRandomStep m creaturePos dirList moveDirection in (m, r, d)
  else
  (* the axis-aligned decision table, entered when no diagonal case returned *)
  let axis :=
    if dy >? dx then
      if negb (offsety <? 0) then
        (* case DIRECTION_NORTH *)
        if cw DIRECTION_SOUTH then (m, true, DIRECTION_SOUTH) else
        let w_ := cw DIRECTION_WEST in
        let e := cw DIRECTION_EAST in
        if w_ && e && (offsetx =? 0) then (m, true, if coin then DIRECTION_WEST else DIRECTION_EAST)
        else if w_ && (offsetx <=? 0) then (m, true, DIRECTION_WEST)
        else if e && (offsetx >=? 0) then (m, true, DIRECTION_EAST)
        else if flee && (w_ && e) then (m, true, if coin then DIRECTION_WEST else DIRECTION_EAST)
        else if flee && w_ then (m, true, DIRECTION_WEST)
        else if flee && e then (m, true, DIRECTION_EAST)
        else
        let sw := cw DIRECTION_SOUTHWEST in
        let se := cw DIRECTION_SOUTHEAST in
        if sw || se then
          (m, true,
           if sw && se then (if coin then DIRECTION_SOUTHWEST else DIRECTION_SOUTHEAST)
           else if w_ then DIRECTION_WEST
           else if sw then DIRECTION_SOUTHWEST
           else if e then DIRECTION_EAST
           else if se then DIRECTION_SOUTHEAST
           else moveDirection)
        else if flee && cw DIRECTION_NORTH then (m, true, DIRECTION_NORTH)
        else (m, true, moveDirection)
      else
        (* case DIRECTION_SOUTH *)
        if cw DIRECTION_NORTH then (m, true, DIRECTION_NORTH) else
        let w_ := cw DIRECTION_WEST in
        let e := cw DIRECTION_EAST in
        if w_ && e && (offsetx =? 0) then (m, true, if coin then DIRECTION_WEST else DIRECTION_EAST)
        else if w_ && (offsetx <=? 0) then (m, true, DIRECTION_WEST)
        else if e && (offsetx >=? 0) then (m, true, DIRECTION_EAST)
        else if flee && (w_ && e) then (m, true, if coin then DIRECTION_WEST else DIRECTION_EAST)
        else if flee && w_ then (m, true, DIRECTION_WEST)
        else if flee && e then (m, true, DIRECTION_EAST)
        else
        let nw := cw DIRECTION_NORTHWEST in
        let ne := cw DIRECTION_NORTHEAST in
        if nw || ne then
          (m, true,
           if nw && ne then (if coin then DIRECTION_NORTHWEST else DIRECTION_NORTHEAST)
           else if w_ then DIRECTION_WEST
           else if nw then DIRECTION_NORTHWEST
           else if e then DIRECTION_EAST
           else if ne then DIRECTION_NORTHEAST
           else moveDirection)
        else if flee && cw DIRECTION_SOUTH then (m, true, DIRECTION_SOUTH)
        else (m, true, moveDirection)
    else
      if negb (offsetx <? 0) then
        (* case DIRECTION_WEST *)
        if cw DIRECTION_EAST then (m, true, DIRECTION_EAST) else
        let n := cw DIRECTION_NORTH in
        let s := cw DIRECTION_SOUTH in
        if n && s && (offsety =? 0) then (m, true, if coin then DIRECTION_NORTH else DIRECTION_SOUTH)
        else if n && (offsety <=? 0) then (m, true, DIRECTION_NORTH)
        else if s && (offsety >=? 0) then (m, true, DIRECTION_SOUTH)
        else if flee && (n && s) then (m, true, if coin then DIRECTION_NORTH else DIRECTION_SOUTH)
        else if flee && n then (m, true, DIRECTION_NORTH)
        else if flee && s then (m, true, DIRECTION_SOUTH)
        else
        let se := cw DIRECTION_SOUTHEAST in
        let ne := cw DIRECTION_NORTHEAST in
        if se || ne then
          (m, true,
           if se && ne then (if coin then DIRECTION_SOUTHEAST else DIRECTION_NORTHEAST)
           else if s then DIRECTION_SOUTH
           else if se then DIRECTION_SOUTHEAST
           else if n then DIRECTION_NORTH
           else if ne then DIRECTION_NORTHEAST
           else moveDirection)
        else if flee && cw DIRECTION_WEST then (m, true, DIRECTION_WEST)
        else (m, true, moveDirection)
      else
        (* case DIRECTION_EAST *)
        if cw DIRECTION_WEST then (m, true, DIRECTION_WEST) else
        let n := cw DIRECTION_NORTH in
        let s := cw DIRECTION_SOUTH in
        if n && s && (offsety =? 0) then (m, true, if coin then DIRECTION_NORTH else DIRECTION_SOUTH)
        else if n && (offsety <=? 0) then (m, true, DIRECTION_NORTH)
        else if s && (offsety >=? 0) then (m, true, DIRECTION_SOUTH)
        else if flee && (n && s) then (m, true, if coin then DIRECTION_NORTH else DIRECTION_SOUTH)
        else if flee && n then (m, true, DIRECTION_NORTH)
        else if flee && s then (m, true, DIRECTION_SOUTH)
        else
        let nw := cw DIRECTION_NORTHWEST in
        let sw := cw DIRECTION_SOUTHWEST in
        if nw || sw then
          (m, true,
           if nw && sw then (if coin then DIRECTION_NORTHWEST else DIRECTION_SOUTHWEST)
           else if n then DIRECTION_NORTH
           else if nw then DIRECTION_NORTHWEST
           else if s then DIRECTION_SOUTH
           else if sw then DIRECTION_SOUTHWEST
           else moveDirection)
        else if flee && cw DIRECTION_EAST then (m, true, DIRECTION_EAST)
        else (m, true, moveDirection) in
  if dx =? dy then
    (* player is diagonal to the monster *)
    if (offsetx >=? 1) && (offsety >=? 1) then
      (* player is NW: escape to SE, S or E *)
      let s := cw DIRECTION_SOUTH in
      let e := cw DIRECTION_EAST in
      if s && e then (m, true, if coin then DIRECTION_SOUTH else DIRECTION_EAST)
      else if s then (m, true, DIRECTION_SOUTH)
      else if e then (m, true, DIRECTION_EAST)
      else if cw DIRECTION_SOUTHEAST then (m, true, DIRECTION_SOUTHEAST)
      else
      let n := cw DIRECTION_NORTH in
      let w_ := cw DIRECTION_WEST in
      if flee && (n && w_) then (m, true, if coin then DIRECTION_NORTH else DIRECTION_WEST)
      else if flee && n then (m, true, DIRECTION_NORTH)
      else if flee && w_ then (m, true, DIRECTION_WEST)
      else
        (m, true,
         if w_ && cw DIRECTION_SOUTHWEST then DIRECTION_WEST
         else if n && cw DIRECTION_NORTHEAST then DIRECTION_NORTH
         else moveDirection)
    else if (offsetx <=? -1) && (offsety <=? -1) then
      (* player is SE: escape to NW, W or N *)
      let w_ := cw DIRECTION_WEST in
      let n := cw DIRECTION_NORTH in
      if w_ && n then (m, true, if coin then DIRECTION_WEST else DIRECTION_NORTH)
      else if w_ then (m, true, DIRECTION_WEST)
      else if n then (m, true, DIRECTION_NORTH)
      else if cw DIRECTION_NORTHWEST then (m, true, DIRECTION_NORTHWEST)
      else
      let s := cw DIRECTION_SOUTH in
      let e := cw DIRECTION_EAST in
      if flee && (s && e) then (m, true, if coin then DIRECTION_SOUTH else DIRECTION_EAST)
      else if flee && s then (m, true, DIRECTION_SOUTH)
      else if flee && e then (m, true, DIRECTION_EAST)
      else
        (m, true,
         if s && cw DIRECTION_SOUTHWEST then DIRECTION_SOUTH
         else if e && cw DIRECTION_NORTHEAST then DIRECTION_EAST
         else moveDirection)
    else if (offsetx >=? 1) && (offsety <=? -1) then
      (* player is SW: escape to NE, N or E *)
      let n := cw DIRECTION_NORTH in
      let e := cw DIRECTION_EAST in
      if n && e then (m, true, if coin then DIRECTION_NORTH else DIRECTION_EAST)
      else if n then (m, true, DIRECTION_NORTH)
      else if e then (m, true, DIRECTION_EAST)
      else if cw DIRECTION_NORTHEAST then (m, true, DIRECTION_NORTHEAST)
      else
      let s := cw DIRECTION_SOUTH in
      let w_ := cw DIRECTION_WEST in
      if flee && (s && w_) then (m, true, if coin then DIRECTION_SOUTH else DIRECTION_WEST)
      else if flee && s then (m, true, DIRECTION_SOUTH)
      else if flee && w_ then (m, true, DIRECTION_WEST)
      else
        (m, true,
         if w_ && cw DIRECTION_NORTHWEST then DIRECTION_WEST
         else if s && cw DIRECTION_SOUTHEAST then DIRECTION_SOUTH
         else moveDirection)
    else if (offsetx <=? -1) && (offsety >=? 1) then
      (* player is NE: escape to SW, S or W *)
      let w_ := cw DIRECTION_WEST in
      let s := cw DIRECTION_SOUTH in
      if w_ && s then (m, true, if coin then DIRECTION_WEST else DIRECTION_SOUTH)
      else if w_ then (m, true, DIRECTION_WEST)
      else if s then (m, true, DIRECTION_SOUTH)
      else if cw DIRECTION_SOUTHWEST then (m, true, DIRECTION_SOUTHWEST)
      else
      let n := cw DIRECTION_NORTH in
      let e := cw DIRECTION_EAST in
      if flee && (n && e) then (m, true, if coin then DIRECTION_NORTH else DIRECTION_EAST)
      else if flee && n then (m, true, DIRECTION_NORTH)
      else if flee && e then (m, true, DIRECTION_EAST)
      else
        (m, true,
         if e && cw DIRECTION_SOUTHEAST then DIRECTION_EAST
         else if n && cw DIRECTION_NORTHWEST then DIRECTION_NORTH
         else moveDirection)
    else axis
  else axis.

End Planner.
End Movement.

(** * Target-change governor *)

Inductive TargetSearchType_t :=
| TARGETSEARCH_DEFAULT | TARGETSEARCH_NEAREST | TARGETSEARCH_HP
| TARGETSEARCH_DAMAGE | TARGETSEARCH_RANDOM.

Module TargetChange.

(** The counters of the governor.  The class declaration is not among the
    sources: the two durations are signed and the tick count unsigned
    32-bit values, which is how the code compares and resets them. *)
Record Monster := mkMonster {
  mType : MonsterType;
  master : option Z;
  challengeFocusDuration : Z;
  m_targetChangeCooldown : Z;
  targetChangeTicks : Z
}.

Definition isSummon (m : Monster) : bool :=
  match master m with Some _ => true | None => false end.

(** [onThinkTarget].  [rnd] is the draw of [uniform_random(1, 100)].  The
    second component is the [searchTarget] call the tick ends with, if it
    makes one. *)
Definition onThinkTarget (interval rnd : Z) (m : Monster)
    : Monster * option TargetSearchType_t :=
  if negb (isSummon m) then
    if negb (mt_changeTargetSpeed (mType m) =? 0) then
      let canChange0 := true in
      (* the focus lock of a challenge *)
      let '(focus1, canChange1) :=
        if challengeFocusDuration m >? 0 then
          let d := to_int32 (challengeFocusDuration m - interval) in
          (if d <=? 0 then 0 else d, false)
        else (challengeFocusDuration m, canChange0) in
      (* the cooldown after a reconsideration *)
      let '(cooldown2, ticks2, canChange2) :=
        if m_targetChangeCooldown m >? 0 then
          let c := to_int32 (m_targetChangeCooldown m - interval) in
          if c <=? 0 then (0, mt_changeTargetSpeed (mType m), canChange1)
          else (c, targetChangeTicks m, false)
        else (m_targetChangeCooldown m, targetChangeTicks m, canChange1) in
      if canChange2 then
        let ticks3 := to_uint32 (ticks2 + interval) in
        if ticks3 >=? mt_changeTargetSpeed (mType m) then
          let focus4 := if focus1 >? 0 then 0 else focus1 in
          let m' := mkMonster (mType m) (master m) focus4
                      (to_int32 (mt_changeTargetSpeed (mType m))) 0 in
          if mt_changeTargetChance (mType m) >=? rnd then
            if mt_targetDistance (mType m) <=? 1
            then (m', Some TARGETSEARCH_RANDOM)
            else (m', Some TARGETSEARCH_NEAREST)
          else (m', None)
        else (mkMonster (mType m) (master m) focus1 cooldown2 ticks3, None)
      else (mkMonster (mType m) (master m) focus1 cooldown2 ticks2, None)
    else (m, None)
  else (m, None).

End TargetChange.

(** * Combat scheduler *)

Module Combat.

(** What the scheduler asks of the game.  A cast is recorded, not run: the
    effect of the spell on the world belongs to the spell. *)
Inductive Event :=
| EvLook                                   (* updateLookDirection() *)
| EvCast (spell : Z) (target : Z)          (* spell->castSpell(self, target) *)
| EvSummon (name : string) (at_ : Position). (* placement effects of a summon *)

(** Collaborators outside monster.cpp. *)
Record World := mkWorld {
  (** g_monsters().getMonsterType(name) followed by the Monster constructor *)
  createMonster : string -> option Creature;
  (** g_game().placeCreature: where the creature ends up, if it is placed *)
  placeCreature : Creature -> Position -> bool -> option Position
}.

(** The part of the monster the scheduler reads and writes.  [isFleeing] is
    the value of the inline predicate of that name, declared outside
    monster.cpp. *)
Record Monster := mkMonster {
  id : Z;
  mType : MonsterType;
  master : option Z;
  position : Position;
  isFleeing : bool;
  hasFollowPath : bool;
  attackedCreature : option Creature;
  m_summons : list (option Creature);
  attackTicks : Z;
  defenseTicks : Z;
  extraMeleeAttack : bool;
  lastMeleeAttack : Z;
  minCombatValue : Z;
  maxCombatValue : Z
}.

Definition isSummon (m : Monster) : bool :=
  match master m with Some _ => true | None => false end.

Definition set_attackTicks (v : Z) (m : Monster) : Monster :=
  mkMonster (id m) (mType m) (master m) (position m) (isFleeing m) (hasFollowPath m)
    (attackedCreature m) (m_summons m) v (defenseTicks m) (extraMeleeAttack m)
    (lastMeleeAttack m) (minCombatValue m) (maxCombatValue m).
Definition set_defenseTicks (v : Z) (m : Monster) : Monster :=
  mkMonster (id m) (mType m) (master m) (position m) (isFleeing m) (hasFollowPath m)
    (attackedCreature m) (m_summons m) (attackTicks m) v (extraMeleeAttack m)
    (lastMeleeAttack m) (minCombatValue m) (maxCombatValue m).
Definition set_extraMeleeAttack (v : bool) (m : Monster) : Monster :=
  mkMonster (id m) (mType m) (master m) (position m) (isFleeing m) (hasFollowPath m)
    (attackedCreature m) (m_summons m) (attackTicks m) (defenseTicks m) v
    (lastMeleeAttack m) (minCombatValue m) (maxCombatValue m).
Definition set_lastMeleeAttack (v : Z) (m : Monster) : Monster :=
  mkMonster (id m) (mType m) (master m) (position m) (isFleeing m) (hasFollowPath m)
    (attackedCreature m) (m_summons m) (attackTicks m) (defenseTicks m)
    (extraMeleeAttack m) v (minCombatValue m) (maxCombatValue m).
Definition set_combatValues (lo hi : Z) (m : Monster) : Monster :=
  mkMonster (id m) (mType m) (master m) (position m) (isFleeing m) (hasFollowPath m)
    (attackedCreature m) (m_summons m) (attackTicks m) (defenseTicks m)
    (extraMeleeAttack m) (lastMeleeAttack m) lo hi.
Definition set_m_summons (v : list (option Creature)) (m : Monster) : Monster :=
  mkMonster (id m) (mType m) (master m) (position m) (isFleeing m) (hasFollowPath m)
    (attackedCreature m) v (attackTicks m) (defenseTicks m)
    (extraMeleeAttack m) (lastMeleeAttack m) (minCombatValue m) (maxCombatValue m).

(** [canUseSpell].  [now] is the reading of OTSYS_TIME().  The result is the
    returned flag, [inRange], [resetTicks] and the monster; [None] is the
    remainder by a zero period. *)
Definition canUseSpell (m : Monster) (now : Z) (pos targetPos : Position)
    (sb : spellBlock_t) (interval : Z) (resetTicks : bool)
    : option (bool * bool * bool * Monster) :=
  let inRange := true in
  if sb_isMelee sb && isFleeing m then Some (false, inRange, resetTicks, m)
  else if negb (extraMeleeAttack m) && sb_isMelee sb && (now - lastMeleeAttack m <? 1500)
  then Some (false, inRange, resetTicks, m)
  else
    let m := if extraMeleeAttack m then set_lastMeleeAttack now m else m in
    let rangeTest :=
      if negb (sb_range sb =? 0)
         && (Z.max (to_uint32 (getDistanceX pos targetPos))
                   (to_uint32 (getDistanceY pos targetPos)) >? sb_range sb)
      then Some (false, false, resetTicks, m)
      else Some (true, inRange, resetTicks, m) in
    if negb (sb_isMelee sb) || negb (extraMeleeAttack m) then
      if sb_speed sb >? attackTicks m then Some (false, inRange, false, m)
      else if sb_speed sb =? 0 then None
      else if attackTicks m mod sb_speed sb >=? interval
      then Some (false, inRange, resetTicks, m) (* already used this spell for this round *)
      else rangeTest
    else rangeTest.

(** The loop of [doAttacking] over [mType->info.attackSpells]; [i] numbers
    the abilities, for the clock and the chance rolls. *)
Fixpoint doAttacking_loop (clock roll : nat -> Z) (interval : Z) (target : Creature)
    (spells : list spellBlock_t) (i : nat)
    (m : Monster) (updateLook resetTicks : bool) (log : list Event)
    : option (Monster * bool * bool * list Event) :=
  match spells with
  | [] => Some (m, updateLook, resetTicks, log)
  | spellBlock :: rest =>
      match sb_spell spellBlock with
      | None => doAttacking_loop clock roll interval target rest (S i) m updateLook resetTicks log
      | Some spell =>
          if sb_isMelee spellBlock && isFleeing m
          then doAttacking_loop clock roll interval target rest (S i) m updateLook resetTicks log
          else
            match canUseSpell m (clock i) (position m) (c_position target)
                    spellBlock interval resetTicks with
            | None => None
            | Some (ok, inRange, resetTicks, m) =>
                let '(m, updateLook, log) :=
                  if ok && (sb_chance spellBlock >=? to_uint32 (roll i)) then
                    let log := if updateLook then log ++ [EvLook] else log in
                    let m := set_combatValues (sb_minCombatValue spellBlock)
                               (sb_maxCombatValue spellBlock) m in
                    let log := log ++ [EvCast spell (c_id target)] in
                    let m := if sb_isMelee spellBlock
                             then set_extraMeleeAttack false m else m in
                    (m, false, log)
                  else (m, updateLook, log) in
                let m :=
                  if negb inRange && sb_isMelee spellBlock
                  then set_extraMeleeAttack true m (* melee swing out of reach *)
                  else m in
                doAttacking_loop clock roll interval target rest (S i) m updateLook resetTicks log
            end
      end
  end.

(** [doAttacking].  [clock i] and [roll i] are the time read and the draw of
    [uniform_random(1, 30)] at the i-th ability. *)
Definition doAttacking (clock roll : nat -> Z) (interval : Z) (m : Monster)
    : option (Monster * list Event) :=
  match attackedCreature m with
  | None => Some (m, [])
  | Some target =>
      if isSummon m && (c_id target =? id m) then Some (m, [])
      else
        let updateLook := true in
        let resetTicks := negb (interval =? 0) in
        let m := set_attackTicks (to_uint32 (attackTicks m + interval)) m in
        match doAttacking_loop clock roll interval target
                (mt_attackSpells (mType m)) 0%nat m updateLook resetTicks [] with
        | None => None
        | Some (m, updateLook, resetTicks, log) =>
            let log := if updateLook then log ++ [EvLook] else log in
            let m := if resetTicks then set_attackTicks 0 m else m in
            Some (m, log)
        end
  end.

(** Whether an ability gets to the period test [sb.speed > attackTicks] of
    canUseSpell when its turn comes in the loop of doAttacking: it carries a
    spell, it is no melee ability of a fleeing monster, it is no melee
    ability inside the 1.5 s after the last extra-swing mark, and it is no
    melee ability with an extra swing pending.  [now] is the reading of
    OTSYS_TIME() at its turn. *)
Definition takesPeriodTest (m : Monster) (now : Z) (sb : spellBlock_t) : bool :=
  match sb_spell sb with
  | None => false
  | Some _ =>
      negb (sb_isMelee sb && isFleeing m)
      && negb (negb (extraMeleeAttack m) && sb_isMelee sb && (now - lastMeleeAttack m <? 1500))
      && (negb (sb_isMelee sb) || negb (extraMeleeAttack m))
  end.

(** Modelled from the spec: Creature::setMaster is not among the sources.
    "Bind ownership" is taken as: the summon's master reference points to the
    caster and the caster's summon list records the summon. *)
Definition setMaster (owner : Monster) (summon : Creature) : Monster * Creature :=
  let summon := set_c_master (Some (id owner)) summon in
  (set_m_summons (m_summons owner ++ [Some summon]) owner, summon).

(** The counting loop of [onThinkDefense] over [m_summons]. *)
Fixpoint summonCount (name : string) (summons : list (option Creature)) : Z :=
  match summons with
  | [] => 0
  | summon :: rest =>
      (match summon with
       | Some c => if String.eqb (c_name c) name then 1 else 0
       | None => 0
       end) + summonCount name rest
  end.

Fixpoint onThinkDefense_spells (roll : nat -> Z) (interval : Z)
    (spells : list spellBlock_t) (i : nat) (m : Monster) (resetTicks : bool)
    (log : list Event) : option (Monster * bool * list Event) :=
  match spells with
  | [] => Some (m, resetTicks, log)
  | spellBlock :: rest =>
      if sb_speed spellBlock >? defenseTicks m
      then onThinkDefense_spells roll interval rest (S i) m false log
      else
        match sb_spell spellBlock with
        | None => onThinkDefense_spells roll interval rest (S i) m resetTicks log
        | Some spell =>
            if sb_speed spellBlock =? 0 then None
            else if defenseTicks m mod sb_speed spellBlock >=? interval
            then (* already used this spell for this round *)
              onThinkDefense_spells roll interval rest (S i) m resetTicks log
            else if sb_chance spellBlock >=? to_uint32 (roll i) then
              let m := set_combatValues (sb_minCombatValue spellBlock)
                         (sb_maxCombatValue spellBlock) m in
              onThinkDefense_spells roll interval rest (S i) m resetTicks
                (log ++ [EvCast spell (id m)])
            else onThinkDefense_spells roll interval rest (S i) m resetTicks log
        end
  end.

Fixpoint onThinkDefense_summons (w : World) (roll : nat -> Z) (interval : Z)
    (blocks : list summonBlock_t) (i : nat) (m : Monster) (resetTicks : bool)
    (log : list Event) : option (Monster * bool * list Event) :=
  match blocks with
  | [] => Some (m, resetTicks, log)
  | summonBlock :: rest =>
      if su_speed summonBlock >? defenseTicks m
      then onThinkDefense_summons w roll interval rest (S i) m false log
      else if Z.of_nat (length (m_summons m)) >=? mt_maxSummons (mType m)
      then onThinkDefense_summons w roll interval rest (S i) m resetTicks log
      else if su_speed summonBlock =? 0 then None
      else if defenseTicks m mod su_speed summonBlock >=? interval
      then (* already used this spell for this round *)
        onThinkDefense_summons w roll interval rest (S i) m resetTicks log
      else if summonCount (su_name summonBlock) (m_summons m) >=? su_count summonBlock
      then onThinkDefense_summons w roll interval rest (S i) m resetTicks log
      else if su_chance summonBlock <? to_uint32 (roll i)
      then onThinkDefense_summons w roll interval rest (S i) m resetTicks log
      else
        match createMonster w (su_name summonBlock) with
        | None => onThinkDefense_summons w roll interval rest (S i) m resetTicks log
        | Some summon =>
            match placeCreature w summon (position m) (su_force summonBlock) with
            | None => onThinkDefense_summons w roll interval rest (S i) m resetTicks log
            | Some at_ =>
                let '(m, summon) := setMaster m (set_c_position at_ summon) in
                onThinkDefense_summons w roll interval rest (S i) m resetTicks
                  (log ++ [EvSummon (c_name summon) at_])
            end
        end
  end.

(** [onThinkDefense].  [rollD i] and [rollS i] are the draws of
    [uniform_random(1, 100)] at the i-th defense ability and the i-th summon
    entry. *)
Definition onThinkDefense (w : World) (rollD rollS : nat -> Z) (interval : Z)
    (m : Monster) : option (Monster * list Event) :=
  let resetTicks := true in
  let m := set_defenseTicks (to_uint32 (defenseTicks m + interval)) m in
  match onThinkDefense_spells rollD interval (mt_defenseSpells (mType m)) 0%nat
          m resetTicks [] with
  | None => None
  | Some (m, resetTicks, log) =>
      let summoned :=
        if negb (isSummon m)
           && (Z.of_nat (length (m_summons m)) <? mt_maxSummons (mType m))
           && hasFollowPath m
        then onThinkDefense_summons w rollS interval (mt_summons (mType m)) 0%nat
               m resetTicks log
        else Some (m, resetTicks, log) in
      match summoned with
      | None => None
      | Some (m, resetTicks, log) =>
          Some (if resetTicks then set_defenseTicks 0 m else m, log)
      end
  end.

(** The cap of one summon entry, in the spec's words: the live summons of
    that entry's name number at most min(maxSummons, count). *)
Definition withinSummonCap (m : Monster) (summonBlock : summonBlock_t) : Prop :=
  summonCount (su_name summonBlock) (m_summons m)
  <= Z.min (mt_maxSummons (mType m)) (su_count summonBlock).

End Combat.

(** * Target registry *)

Module Registry.

(** The part of the monster the registry reads and writes.  [faction] is the
    value of getFaction(). *)
Record Monster := mkMonster {
  id : Z;
  mType : MonsterType;
  master : option Z;
  faction : Z;
  position : Position;
  targetDistance : Z;
  targetList : list Z;
  friendList : gmap Z Z;
  attackedCreature : option Z;
  followCreature : option Z;
  damageMap : gmap Z Z
}.

(** Collaborators outside monster.cpp.  The two setters belong to the
    Creature base class: they return the monster as they leave it and
    whether they accepted the creature. *)
Record World := mkWorld {
  store : Store;
  isPartner : Z -> Z -> bool;
  isEnemyFaction : Z -> bool;
  canSeeCreature : Creature -> bool;
  isSightClear : Position -> Position -> bool;
  setAttackedCreature : Monster -> Creature -> Monster * bool;
  setFollowCreature : Monster -> Creature -> Monster * bool
}.

Section Registry.
Variable w : World.

(** getMaster(): the master reference, locked. *)
Definition getMaster (m : Monster) : option (Z * Creature) :=
  match master m with
  | Some mid => match store w !! mid with Some c => Some (mid, c) | None => None end
  | None => None
  end.

Definition isSummon (m : Monster) : bool :=
  match getMaster m with Some _ => true | None => false end.

(** creature->getMaster(), for another creature. *)
Definition masterOf (c : Creature) : option (Z * Creature) :=
  match c_master c with
  | Some mid => match store w !! mid with Some mc => Some (mid, mc) | None => None end
  | None => None
  end.

Definition isFriend (m : Monster) (creature : Creature) : bool :=
  let viaMaster :=
    match getMaster m with
    | Some (masterId, masterPlayer) =>
        if getPlayer masterPlayer then
          let tmpPlayer : option Z :=
            if getPlayer creature then Some (c_id creature)
            else match masterOf creature with
                 | Some (cmId, creatureMaster) =>
                     if getPlayer creatureMaster then Some cmId else None
                 | None => None
                 end in
          match tmpPlayer with
          | Some tmp => (tmp =? masterId) || isPartner w masterId tmp
          | None => false
          end
        else false
    | None => false
    end in
  if viaMaster then true
  else getMonster creature && negb (c_isSummon creature).

Definition isOpponent (m : Monster) (creature : option Creature) : bool :=
  match creature with
  | None => false
  | Some c =>
      let summonOfPlayer :=
        match getMaster m with
        | Some (masterId, masterC) => if getPlayer masterC then Some masterId else None
        | None => None
        end in
      match summonOfPlayer with
      | Some masterId => negb (c_id c =? masterId)
      | None =>
          if getPlayer c && c_ignoredByMonsters c then false
          else if negb (faction m =? FACTION_DEFAULT)
          then isEnemyFaction w (c_faction c) || (c_faction c =? FACTION_PLAYER)
          else if getPlayer c
                  || match masterOf c with
                     | Some (_, cm) => getPlayer cm
                     | None => false
                     end
          then true
          else false
      end
  end.

Definition isTarget (m : Monster) (creature : Creature) : bool :=
  if c_removed creature || negb (c_attackable creature)
     || match c_zone creature with ZONE_PROTECTION => true | _ => false end
     || negb (canSeeCreature w creature)
  then false
  else if negb (pos_z (c_position creature) =? pos_z (position m)) then false
  else if negb (isSummon m) then
    if getPlayer creature && c_disconnected creature then false
    else if negb (faction m =? FACTION_DEFAULT) then isEnemyFaction w (c_faction creature)
    else true
  else true.

(** [selectTarget].  The attack check it schedules on the dispatcher is not
    represented. *)
Definition selectTarget (m : Monster) (creature : Creature) : Monster * bool :=
  if negb (isTarget m creature) then (m, false)
  else if negb (bool_decide (c_id creature ∈ targetList m)) then (m, false)
  else
    let m := if mt_isHostile (mType m) || isSummon m
             then fst (setAttackedCreature w m creature) else m in
    setFollowCreature w m creature.

(** The Chebyshev distance as [searchTarget] computes it. *)
Definition searchDistance (myPos pos : Position) : Z :=
  Z.max (to_int32 (getDistanceX myPos pos)) (to_int32 (getDistanceY myPos pos)).

(** The candidates of [searchTarget], in target-list order. *)
Fixpoint resultList_loop (m : Monster) (refs : list Z) : list Creature :=
  match refs with
  | [] => []
  | cref :: rest =>
      match store w !! cref with
      | Some creature =>
          if isTarget m creature
             && ((targetDistance m =? 1)
                 || canUseAttack (isSightClear w) (mType m) (position m) creature)
          then creature :: resultList_loop m rest
          else resultList_loop m rest
      | None => resultList_loop m rest
      end
  end.

Definition resultList (m : Monster) : list Creature := resultList_loop m (targetList m).

(** The do-while loops of the three ranking strategies, entered with the
    first candidate as [getTarget]. *)
Fixpoint nearest_loop (myPos : Position) (factionOffset : Z) (rest : list Creature)
    (getTarget : Creature) (minRange : Z) : Creature :=
  match rest with
  | [] => getTarget
  | it :: rest =>
      let distance := searchDistance myPos (c_position it) + factionOffset in
      if distance <? minRange
      then nearest_loop myPos factionOffset rest it distance
      else nearest_loop myPos factionOffset rest getTarget minRange
  end.

Definition searchNearest (myPos : Position) (first : Creature) (rest : list Creature)
    : Creature :=
  let minRange := searchDistance myPos (c_position first) in
  let factionOffset := c_faction first * 100 in
  nearest_loop myPos factionOffset rest first minRange.

Fixpoint hp_loop (rest : list Creature) (getTarget : Creature)
    (minHp factionOffset : Z) : Creature :=
  match rest with
  | [] => getTarget
  | it :: rest =>
      let hp := c_health it + factionOffset in
      let factionOffset := c_faction it * 100000 in
      if hp <? minHp then hp_loop rest it hp factionOffset
      else hp_loop rest getTarget minHp factionOffset
  end.

Definition searchHp (first : Creature) (rest : list Creature) : Creature :=
  let factionOffset := c_faction first * 100000 in
  hp_loop rest first (c_health first + factionOffset) factionOffset.

Fixpoint damage_loop (dmap : gmap Z Z) (rest : list Creature) (getTarget : Creature)
    (mostDamage : Z) : Creature :=
  match rest with
  | [] => getTarget
  | it :: rest =>
      let factionOffset := c_faction it * 100000 in
      match dmap !! c_id it with
      | Some total =>
          if total + factionOffset >? mostDamage
          then damage_loop dmap rest it total
          else damage_loop dmap rest getTarget mostDamage
      | None => damage_loop dmap rest getTarget mostDamage
      end
  end.

Definition searchDamage (dmap : gmap Z Z) (first : Creature) (rest : list Creature)
    : Creature :=
  damage_loop dmap rest first 0.

(** getTargetList(): the target references that still resolve. *)
Definition getTargetList (m : Monster) : list Creature :=
  omap (fun cref => store w !! cref) (targetList m).

(** "lets just pick the first target in the list": std::ranges::any_of. *)
Fixpoint selectFirst (l : list Creature) (m : Monster) : Monster * bool :=
  match l with
  | [] => (m, false)
  | creature :: rest =>
      let '(m, ok) := selectTarget m creature in
      if ok then (m, true) else selectFirst rest m
  end.

(** The strategy a TARGETSEARCH_DEFAULT call resolves to; [rnd] is the draw
    of [uniform_random(1, 100)]. *)
Definition resolveSearchType (mt : MonsterType) (rnd : Z) (searchType : TargetSearchType_t)
    : TargetSearchType_t :=
  match searchType with
  | TARGETSEARCH_DEFAULT =>
      let sum := mt_strategiesTargetNearest mt in
      if rnd >? sum then
        let sum := sum + mt_strategiesTargetHealth mt in
        if rnd >? sum then
          let sum := sum + mt_strategiesTargetDamage mt in
          if rnd >? sum then TARGETSEARCH_RANDOM else TARGETSEARCH_DAMAGE
        else TARGETSEARCH_HP
      else TARGETSEARCH_NEAREST
  | other => other
  end.

(** [searchTarget].  [rndIndex] is the draw of
    [uniform_random(0, resultList.size() - 1)]; advancing past the end of the
    candidates has no defined result.  The branch of the nearest case for an
    empty candidate list is behind the early return and never runs. *)
Definition searchTarget (rnd rndIndex : Z) (searchType : TargetSearchType_t)
    (m : Monster) : option (Monster * bool) :=
  let searchType := resolveSearchType (mType m) rnd searchType in
  let myPos := position m in
  match resultList m with
  | [] => Some (m, false)
  | first :: rest =>
      let ranked (getTarget : Creature) :=
        let '(m, ok) := selectTarget m getTarget in
        if ok then Some (m, true)
        else Some (selectFirst (getTargetList m) m) in
      match searchType with
      | TARGETSEARCH_NEAREST => ranked (searchNearest myPos first rest)
      | TARGETSEARCH_HP => ranked (searchHp first rest)
      | TARGETSEARCH_DAMAGE => ranked (searchDamage (damageMap m) first rest)
      | _ =>
          if 0 <=? rndIndex then
            match (first :: rest) !! Z.to_nat rndIndex with
            | Some it => Some (selectTarget m it)
            | None => None
            end
          else None
      end
  end.

End Registry.
End Registry.

(** * Life cycle and idle state machine *)

Module Lifecycle.

Inductive Event :=
| EvAddCreatureCheck        (* g_game().addCreatureCheck(self) *)
| EvRemoveCreatureCheck     (* Game::removeCreatureCheck(self) *)
| EvOnIdleStatus            (* onIdleStatus() *)
| EvRemoveForgeMonster      (* g_game().removeForgeMonster(...) *)
| EvDeathSound.             (* g_game().sendSingleSoundEffect(..., deathSound, ...) *)

(** The part of the monster the life cycle reads and writes.  [hasSpawn]
    tells whether [spawnMonster] is set, [forged] whether the forge
    classification is above FORGE_NORMAL_MONSTER, [hasType] whether [mType]
    is set; [faction] is the value of getFaction(). *)
Record Monster := mkMonster {
  id : Z;
  master : option Z;
  faction : Z;
  position : Position;
  masterPos : Position;
  hasSpawn : bool;
  health : Z;
  removed : bool;
  conditions : list Z;
  targetList : list Z;
  friendList : gmap Z Z;
  totalPlayersOnScreen : Z;
  isIdle : bool;
  isWalkingBack : bool;
  attackedCreature : option Z;
  m_summons : list (option Z);
  forged : bool;
  hasType : bool;
  dead : bool
}.

Definition set_isIdle (v : bool) (m : Monster) : Monster :=
  mkMonster (id m) (master m) (faction m) (position m) (masterPos m) (hasSpawn m)
    (health m) (removed m) (conditions m) (targetList m) (friendList m)
    (totalPlayersOnScreen m) v (isWalkingBack m) (attackedCreature m)
    (m_summons m) (forged m) (hasType m) (dead m).
Definition set_isWalkingBack (v : bool) (m : Monster) : Monster :=
  mkMonster (id m) (master m) (faction m) (position m) (masterPos m) (hasSpawn m)
    (health m) (removed m) (conditions m) (targetList m) (friendList m)
    (totalPlayersOnScreen m) (isIdle m) v (attackedCreature m)
    (m_summons m) (forged m) (hasType m) (dead m).
Definition set_attackedCreature (v : option Z) (m : Monster) : Monster :=
  mkMonster (id m) (master m) (faction m) (position m) (masterPos m) (hasSpawn m)
    (health m) (removed m) (conditions m) (targetList m) (friendList m)
    (totalPlayersOnScreen m) (isIdle m) (isWalkingBack m) v
    (m_summons m) (forged m) (hasType m) (dead m).
Definition set_m_summons (v : list (option Z)) (m : Monster) : Monster :=
  mkMonster (id m) (master m) (faction m) (position m) (masterPos m) (hasSpawn m)
    (health m) (removed m) (conditions m) (targetList m) (friendList m)
    (totalPlayersOnScreen m) (isIdle m) (isWalkingBack m) (attackedCreature m)
    v (forged m) (hasType m) (dead m).
Definition set_dead (v : bool) (m : Monster) : Monster :=
  mkMonster (id m) (master m) (faction m) (position m) (masterPos m) (hasSpawn m)
    (health m) (removed m) (conditions m) (targetList m) (friendList m)
    (totalPlayersOnScreen m) (isIdle m) (isWalkingBack m) (attackedCreature m)
    (m_summons m) (forged m) (hasType m) v.

Definition clearTargetList (m : Monster) : Monster :=
  mkMonster (id m) (master m) (faction m) (position m) (masterPos m) (hasSpawn m)
    (health m) (removed m) (conditions m) [] (friendList m)
    (totalPlayersOnScreen m) (isIdle m) (isWalkingBack m) (attackedCreature m)
    (m_summons m) (forged m) (hasType m) (dead m).

Definition clearFriendList (m : Monster) : Monster :=
  mkMonster (id m) (master m) (faction m) (position m) (masterPos m) (hasSpawn m)
    (health m) (removed m) (conditions m) (targetList m) ∅
    (totalPlayersOnScreen m) (isIdle m) (isWalkingBack m) (attackedCreature m)
    (m_summons m) (forged m) (hasType m) (dead m).

Definition isInSpawnLocation (m : Monster) : bool :=
  if negb (hasSpawn m) then true
  else Position_eqb (position m) (masterPos m)
       || Position_eqb (masterPos m) Position_default.

Definition setIdle (idle : bool) (m : Monster) : Monster * list Event :=
  if removed m || (health m <=? 0) then (m, [])
  else
    let m := set_isIdle idle m in
    if negb (isIdle m) then (m, [EvAddCreatureCheck])
    else (clearFriendList (clearTargetList m), [EvOnIdleStatus; EvRemoveCreatureCheck]).

Section Lifecycle.
Variable st : Store.

(** getMaster(), locked; isSummon() tests the same reference. *)
Definition getMaster (m : Monster) : option Creature :=
  match master m with Some mid => st !! mid | None => None end.

Definition isSummon (m : Monster) : bool :=
  match getMaster m with Some _ => true | None => false end.

Definition updateIdleStatus (m : Monster) : Monster * list Event :=
  let '(idle, m) :=
    match conditions m with
    | [] =>
        if negb (isSummon m) && match targetList m with [] => true | _ => false end then
          if isInSpawnLocation m then (true, m)
          else (false, set_isWalkingBack true m)
        else
          match getMaster m with
          | Some masterC =>
              if ((negb (isSummon m) && (totalPlayersOnScreen m =? 0))
                  || (isSummon m && getMonster masterC
                      && (c_totalPlayersOnScreen masterC =? 0)))
                 && negb (faction m =? FACTION_DEFAULT)
              then (true, m) else (false, m)
          | None => (false, m)
          end
    | _ :: _ => (false, m)
    end in
  setIdle idle m.

End Lifecycle.

(** Modelled from the spec: Creature::changeHealth is not among the sources.
    The spec calls [changeHealth(-getHealth())] a force-kill, the health
    reaching zero: the change is added to the health. *)
Definition Creature_changeHealth (healthChange : Z) (c : Creature) : Creature :=
  set_c_health (c_health c + healthChange) c.

(** Modelled from the spec: Creature::removeMaster is not among the sources.
    "Each summon's master reference becomes null." *)
Definition removeMaster (c : Creature) : Creature := set_c_master None c.

(** Modelled from the spec: Creature::setAttackedCreature is not among the
    sources.  For the null argument death passes: "clears active target". *)
Definition setAttackedCreature_null (m : Monster) : Monster :=
  set_attackedCreature None m.

(** [Monster::changeHealth], run on a summon that is a monster: setIdle(false)
    on that summon, then the base-class change.  The sound it may emit is not
    represented.  Another kind of creature takes the base-class change. *)
Definition changeHealth (healthChange : Z) (c : Creature) : Creature :=
  match c_kind c with
  | KMonster =>
      let c := if c_removed c || (c_health c <=? 0) then c else set_c_isIdle false c in
      Creature_changeHealth healthChange c
  | _ => Creature_changeHealth healthChange c
  end.

(** The loop of [death] over [m_summons]: each summon lives in the store and
    is changed there. *)
Fixpoint death_summons (summons : list (option Z)) (st : Store) : Store :=
  match summons with
  | [] => st
  | None :: rest => death_summons rest st
  | Some sid :: rest =>
      let st := alter (fun summon => removeMaster (changeHealth (- c_health summon) summon))
                      sid st in
      death_summons rest st
  end.

Definition death (st : Store) (m : Monster) : Store * Monster * list Event :=
  let log := if forged m then [EvRemoveForgeMonster] else [] in
  let m := setAttackedCreature_null m in
  let st := death_summons (m_summons m) st in
  let m := set_m_summons [] m in
  let m := clearTargetList m in
  let m := clearFriendList m in
  let log := log ++ [EvOnIdleStatus] in
  let log := if hasType m then log ++ [EvDeathSound] else log in
  (st, set_dead true m, log).

End Lifecycle.

(** * Further operations of monster.cpp *)

(** [updateLookDirection]: [dir] is getDirection(), [pos] the monster's
    position.  The result is the direction handed to
    g_game().internalCreatureTurn, [None] when the function returns without
    turning. *)
Definition updateLookDirection (dir : Direction) (pos : Position)
    (attackedCreature : option Creature) : option Direction :=
  match attackedCreature with
  | None => None
  | Some attacked =>
      let attackedCreaturePos := c_position attacked in
      let offsetx := getOffsetX attackedCreaturePos pos in
      let offsety := getOffsetY attackedCreaturePos pos in
      let dx := to_int32 (Z.abs offsetx) in
      let dy := to_int32 (Z.abs offsety) in
      if dx >? dy then
        (* look EAST/WEST *)
        if offsetx <? 0 then Some DIRECTION_WEST else Some DIRECTION_EAST
      else if dx <? dy then
        (* look NORTH/SOUTH *)
        if offsety <? 0 then Some DIRECTION_NORTH else Some DIRECTION_SOUTH
      else if (offsetx <? 0) && (offsety <? 0) then
        match dir with
        | DIRECTION_SOUTH => Some DIRECTION_WEST
        | DIRECTION_EAST => Some DIRECTION_NORTH
        | _ => Some dir
        end
      else if (offsetx <? 0) && (offsety >? 0) then
        match dir with
        | DIRECTION_NORTH => Some DIRECTION_WEST
        | DIRECTION_EAST => Some DIRECTION_SOUTH
        | _ => Some dir
        end
      else if (offsetx >? 0) && (offsety <? 0) then
        match dir with
        | DIRECTION_SOUTH => Some DIRECTION_EAST
        | DIRECTION_WEST => Some DIRECTION_NORTH
        | _ => Some dir
        end
      else
        match dir with
        | DIRECTION_NORTH => Some DIRECTION_EAST
        | DIRECTION_WEST => Some DIRECTION_SOUTH
        | _ => Some dir
        end
  end.

(** [getPushItemLocationOptions]: the (x, y) offsets tried, in order.  The
    Direction enumeration is declared outside the sources and has values
    besides the eight named directions (DIRECTION_NONE); [None] stands for
    such a value, which falls through every test to the final [return {}]. *)
Definition getPushItemLocationOptions (direction : option Direction) : list (Z * Z) :=
  match direction with
  | Some DIRECTION_WEST | Some DIRECTION_EAST => [(0, -1); (0, 1)]
  | Some DIRECTION_NORTH | Some DIRECTION_SOUTH => [(-1, 0); (1, 0)]
  | Some DIRECTION_NORTHWEST => [(0, -1); (-1, 0)]
  | Some DIRECTION_NORTHEAST => [(0, -1); (1, 0)]
  | Some DIRECTION_SOUTHWEST => [(0, 1); (-1, 0)]
  | Some DIRECTION_SOUTHEAST => [(0, 1); (1, 0)]
  | None => []
  end.

(** The step a direction stands for, as getDanceStep writes the four
    cardinal ones out (north is y - 1, east is x + 1). *)
Definition directionOffset (d : Direction) : Z * Z :=
  match d with
  | DIRECTION_NORTH => (0, -1)
  | DIRECTION_EAST => (1, 0)
  | DIRECTION_SOUTH => (0, 1)
  | DIRECTION_WEST => (-1, 0)
  | DIRECTION_SOUTHWEST => (-1, 1)
  | DIRECTION_SOUTHEAST => (1, 1)
  | DIRECTION_NORTHWEST => (-1, -1)
  | DIRECTION_NORTHEAST => (1, -1)
  end.

(** The position one step away in a direction. *)
Definition stepFrom (pos : Position) (d : Direction) : Position :=
  mkPosition (pos_x pos + (directionOffset d).1) (pos_y pos + (directionOffset d).2)
    (pos_z pos).

(** The tile getDanceStep hands to canUseAttack for a step: the position
    built by [Position(x, y, z)] from the stepped coordinates, in the width
    of its fields. *)
Definition danceTile (pos : Position) (d : Direction) : Position :=
  Position_of (pos_x pos + (directionOffset d).1) (pos_y pos + (directionOffset d).2)
    (pos_z pos).

(** The distance getDanceStep compares: the larger axis distance, each taken
    as a 32-bit unsigned value. *)
Definition danceDistance (p1 p2 : Position) : Z :=
  Z.max (to_uint32 (Z.abs (getOffsetX p1 p2))) (to_uint32 (Z.abs (getOffsetY p1 p2))).

Definition isCardinal (d : Direction) : bool :=
  match d with
  | DIRECTION_NORTH | DIRECTION_EAST | DIRECTION_SOUTH | DIRECTION_WEST => true
  | _ => false
  end.

(** ** The target and friend sets *)

Module Targets.

(** The part of the monster the set operations read and write.  The counter
    of players in view is taken as a 16-bit unsigned value. *)
Record Monster := mkMonster {
  id : Z;
  master : option Z;
  faction : Z;
  hasFollowPath : bool;
  targetList : list Z;
  friendList : gmap Z Z;
  totalPlayersOnScreen : Z
}.

Definition to_uint16 (v : Z) : Z := v mod 2 ^ 16.

Section Targets.
Variable st : Store.

Definition getMaster (m : Monster) : option Creature :=
  match master m with Some mid => st !! mid | None => None end.

Definition isSummon (m : Monster) : bool :=
  match getMaster m with Some _ => true | None => false end.

Definition addFriend (m : Monster) (creature : Creature) : Monster :=
  if c_id creature =? id m then m
  else
    (* try_emplace: an id already present keeps its entry *)
    match friendList m !! c_id creature with
    | Some _ => m
    | None =>
        mkMonster (id m) (master m) (faction m) (hasFollowPath m) (targetList m)
          (<[c_id creature := c_id creature]> (friendList m)) (totalPlayersOnScreen m)
    end.

(** std::erase_if: an entry goes when its reference no longer resolves or
    resolves to the creature. *)
Definition friendStays (creature : Creature) (entry : Z * Z) : bool :=
  match st !! entry.2 with
  | Some target => negb (c_id target =? c_id creature)
  | None => false
  end.

Definition removeFriend (m : Monster) (creature : Creature) : Monster :=
  mkMonster (id m) (master m) (faction m) (hasFollowPath m) (targetList m)
    (filter (fun entry : Z * Z => friendStays creature entry = true) (friendList m))
    (totalPlayersOnScreen m).

(** The counter condition shared by addTarget and removeTarget. *)
Definition countsAsPlayerOnScreen (m : Monster) (creature : Creature) : bool :=
  match getMaster m with Some _ => false | None => true end
  && negb (faction m =? FACTION_DEFAULT) && getPlayer creature.

(** Modelled from the spec: getTargetIterator is declared in monster.hpp,
    which is not among the sources.  The spec has membership of the target
    set unique per creature id: the creature is looked up by its id, and the
    answer here is whether the iterator differs from targetList.end(). *)
Definition getTargetIterator (m : Monster) (creature : Creature) : bool :=
  bool_decide (c_id creature ∈ targetList m).

Definition addTarget (m : Monster) (creature : Creature) (pushFront : bool)
    : Monster * bool :=
  if c_id creature =? id m then (m, false)
  else if getTargetIterator m creature then (m, false)
  else
    let targets := if pushFront then c_id creature :: targetList m
                   else targetList m ++ [c_id creature] in
    let total := if countsAsPlayerOnScreen m creature
                 then to_uint16 (totalPlayersOnScreen m + 1)
                 else totalPlayersOnScreen m in
    (mkMonster (id m) (master m) (faction m) (hasFollowPath m) targets
       (friendList m) total, true).

(** targetList.erase(it): the first reference to the creature goes. *)
Fixpoint erase (cid : Z) (targets : list Z) : list Z :=
  match targets with
  | [] => []
  | ref :: rest => if ref =? cid then rest else ref :: erase cid rest
  end.

Definition removeTarget (m : Monster) (creature : option Creature) : Monster * bool :=
  match creature with
  | None => (m, false)
  | Some c =>
      if negb (getTargetIterator m c) then (m, false)
      else
        let total := if countsAsPlayerOnScreen m c
                     then to_uint16 (totalPlayersOnScreen m - 1)
                     else totalPlayersOnScreen m in
        (mkMonster (id m) (master m) (faction m) (hasFollowPath m)
           (erase (c_id c) (targetList m)) (friendList m) total, true)
  end.

Definition onFollowCreatureComplete (m : Monster) (creature : option Creature) : Monster :=
  let '(m1, removed) := removeTarget m creature in
  if removed && (hasFollowPath m1 || negb (isSummon m1)) then
    match creature with
    | Some c => fst (addTarget m1 c (hasFollowPath m1))
    | None => m1
    end
  else m1.

End Targets.
End Targets.

(** ** Challenges and lost targets *)

(** [challengeCreature], on the governor's counters.  [selected] is what
    [selectTarget(creature)] returned; the healing of the challenger's wheel
    is not represented. *)
Definition challengeCreature (selected : bool) (targetChangeCooldown : Z)
    (m : TargetChange.Monster) : TargetChange.Monster * bool :=
  if TargetChange.isSummon m then (m, false)
  else if selected then
    (TargetChange.mkMonster (TargetChange.mType m) (TargetChange.master m)
       (to_int32 targetChangeCooldown) (TargetChange.m_targetChangeCooldown m) 0, true)
  else (m, false).

(** A run of think ticks through the governor, each with its interval and
    its roll; the searchTarget calls made, in order. *)
Fixpoint onThinkTarget_run (ticks : list (Z * Z)) (m : TargetChange.Monster)
    : TargetChange.Monster * list TargetSearchType_t :=
  match ticks with
  | [] => (m, [])
  | (interval, rnd) :: rest =>
      let '(m1, call) := TargetChange.onThinkTarget interval rnd m in
      let '(m2, calls) := onThinkTarget_run rest m1 in
      (m2, match call with Some searchType => searchType :: calls | None => calls end)
  end.

(** The time a run of think ticks takes: the sum of its intervals. *)
Fixpoint elapsed (ticks : list (Z * Z)) : Z :=
  match ticks with
  | [] => 0
  | (interval, _) :: rest => interval + elapsed rest
  end.

Definition onAttackedCreatureDisappear (m : Combat.Monster) : Combat.Monster :=
  Combat.set_extraMeleeAttack true (Combat.set_attackTicks 0 m).

(** The number of updateLookDirection calls in a log. *)
Fixpoint countLooks (log : list Combat.Event) : nat :=
  match log with
  | [] => 0%nat
  | Combat.EvLook :: rest => S (countLooks rest)
  | _ :: rest => countLooks rest
  end.

(** Whether an ability reaches its target: the range test of canUseSpell. *)
Definition withinRange (sb : spellBlock_t) (pos targetPos : Position) : bool :=
  (sb_range sb =? 0)
  || (Z.max (to_uint32 (getDistanceX pos targetPos))
            (to_uint32 (getDistanceY pos targetPos)) <=? sb_range sb).

(** * Scenarios *)

(** Concrete worlds, templates and monsters on which the properties below are
    exercised. *)

Definition compass (d : Direction) (p : Position) : Position :=
  match d with
  | DIRECTION_NORTH => mkPosition (pos_x p) (pos_y p - 1) (pos_z p)
  | DIRECTION_EAST => mkPosition (pos_x p + 1) (pos_y p) (pos_z p)
  | DIRECTION_SOUTH => mkPosition (pos_x p) (pos_y p + 1) (pos_z p)
  | DIRECTION_WEST => mkPosition (pos_x p - 1) (pos_y p) (pos_z p)
  | DIRECTION_SOUTHWEST => mkPosition (pos_x p - 1) (pos_y p + 1) (pos_z p)
  | DIRECTION_SOUTHEAST => mkPosition (pos_x p + 1) (pos_y p + 1) (pos_z p)
  | DIRECTION_NORTHWEST => mkPosition (pos_x p - 1) (pos_y p - 1) (pos_z p)
  | DIRECTION_NORTHEAST => mkPosition (pos_x p + 1) (pos_y p - 1) (pos_z p)
  end.

(** Every tile walkable, every line of sight clear. *)
Definition openWorld : Movement.World :=
  Movement.mkWorld compass (fun _ _ _ => true) (fun _ => 1) (fun _ => true)
    (fun _ _ => true) 0 0.

(** No tile accepts the monster. *)
Definition walledWorld : Movement.World :=
  Movement.mkWorld compass (fun _ _ _ => true) (fun _ => 1) (fun _ => false)
    (fun _ _ => true) 0 0.

Definition meleeSpell : spellBlock_t := mkSpell (Some 1) 100 2000 1 0 (-50) true.
Definition boltSpell : spellBlock_t := mkSpell (Some 2) 20 2000 7 (-10) (-40) false.

Definition meleeType : MonsterType :=
  mkMonsterType "Rotworm" true 1 2000 10 70 10 10 [meleeSpell] [] [] 0.

Definition rangedType : MonsterType :=
  mkMonsterType "Hunter" true 4 2000 10 70 10 10 [boltSpell] [] [] 0.

Definition playerAt (pid : Z) (p : Position) : Creature :=
  mkCreature pid KPlayer "Player" p 150 FACTION_DEFAULT None false true ZONE_NORMAL
    false false false 0.

(** A melee monster three tiles west of its target, with no path to it. *)
Definition strandedDancer : Movement.Monster :=
  Movement.mkMonster meleeType (mkPosition 100 100 7) 1 0 false (mkPosition 100 100 7)
    (Some (playerAt 10 (mkPosition 103 100 7))).

(** A ranged monster two tiles south of the creature it steps away from. *)
Definition corneredHunter : Movement.Monster :=
  Movement.mkMonster rangedType (mkPosition 100 100 7) 4 0 false (mkPosition 100 100 7)
    (Some (playerAt 10 (mkPosition 100 98 7))).

(** A melee monster and a ranged one whose governor is free to reconsider,
    one tick short of its change-target speed. *)
Definition meleeReconsidering : TargetChange.Monster :=
  TargetChange.mkMonster meleeType None 0 0 1000.
Definition rangedReconsidering : TargetChange.Monster :=
  TargetChange.mkMonster rangedType None 0 0 1000.

(** A fleeing melee monster next to the player it attacks. *)
Definition fleeingMelee : Combat.Monster :=
  Combat.mkMonster 500 meleeType None (mkPosition 100 100 7) true true
    (Some (playerAt 10 (mkPosition 101 100 7))) [] 0 0 false 0 0 0.

(** A ranged monster in range of the player it attacks. *)
Definition shootingHunter : Combat.Monster :=
  Combat.mkMonster 501 rangedType None (mkPosition 100 100 7) false true
    (Some (playerAt 10 (mkPosition 103 100 7))) [] 0 0 false 0 0 0.

(** A clock well past the start of the epoch, and rolls that always pass. *)
Definition noon (_ : nat) : Z := 1700000000000.
Definition lowRoll (_ : nat) : Z := 1.

(** An ability of period 20, and a melee jab of the same period. *)
Definition dart20 : spellBlock_t := mkSpell (Some 3) 30 20 7 (-5) (-15) false.
Definition jab20 : spellBlock_t := mkSpell (Some 4) 100 20 1 0 (-20) true.

Definition dartType : MonsterType :=
  mkMonsterType "Dartthrower" true 4 2000 10 70 10 10 [dart20] [] [] 0.
Definition jabType : MonsterType :=
  mkMonsterType "Brawler" true 1 2000 10 70 10 10 [jab20] [] [] 0.

Definition dartThrower : Combat.Monster :=
  Combat.mkMonster 502 dartType None (mkPosition 100 100 7) false true
    (Some (playerAt 10 (mkPosition 103 100 7))) [] 0 0 false 0 0 0.

(** A brawler two tiles from its target, freshly engaged, and the same
    brawler with its target now adjacent. *)
Definition brawlerFar : Combat.Monster :=
  Combat.mkMonster 503 jabType None (mkPosition 100 100 7) false true
    (Some (playerAt 10 (mkPosition 102 100 7))) [] 0 0 false 0 0 0.
Definition brawlerSwingPending : Combat.Monster :=
  Combat.mkMonster 503 jabType None (mkPosition 100 100 7) false true
    (Some (playerAt 10 (mkPosition 101 100 7))) [] 0 0 true 0 0 0.

(** A skirmisher with a jab and a dart, both of period 20, three tiles from
    its target: the jab is out of reach, the dart is not. *)
Definition skirmisherType : MonsterType :=
  mkMonsterType "Skirmisher" true 4 2000 10 70 10 10 [jab20; dart20] [] [] 0.

Definition skirmisher : Combat.Monster :=
  Combat.mkMonster 508 skirmisherType None (mkPosition 100 100 7) false true
    (Some (playerAt 10 (mkPosition 103 100 7))) [] 0 0 false 0 0 0.

(** A caster of rats. *)
Definition ratCreature : Creature :=
  mkCreature 0 KMonster "Rat" Position_default 20 FACTION_DEFAULT None false true
    ZONE_NORMAL false false false 0.

Definition ratWorld : Combat.World :=
  Combat.mkWorld (fun name => if String.eqb name "Rat" then Some ratCreature else None)
    (fun _ at_ _ => Some at_).

Definition ratCallerType : MonsterType :=
  mkMonsterType "Ratcaller" true 1 2000 10 70 10 10 [meleeSpell] []
    [mkSummon "Rat" 100 1000 2 false] 5.

(** The same caster with its rats listed twice, under different counts. *)
Definition ratTwiceType : MonsterType :=
  mkMonsterType "Ratcaller" true 1 2000 10 70 10 10 [meleeSpell] []
    [mkSummon "Rat" 100 1000 1 false; mkSummon "Rat" 100 1000 3 false] 5.

Definition ratCaller : Combat.Monster :=
  Combat.mkMonster 504 ratCallerType None (mkPosition 100 100 7) false true
    (Some (playerAt 10 (mkPosition 101 100 7))) [] 0 0 false 0 0 0.

Definition ratTwiceCaller : Combat.Monster :=
  Combat.mkMonster 505 ratTwiceType None (mkPosition 100 100 7) false true
    (Some (playerAt 10 (mkPosition 101 100 7))) [] 0 0 false 0 0 0.

(** A monster placed by a script, without a spawn record, one tile east of
    the position it was created on. *)
Definition scriptedMonster : Lifecycle.Monster :=
  Lifecycle.mkMonster 506 None FACTION_DEFAULT (mkPosition 101 100 7) (mkPosition 100 100 7)
    false 100 false [] [] ∅ 0 false false None [] false true false.

(** A spawned monster on its anchor, and one tile east of it. *)
Definition homeMonster : Lifecycle.Monster :=
  Lifecycle.mkMonster 507 None FACTION_DEFAULT (mkPosition 100 100 7) (mkPosition 100 100 7)
    true 100 false [] [] ∅ 0 false false None [] false true false.
Definition strayedMonster : Lifecycle.Monster :=
  Lifecycle.mkMonster 507 None FACTION_DEFAULT (mkPosition 101 100 7) (mkPosition 100 100 7)
    true 100 false [] [] ∅ 0 false false None [] false true false.

(** A caster with two live summons, a target and a friend. *)
Definition summonOf (sid owner : Z) : Creature :=
  mkCreature sid KMonster "Rat" (mkPosition 101 100 7) 20 FACTION_DEFAULT (Some owner)
    false true ZONE_NORMAL false false true 0.

Definition packStore : Store :=
  <[601 := summonOf 601 600]> (<[602 := summonOf 602 600]> ∅).

Definition packLeader : Lifecycle.Monster :=
  Lifecycle.mkMonster 600 None FACTION_DEFAULT (mkPosition 100 100 7) (mkPosition 100 100 7)
    true 0 false [] [10] {[ 601 := 601 ]} 0 false false (Some 10)
    [Some 601; None; Some 602] false true false.

(** A hunter whose master is player 10; player 11 is in the master's party,
    player 12 is a stranger with a summon of his own (613). *)
Definition acceptAttacked (m : Registry.Monster) (c : Creature) : Registry.Monster * bool :=
  (Registry.mkMonster (Registry.id m) (Registry.mType m) (Registry.master m)
     (Registry.faction m) (Registry.position m) (Registry.targetDistance m)
     (Registry.targetList m) (Registry.friendList m) (Some (c_id c))
     (Registry.followCreature m) (Registry.damageMap m), true).
Definition acceptFollowed (m : Registry.Monster) (c : Creature) : Registry.Monster * bool :=
  (Registry.mkMonster (Registry.id m) (Registry.mType m) (Registry.master m)
     (Registry.faction m) (Registry.position m) (Registry.targetDistance m)
     (Registry.targetList m) (Registry.friendList m) (Registry.attackedCreature m)
     (Some (c_id c)) (Registry.damageMap m), true).

Definition partyStore : Store :=
  <[10 := playerAt 10 (mkPosition 100 101 7)]>
    (<[11 := playerAt 11 (mkPosition 102 100 7)]>
       (<[12 := playerAt 12 (mkPosition 104 100 7)]>
          (<[613 := summonOf 613 12]> ∅))).

Definition partyWorld : Registry.World :=
  Registry.mkWorld partyStore
    (fun a b => ((a =? 10) && (b =? 11)) || ((a =? 11) && (b =? 10)))
    (fun _ => false) (fun _ => true) (fun _ _ => true) acceptAttacked acceptFollowed.

Definition playerSummon : Registry.Monster :=
  Registry.mkMonster 610 rangedType (Some 10) FACTION_PLAYER (mkPosition 100 100 7) 4
    [11; 12] ∅ None None ∅.

(** A melee monster with three players on its target list, at Chebyshev
    distances 3, 5 and 2. *)
Definition arenaStore : Store :=
  <[21 := playerAt 21 (mkPosition 103 100 7)]>
    (<[22 := playerAt 22 (mkPosition 100 105 7)]>
       (<[23 := playerAt 23 (mkPosition 98 99 7)]> ∅)).

Definition arenaWorld : Registry.World :=
  Registry.mkWorld arenaStore (fun _ _ => false) (fun _ => false) (fun _ => true)
    (fun _ _ => true) acceptAttacked acceptFollowed.

Definition arenaMonster : Registry.Monster :=
  Registry.mkMonster 620 meleeType None FACTION_DEFAULT (mkPosition 100 100 7) 1
    [21; 22; 23] ∅ None None ∅.



(** The arena monster as the target and friend sets see it, with a faction
    of its own, a follow path and three players counted in view. *)
Definition arenaTracker : Targets.Monster :=
  Targets.mkMonster 620 None 2 true [21; 22; 23] ∅ 3.

(** The pack leader as the friend set sees it: summon 601 is a friend. *)
Definition packFriend : Targets.Monster :=
  Targets.mkMonster 600 None FACTION_DEFAULT false [] {[ 601 := 601 ]} 0.

(** A melee monster with two candidates: a monster of faction 2 five tiles
    away, first in its target list, and a player one tile away. *)
Definition rivalAt (rid : Z) (p : Position) : Creature :=
  mkCreature rid KMonster "Rival" p 100 2 None false true ZONE_NORMAL
    false false false 0.

Definition feudStore : Store :=
  <[31 := rivalAt 31 (mkPosition 105 100 7)]>
    (<[32 := playerAt 32 (mkPosition 101 100 7)]> ∅).

Definition feudWorld : Registry.World :=
  Registry.mkWorld feudStore (fun _ _ => false) (fun _ => true) (fun _ => true)
    (fun _ _ => true) acceptAttacked acceptFollowed.

Definition feudMonster : Registry.Monster :=
  Registry.mkMonster 630 meleeType None FACTION_DEFAULT (mkPosition 100 100 7) 1
    [31; 32] ∅ None None ∅.

(** A governor that has just reconsidered: its cooldown is a full
    change-target speed. *)
Definition meleeCooling : TargetChange.Monster :=
  TargetChange.mkMonster meleeType None 0 2000 0.

(** * Properties *)

(** ** Movement planner *)

Lemma canWalkTo_set_stepDuration w v m pos d :
  Movement.canWalkTo w (Movement.set_stepDuration v m) pos d = Movement.canWalkTo w m pos d.
Proof. reflexivity. Qed.

Lemma getRandomStep_blocked w m pos dirList moveDirection :
  (forall d, Movement.canWalkTo w m pos d = false) ->
  Movement.getRandomStep w m pos dirList moveDirection = (false, moveDirection).
Proof.
  intros Hblocked. unfold Movement.getRandomStep.
  induction dirList as [|d rest IH]; simpl; [reflexivity|].
  rewrite Hblocked. exact IH.
Qed.

(** C10. When no neighbouring tile can be walked to, the monster is not on the
    target's tile and the early exits are passed (fleeing, or closer than the
    target distance with a clear line of sight), getDistanceStep returns true
    and leaves the caller's moveDirection as it found it. *)
Theorem C10_getDistanceStep_true_direction_untouched :
  forall (w : Movement.World) (m : Movement.Monster) (coin : bool)
         (dirList : list Direction) (targetPos : Position)
         (moveDirection : Direction) (flee : bool),
    (forall d, Movement.canWalkTo w m (Movement.position m) d = false) ->
    (getOffsetX (Movement.position m) targetPos =? 0)
      && (getOffsetY (Movement.position m) targetPos =? 0) = false ->
    (flee = true \/
     (Z.max (to_int32 (getDistanceX (Movement.position m) targetPos))
            (to_int32 (getDistanceY (Movement.position m) targetPos))
        < Movement.targetDistance m
      /\ Movement.isSightClear w (Movement.position m) targetPos = true)) ->
    exists m',
      Movement.getDistanceStep w m coin dirList targetPos moveDirection flee
      = (m', true, moveDirection).
Proof.
  intros w m coin dirList targetPos moveDirection flee Hblocked Hoff Hpass.
  unfold Movement.getDistanceStep.
  assert (Hguard :
    negb flee && ((Z.max (to_int32 (getDistanceX (Movement.position m) targetPos))
                         (to_int32 (getDistanceY (Movement.position m) targetPos))
                   >? Movement.targetDistance m)
                  || negb (Movement.isSightClear w (Movement.position m) targetPos)) = false
    /\ negb flee && (Z.max (to_int32 (getDistanceX (Movement.position m) targetPos))
                           (to_int32 (getDistanceY (Movement.position m) targetPos))
                     =? Movement.targetDistance m) = false).
  { destruct Hpass as [-> | [Hlt Hsight]]; [split; reflexivity|].
    rewrite Hsight. split; apply andb_false_intro2.
    - apply orb_false_intro; [lia | reflexivity].
    - lia. }
  destruct Hguard as [-> ->]. cbv zeta.
  rewrite Hoff.
  match goal with
  | |- context [Movement.canWalkTo w ?m' _] =>
      assert (Hb : forall d, Movement.canWalkTo w m' (Movement.position m) d = false)
  end.
  { intros d.
    destruct ((getDistanceX (Movement.position m) targetPos <=? 1)
              && (getDistanceY (Movement.position m) targetPos <=? 1));
      [destruct (Movement.stepDuration m <? 2) | destruct (Movement.stepDuration m >? 0)];
      rewrite ?canWalkTo_set_stepDuration; apply Hblocked. }
  rewrite !Hb. rewrite !andb_false_r. simpl.
  repeat match goal with
         | |- context [if ?c then _ else _] =>
             lazymatch c with
             | context [Movement.set_stepDuration] => fail
             | _ => destruct c
             end
         end; eexists; reflexivity.
Qed.

Lemma C10_witness :
  exists m',
    Movement.getDistanceStep walledWorld corneredHunter true
      [DIRECTION_NORTH; DIRECTION_WEST; DIRECTION_EAST; DIRECTION_SOUTH]
      (mkPosition 100 98 7) DIRECTION_EAST false
    = (m', true, DIRECTION_EAST).
Proof.
  apply C10_getDistanceStep_true_direction_untouched.
  - intros d; destruct d; reflexivity.
  - reflexivity.
  - right. split; [vm_compute; reflexivity | reflexivity].
Defined.

Lemma to_uint32_small v : 0 <= v < 2 ^ 32 -> to_uint32 v = v.
Proof. intros H. unfold to_uint32. apply Z.mod_small. exact H. Qed.

Lemma to_int32_small v : - 2 ^ 31 <= v < 2 ^ 31 -> to_int32 v = v.
Proof. intros H. unfold to_int32. rewrite Z.mod_small; lia. Qed.

(** C2. At the failing input the code grants a dance step.  A melee monster
    (target distance 1) stands at Chebyshev distance 3 from the creature it
    attacks, farther than its target distance, on open ground: getDanceStep
    returns true and proposes a step north, where the claim, and the comment
    above the guard ("monsters not at targetDistance shouldn't dancestep"),
    have it return false. *)
Theorem C2_getDanceStep_steps_when_farther :
  Movement.attackedCreature strandedDancer = Some (playerAt 10 (mkPosition 103 100 7))
  /\ chebyshev (mkPosition 100 100 7) (mkPosition 103 100 7) = 3
  /\ Movement.targetDistance strandedDancer = 1
  /\ Movement.getDanceStep openWorld strandedDancer (fun l => l) 0
       (mkPosition 100 100 7) DIRECTION_EAST true true
     = Some (true, DIRECTION_NORTH).
Proof.
  split; [reflexivity|]. split; [reflexivity|]. split; [reflexivity|].
  vm_compute. reflexivity.
Qed.

(** C2, as stated, fails: a melee monster (target distance 1) standing three
    tiles from its target, farther than its target distance, is given a dance
    step. *)
Lemma C2_counterexample :
  ~ (forall (w : Movement.World) (m : Movement.Monster)
            (shuffle : list Direction -> list Direction) (rnd : Z)
            (creaturePos : Position) (moveDirection : Direction)
            (keepAttack keepDistance : bool) (attacked : Creature),
        Movement.attackedCreature m = Some attacked ->
        chebyshev creaturePos (c_position attacked) > Movement.targetDistance m ->
        Movement.getDanceStep w m shuffle rnd creaturePos moveDirection
          keepAttack keepDistance
        = Some (false, moveDirection)).
Proof.
  intros Hclaim.
  specialize (Hclaim openWorld strandedDancer (fun l => l) 0 (mkPosition 100 100 7)
                DIRECTION_EAST true true (playerAt 10 (mkPosition 103 100 7))
                eq_refl eq_refl).
  vm_compute in Hclaim. discriminate Hclaim.
Qed.

(** ** Target-change governor *)

(** C1, as the code has it. Whenever the governor ends a tick with a
    searchTarget call, the monster is no summon, its change-target speed is
    nonzero, it is not focus-locked and the chance roll passed; the call asks
    for the random strategy when the template's target distance is at most 1
    and for the nearest strategy otherwise.  Conversely a monster that is not
    focus-locked, whose cooldown is over (or runs out on this tick) and which
    has gathered enough ticks makes that call when the roll passes. *)
Theorem C1_onThinkTarget_strategy :
  forall (interval rnd : Z) (m : TargetChange.Monster),
    (forall m' st,
        TargetChange.onThinkTarget interval rnd m = (m', Some st) ->
        st = (if mt_targetDistance (TargetChange.mType m) <=? 1
              then TARGETSEARCH_RANDOM else TARGETSEARCH_NEAREST)
        /\ TargetChange.isSummon m = false
        /\ mt_changeTargetSpeed (TargetChange.mType m) <> 0
        /\ TargetChange.challengeFocusDuration m <= 0
        /\ rnd <= mt_changeTargetChance (TargetChange.mType m))
    /\ (TargetChange.isSummon m = false ->
        mt_changeTargetSpeed (TargetChange.mType m) <> 0 ->
        TargetChange.challengeFocusDuration m <= 0 ->
        (TargetChange.m_targetChangeCooldown m <= 0
         /\ mt_changeTargetSpeed (TargetChange.mType m)
            <= to_uint32 (TargetChange.targetChangeTicks m + interval))
        \/ (0 < TargetChange.m_targetChangeCooldown m
            /\ to_int32 (TargetChange.m_targetChangeCooldown m - interval) <= 0
            /\ mt_changeTargetSpeed (TargetChange.mType m)
               <= to_uint32 (mt_changeTargetSpeed (TargetChange.mType m) + interval)) ->
        rnd <= mt_changeTargetChance (TargetChange.mType m) ->
        snd (TargetChange.onThinkTarget interval rnd m)
        = Some (if mt_targetDistance (TargetChange.mType m) <=? 1
                then TARGETSEARCH_RANDOM else TARGETSEARCH_NEAREST)).
Proof.
  intros interval rnd m. split.
  - intros m' st. unfold TargetChange.onThinkTarget.
    destruct (TargetChange.isSummon m) eqn:Hsum; simpl; [discriminate|].
    destruct (Z.eqb_spec (mt_changeTargetSpeed (TargetChange.mType m)) 0) as [|Hspeed];
      simpl; [discriminate|].
    destruct (Z.gtb_spec (TargetChange.challengeFocusDuration m) 0) as [Hf|Hf].
    + (* focus-locked: canChangeTarget is false from here on *)
      destruct (TargetChange.m_targetChangeCooldown m >? 0);
        [destruct (to_int32 (TargetChange.m_targetChangeCooldown m - interval) <=? 0)|];
        simpl; discriminate.
    + destruct (TargetChange.m_targetChangeCooldown m >? 0);
        [destruct (to_int32 (TargetChange.m_targetChangeCooldown m - interval) <=? 0)|];
        simpl; try discriminate.
      all: match goal with
           | |- context [to_uint32 ?t >=? ?v] => destruct (to_uint32 t >=? v)
           end; try discriminate.
      all: destruct (Z.geb_spec (mt_changeTargetChance (TargetChange.mType m)) rnd);
        try discriminate.
      all: destruct (mt_targetDistance (TargetChange.mType m) <=? 1);
        intros [= <- <-]; repeat split; auto; lia.
  - intros Hsum Hspeed Hf Hfree Hroll. unfold TargetChange.onThinkTarget.
    rewrite Hsum. simpl.
    destruct (Z.eqb_spec (mt_changeTargetSpeed (TargetChange.mType m)) 0) as [|_];
      [contradiction|]. simpl.
    destruct (Z.gtb_spec (TargetChange.challengeFocusDuration m) 0); [lia|].
    destruct Hfree as [[Hc Hticks] | (Hc & Hover & Hticks)].
    + destruct (Z.gtb_spec (TargetChange.m_targetChangeCooldown m) 0); [lia|].
      destruct (Z.geb_spec (to_uint32 (TargetChange.targetChangeTicks m + interval))
                  (mt_changeTargetSpeed (TargetChange.mType m))); [|lia].
      destruct (Z.geb_spec (mt_changeTargetChance (TargetChange.mType m)) rnd); [|lia].
      destruct (mt_targetDistance (TargetChange.mType m) <=? 1); reflexivity.
    + destruct (Z.gtb_spec (TargetChange.m_targetChangeCooldown m) 0); [|lia].
      destruct (Z.leb_spec (to_int32 (TargetChange.m_targetChangeCooldown m - interval)) 0);
        [|lia].
      destruct (Z.geb_spec (to_uint32 (mt_changeTargetSpeed (TargetChange.mType m)
                                       + interval))
                  (mt_changeTargetSpeed (TargetChange.mType m))); [|lia].
      destruct (Z.geb_spec (mt_changeTargetChance (TargetChange.mType m)) rnd); [|lia].
      destruct (mt_targetDistance (TargetChange.mType m) <=? 1); reflexivity.
Qed.

Lemma C1_witness :
  (TargetChange.onThinkTarget 1000 7 rangedReconsidering
     = (TargetChange.mkMonster rangedType None 0 2000 0, Some TARGETSEARCH_NEAREST)
   /\ TARGETSEARCH_NEAREST = TARGETSEARCH_NEAREST)
  /\ snd (TargetChange.onThinkTarget 1000 7 meleeReconsidering)
     = Some TARGETSEARCH_RANDOM.
Proof.
  split.
  - split; [reflexivity|].
    exact (proj1 (proj1 (C1_onThinkTarget_strategy 1000 7 rangedReconsidering)
                    _ _ eq_refl)).
  - apply (proj2 (C1_onThinkTarget_strategy 1000 7 meleeReconsidering)).
    + reflexivity.
    + vm_compute. discriminate.
    + vm_compute. discriminate.
    + left. split; vm_compute; discriminate.
    + vm_compute. discriminate.
Defined.

(** C1, as stated, fails: a melee monster (target distance 1) whose governor
    fires asks for the random strategy, not the nearest one. *)
Lemma C1_counterexample :
  ~ (forall (interval rnd : Z) (m m' : TargetChange.Monster) (st : TargetSearchType_t),
        TargetChange.isSummon m = false ->
        mt_changeTargetSpeed (TargetChange.mType m) <> 0 ->
        TargetChange.onThinkTarget interval rnd m = (m', Some st) ->
        st = (if mt_targetDistance (TargetChange.mType m) <=? 1
              then TARGETSEARCH_NEAREST else TARGETSEARCH_DEFAULT)).
Proof.
  intros Hclaim.
  specialize (Hclaim 1000 7 meleeReconsidering
                (TargetChange.mkMonster meleeType None 0 2000 0)
                TARGETSEARCH_RANDOM eq_refl).
  assert (H : TARGETSEARCH_RANDOM = TARGETSEARCH_NEAREST).
  { apply Hclaim; [vm_compute; discriminate | reflexivity]. }
  discriminate H.
Qed.

(** ** Combat scheduler *)

Lemma canUseSpell_frame m now pos tp sb interval rt ok inRange rt' m' :
  Combat.canUseSpell m now pos tp sb interval rt = Some (ok, inRange, rt', m') ->
  Combat.attackTicks m' = Combat.attackTicks m
  /\ Combat.isFleeing m' = Combat.isFleeing m
  /\ Combat.position m' = Combat.position m
  /\ (rt' = true -> rt = true).
Proof.
  unfold Combat.canUseSpell.
  destruct (sb_isMelee sb && Combat.isFleeing m); [intros [= <- <- <- <-]; auto|].
  destruct (negb (Combat.extraMeleeAttack m) && sb_isMelee sb
            && (now - Combat.lastMeleeAttack m <? 1500));
    [intros [= <- <- <- <-]; auto|].
  destruct (Combat.extraMeleeAttack m);
    cbn [Combat.extraMeleeAttack Combat.set_lastMeleeAttack Combat.attackTicks];
    repeat match goal with
           | |- context [if ?c then _ else _] => destruct c
           end; intros [= <- <- <- <-] || discriminate; repeat split; auto; discriminate.
Qed.

(** An ability that is not melee always takes the period test: while its
    period exceeds the accumulator it is refused and clears [resetTicks]. *)
Lemma canUseSpell_pending m now pos tp sb interval rt :
  sb_isMelee sb = false ->
  Combat.attackTicks m < sb_speed sb ->
  exists m', Combat.canUseSpell m now pos tp sb interval rt = Some (false, true, false, m').
Proof.
  intros Hmelee Hlt. unfold Combat.canUseSpell.
  rewrite Hmelee, andb_false_r. simpl.
  destruct (Combat.extraMeleeAttack m);
    cbn [Combat.attackTicks Combat.set_lastMeleeAttack];
    (destruct (Z.gtb_spec (sb_speed sb) (Combat.attackTicks m)); [|lia]);
    eexists; reflexivity.
Qed.

(** A melee ability takes the period test when the monster does not flee, no
    extra swing is pending and the last extra-swing mark is 1.5 s old. *)
Lemma canUseSpell_pending_melee m now pos tp sb interval rt :
  Combat.isFleeing m = false ->
  Combat.extraMeleeAttack m = false ->
  1500 <= now - Combat.lastMeleeAttack m ->
  Combat.attackTicks m < sb_speed sb ->
  Combat.canUseSpell m now pos tp sb interval rt = Some (false, true, false, m).
Proof.
  intros Hflee Hextra Hgrace Hlt. unfold Combat.canUseSpell.
  rewrite Hflee, Hextra, andb_false_r.
  destruct (Z.ltb_spec (now - Combat.lastMeleeAttack m) 1500); [lia|].
  rewrite andb_false_r. cbv zeta. rewrite Hextra, orb_true_r.
  destruct (Z.gtb_spec (sb_speed sb) (Combat.attackTicks m)); [reflexivity|lia].
Qed.

(** The loop never touches the accumulator and never sets [resetTicks] back
    to true; a pending ability that is not melee clears it. *)
Lemma doAttacking_loop_frame clock roll interval target spells :
  forall i m ul rt log m' ul' rt' log',
    Combat.doAttacking_loop clock roll interval target spells i m ul rt log
    = Some (m', ul', rt', log') ->
    Combat.attackTicks m' = Combat.attackTicks m
    /\ (rt' = true ->
        rt = true
        /\ forall sb, sb ∈ spells -> sb_isMelee sb = false -> sb_spell sb <> None ->
                      sb_speed sb <= Combat.attackTicks m).
Proof.
  induction spells as [|sb rest IH]; intros i m ul rt log m' ul' rt' log' Hrun.
  - simpl in Hrun. injection Hrun as <- <- <- <-. split; [reflexivity|].
    intros ->. split; [reflexivity|]. intros sb Hin. inversion Hin.
  - simpl in Hrun.
    destruct (sb_spell sb) as [spell|] eqn:Hspell.
    2: { apply IH in Hrun as [Hticks Hrt]. split; [exact Hticks|].
         intros Hrt'. destruct (Hrt Hrt') as [-> Hall]. split; [reflexivity|].
         intros sb' Hin Hm Hs. apply elem_of_cons in Hin as [->|Hin]; [congruence|].
         apply Hall; assumption. }
    destruct (sb_isMelee sb && Combat.isFleeing m) eqn:Hskip.
    { apply IH in Hrun as [Hticks Hrt]. split; [exact Hticks|].
      intros Hrt'. destruct (Hrt Hrt') as [-> Hall]. split; [reflexivity|].
      intros sb' Hin Hm Hs. apply elem_of_cons in Hin as [->|Hin].
      - rewrite Hm in Hskip. discriminate.
      - apply Hall; assumption. }
    destruct (Combat.canUseSpell m (clock i) (Combat.position m) (c_position target)
                sb interval rt) as [[[[ok inRange] rt1] m1]|] eqn:Hcan; [|discriminate].
    pose proof (canUseSpell_frame _ _ _ _ _ _ _ _ _ _ _ Hcan) as (Ht1 & _ & _ & Hrt1).
    assert (Hgoal :
      forall mX, Combat.attackTicks mX = Combat.attackTicks m ->
        forall ulX logX,
        Combat.doAttacking_loop clock roll interval target rest (S i) mX ulX rt1 logX
        = Some (m', ul', rt', log') ->
        Combat.attackTicks m' = Combat.attackTicks m
        /\ (rt' = true ->
            rt = true
            /\ forall sb0, sb0 ∈ sb :: rest -> sb_isMelee sb0 = false ->
                           sb_spell sb0 <> None ->
                           sb_speed sb0 <= Combat.attackTicks m)).
    { intros mX HX ulX logX HrunX. apply IH in HrunX as [Hticks Hrt].
      split; [congruence|].
      intros Hrt'. destruct (Hrt Hrt') as [-> Hall]. split; [auto|].
      intros sb' Hin Hm Hs. apply elem_of_cons in Hin as [->|Hin].
      + destruct (Z.le_gt_cases (sb_speed sb) (Combat.attackTicks m)) as [|Hgt];
          [assumption|].
        destruct (canUseSpell_pending m (clock i) (Combat.position m) (c_position target)
                    sb interval rt Hm Hgt) as [m0 Hp].
        rewrite Hp in Hcan. discriminate.
      + specialize (Hall sb' Hin Hm Hs). lia. }
    destruct (ok && (sb_chance sb >=? to_uint32 (roll i))), ul, (sb_isMelee sb), inRange;
      cbn -[Combat.doAttacking_loop] in Hrun;
      (eapply Hgoal; [|exact Hrun]); cbn; exact Ht1.
Qed.

Lemma doAttacking_loop_total clock roll interval target spells :
  Forall (fun sb => sb_speed sb <> 0) spells ->
  forall i m ul rt log,
    is_Some (Combat.doAttacking_loop clock roll interval target spells i m ul rt log).
Proof.
  induction 1 as [|sb rest Hsb _ IH]; intros i m ul rt log; simpl; [eauto|].
  destruct (sb_spell sb); [|apply IH].
  destruct (sb_isMelee sb && Combat.isFleeing m); [apply IH|].
  assert (Hcan : is_Some (Combat.canUseSpell m (clock i) (Combat.position m)
                            (c_position target) sb interval rt)).
  { unfold Combat.canUseSpell.
    destruct (Z.eqb_spec (sb_speed sb) 0) as [|_]; [contradiction|].
    repeat match goal with
           | |- context [if ?c then _ else _] => destruct c
           end; eauto. }
  destruct Hcan as [[[[ok inRange] rt1] m1] ->].
  destruct (ok && (sb_chance sb >=? to_uint32 (roll i))), ul, (sb_isMelee sb), inRange;
    cbn -[Combat.doAttacking_loop]; apply IH.
Qed.

(** The log only grows. *)
Lemma doAttacking_loop_log clock roll interval target spells :
  forall i m ul rt log m' ul' rt' log',
    Combat.doAttacking_loop clock roll interval target spells i m ul rt log
    = Some (m', ul', rt', log') ->
    exists extra, log' = log ++ extra.
Proof.
  induction spells as [|sb rest IH]; intros i m ul rt log m' ul' rt' log' Hrun.
  - cbn in Hrun. injection Hrun as <- <- <- <-. exists []. rewrite app_nil_r. reflexivity.
  - cbn [Combat.doAttacking_loop] in Hrun.
    destruct (sb_spell sb) as [spell|]; [|eapply IH; eassumption].
    destruct (sb_isMelee sb && Combat.isFleeing m); [eapply IH; eassumption|].
    destruct (Combat.canUseSpell m (clock i) (Combat.position m) (c_position target)
                sb interval rt) as [[[[ok inRange] rt1] m1]|]; [|discriminate].
    destruct (ok && (sb_chance sb >=? to_uint32 (roll i))), ul, (sb_isMelee sb), inRange;
      cbn -[Combat.doAttacking_loop] in Hrun;
      apply IH in Hrun as [extra ->]; rewrite <- ?app_assoc; eauto.
Qed.

(** The loop over a list in two parts is the loop over the first part
    followed by the loop over the second, from where the first ended. *)
Lemma doAttacking_loop_app clock roll interval target (l1 l2 : list spellBlock_t) :
  forall i m ul rt log,
    Combat.doAttacking_loop clock roll interval target (l1 ++ l2) i m ul rt log
    = match Combat.doAttacking_loop clock roll interval target l1 i m ul rt log with
      | Some (m1, ul1, rt1, log1) =>
          Combat.doAttacking_loop clock roll interval target l2 (length l1 + i)%nat
            m1 ul1 rt1 log1
      | None => None
      end.
Proof.
  induction l1 as [|sb rest IH]; intros i m ul rt log; [reflexivity|].
  cbn [app length Combat.doAttacking_loop].
  replace (S (length rest) + i)%nat with (length rest + S i)%nat by lia.
  destruct (sb_spell sb); [|apply IH].
  destruct (sb_isMelee sb && Combat.isFleeing m); [apply IH|].
  destruct (Combat.canUseSpell m (clock i) (Combat.position m) (c_position target)
              sb interval rt) as [[[[ok inRange] rt1] m1]|]; [|reflexivity].
  destruct (ok && (sb_chance sb >=? to_uint32 (roll i))), ul, (sb_isMelee sb), inRange;
    cbn -[Combat.doAttacking_loop]; apply IH.
Qed.

(** One turn of the loop: what it does to resetTicks. *)
Lemma doAttacking_loop_turn clock roll interval target sb i m ul rt log :
  Combat.doAttacking_loop clock roll interval target [sb] i m ul rt log = None
  \/ exists m1 ul1 log1,
       Combat.doAttacking_loop clock roll interval target [sb] i m ul rt log
       = Some (m1, ul1,
               rt && negb (Combat.takesPeriodTest m (clock i) sb
                           && (sb_speed sb >? Combat.attackTicks m)),
               log1)
       /\ Combat.attackTicks m1 = Combat.attackTicks m
       /\ Combat.isFleeing m1 = Combat.isFleeing m
       /\ Combat.position m1 = Combat.position m
       /\ Combat.mType m1 = Combat.mType m
       /\ Combat.attackedCreature m1 = Combat.attackedCreature m
       /\ Combat.id m1 = Combat.id m
       /\ Combat.master m1 = Combat.master m.
Proof.
  cbn [Combat.doAttacking_loop]. unfold Combat.takesPeriodTest.
  destruct (sb_spell sb) as [spell|].
  2: { right. eexists _, _, _. rewrite andb_true_r. auto 10. }
  destruct (sb_isMelee sb && Combat.isFleeing m) eqn:Hskip.
  { right. eexists _, _, _. cbn. rewrite andb_true_r. auto 10. }
  unfold Combat.canUseSpell. rewrite Hskip. cbn [negb andb].
  destruct (negb (Combat.extraMeleeAttack m) && sb_isMelee sb
            && (clock i - Combat.lastMeleeAttack m <? 1500)) eqn:Hwindow.
  { right. cbn [negb andb]. rewrite andb_true_r.
    destruct (true && (sb_chance sb >=? to_uint32 (roll i))), ul, (sb_isMelee sb);
      cbn; eexists _, _, _; auto 10. }
  cbn [negb andb].
  destruct (Combat.extraMeleeAttack m) eqn:Hextra, (sb_isMelee sb) eqn:Hmelee;
    cbn [negb orb andb Combat.extraMeleeAttack Combat.set_lastMeleeAttack
         Combat.attackTicks];
    rewrite ?Hextra; cbn [negb orb andb].
  all: repeat match goal with
              | |- context [if ?c then _ else _] => destruct c eqn:?
              end;
    first [ left; reflexivity
          | right; eexists _, _, _;
            (split; [rewrite ?andb_true_r, ?andb_false_r; reflexivity|]); auto 10 ].
Qed.

(** resetTicks survives the loop exactly when it was set on entry and every
    ability that gets to the period test, in the state the loop reaches it
    in, has a period within the accumulator. *)
Lemma doAttacking_loop_reset clock roll interval target spells :
  forall i m ul rt log m' ul' rt' log',
    Combat.doAttacking_loop clock roll interval target spells i m ul rt log
    = Some (m', ul', rt', log') ->
    (rt' = true <->
     rt = true
     /\ forall before sb after mk ulk rtk logk,
          spells = before ++ sb :: after ->
          Combat.doAttacking_loop clock roll interval target before i m ul rt log
          = Some (mk, ulk, rtk, logk) ->
          Combat.takesPeriodTest mk (clock (length before + i)%nat) sb = true ->
          sb_speed sb <= Combat.attackTicks m).
Proof.
  induction spells as [|sb0 rest IH]; intros i m ul rt log m' ul' rt' log' Hrun.
  - cbn in Hrun. injection Hrun as <- <- <- <-. split.
    + intros ->. split; [reflexivity|].
      intros before sb after mk ulk rtk logk Hsplit. destruct before; discriminate Hsplit.
    + intros [-> _]. reflexivity.
  - change (sb0 :: rest) with ([sb0] ++ rest) in Hrun.
    rewrite doAttacking_loop_app in Hrun.
    destruct (doAttacking_loop_turn clock roll interval target sb0 i m ul rt log)
      as [Hnone|(m1 & ul1 & log1 & Hturn & Hticks & _)];
      [rewrite Hnone in Hrun; discriminate Hrun|].
    rewrite Hturn in Hrun. cbn [length Nat.add] in Hrun.
    specialize (IH _ _ _ _ _ _ _ _ _ Hrun). rewrite IH. clear IH Hrun.
    split.
    + intros [Hrt1 Hlater]. apply andb_prop in Hrt1 as [-> Hhere].
      split; [reflexivity|].
      intros before sb after mk ulk rtk logk Hsplit Hbefore Htakes.
      destruct before as [|sb1 before'].
      * cbn in Hsplit. injection Hsplit as <- <-.
        cbn in Hbefore. injection Hbefore as <- <- <- <-. cbn [length Nat.add] in Htakes.
        rewrite Htakes in Hhere. cbn in Hhere.
        apply negb_true_iff in Hhere. lia.
      * cbn in Hsplit. injection Hsplit as <- Hsplit.
        change (sb0 :: before') with ([sb0] ++ before') in Hbefore.
        rewrite doAttacking_loop_app, Hturn in Hbefore. cbn [length Nat.add] in Hbefore.
        rewrite <- Hticks.
        apply (Hlater before' sb after mk ulk rtk logk Hsplit Hbefore).
        replace (length before' + S i)%nat with (length (sb0 :: before') + i)%nat
          by (cbn [length]; lia).
        exact Htakes.
    + intros [-> Hall].
      assert (Hhere : negb (Combat.takesPeriodTest m (clock i) sb0
                            && (sb_speed sb0 >? Combat.attackTicks m)) = true).
      { destruct (Combat.takesPeriodTest m (clock i) sb0) eqn:Htakes; [|reflexivity].
        specialize (Hall [] sb0 rest m ul true log eq_refl eq_refl Htakes).
        cbn. apply negb_true_iff. lia. }
      rewrite Hhere. split; [reflexivity|].
      intros before sb after mk ulk rtk logk Hsplit Hbefore Htakes.
      rewrite Hticks.
      apply (Hall (sb0 :: before) sb after mk ulk rtk logk).
      * cbn. rewrite Hsplit. reflexivity.
      * change (sb0 :: before) with ([sb0] ++ before).
        rewrite doAttacking_loop_app, Hturn, Hhere. cbn [length Nat.add].
        exact Hbefore.
      * replace (length (sb0 :: before) + i)%nat with (length before + S i)%nat
          by (cbn [length]; lia).
        exact Htakes.
Qed.

(** What the loop never touches. *)
Lemma doAttacking_loop_stance clock roll interval target spells :
  forall i m ul rt log m' ul' rt' log',
    Combat.doAttacking_loop clock roll interval target spells i m ul rt log
    = Some (m', ul', rt', log') ->
    Combat.isFleeing m' = Combat.isFleeing m
    /\ Combat.position m' = Combat.position m
    /\ Combat.attackTicks m' = Combat.attackTicks m
    /\ Combat.mType m' = Combat.mType m
    /\ Combat.attackedCreature m' = Combat.attackedCreature m
    /\ Combat.id m' = Combat.id m
    /\ Combat.master m' = Combat.master m.
Proof.
  induction spells as [|sb rest IH]; intros i m ul rt log m' ul' rt' log' Hrun.
  - cbn in Hrun. injection Hrun as <- <- <- <-. auto 10.
  - change (sb :: rest) with ([sb] ++ rest) in Hrun.
    rewrite doAttacking_loop_app in Hrun.
    destruct (doAttacking_loop_turn clock roll interval target sb i m ul rt log)
      as [Hnone|(m1 & ul1 & log1 & Hturn & Hticks & Hflee & Hpos & Htype & Hatt & Hid
                 & Hmaster)];
      [rewrite Hnone in Hrun; discriminate Hrun|].
    rewrite Hturn in Hrun. apply IH in Hrun as (Hf & Hp & Ht & Hty & Ha & Hi & Hm).
    rewrite Hf, Hp, Ht, Hty, Ha, Hi, Hm. auto 10.
Qed.

(** An ability that is skipped before the period test whatever the state of
    the loop: it has no spell, or it is a melee ability of a fleeing
    monster. *)
Lemma takesPeriodTest_skipped (m : Combat.Monster) (now : Z) (sb : spellBlock_t) :
  sb_spell sb = None \/ (sb_isMelee sb = true /\ Combat.isFleeing m = true) ->
  Combat.takesPeriodTest m now sb = false.
Proof.
  unfold Combat.takesPeriodTest. intros [->|[-> ->]]; [reflexivity|].
  destruct (sb_spell sb); reflexivity.
Qed.

(** A melee ability with an extra swing pending, or inside the 1.5 s after
    the last extra-swing mark, does not get to the period test. *)
Lemma takesPeriodTest_melee_carved (m : Combat.Monster) (now : Z) (sb : spellBlock_t) :
  sb_isMelee sb = true ->
  Combat.extraMeleeAttack m = true \/ now - Combat.lastMeleeAttack m < 1500 ->
  Combat.takesPeriodTest m now sb = false.
Proof.
  unfold Combat.takesPeriodTest. intros -> Hcarved.
  destruct (sb_spell sb); [|reflexivity].
  destruct (Combat.extraMeleeAttack m); cbn; [apply andb_false_r|].
  destruct Hcarved as [Hextra|Hwindow]; [discriminate Hextra|].
  destruct (Z.ltb_spec (now - Combat.lastMeleeAttack m) 1500); [|lia].
  cbn. rewrite andb_false_r. reflexivity.
Qed.

(** A turn that gets to the period test with a period above the accumulator:
    canUseSpell refuses the ability and clears resetTicks, and the turn casts
    nothing. *)
Lemma doAttacking_turn_rejected clock roll interval target sb i m ul rt log :
  Combat.takesPeriodTest m (clock i) sb = true ->
  Combat.attackTicks m < sb_speed sb ->
  exists m',
    Combat.canUseSpell m (clock i) (Combat.position m) (c_position target) sb interval rt
    = Some (false, true, false, m')
    /\ Combat.doAttacking_loop clock roll interval target [sb] i m ul rt log
       = Some (m', ul, false, log).
Proof.
  unfold Combat.takesPeriodTest. cbn [Combat.doAttacking_loop].
  destruct (sb_spell sb) as [spell|]; [|discriminate].
  intros Htakes Hlt.
  apply andb_prop in Htakes as [Htakes Hperiod].
  apply andb_prop in Htakes as [Hskip Hwindow].
  apply negb_true_iff in Hskip, Hwindow.
  rewrite Hskip. unfold Combat.canUseSpell. rewrite Hskip, Hwindow.
  assert (Hextra : (if Combat.extraMeleeAttack m
                    then negb (sb_isMelee sb) else true) = true).
  { destruct (Combat.extraMeleeAttack m), (sb_isMelee sb); auto. }
  destruct (Combat.extraMeleeAttack m) eqn:He;
    cbn [Combat.extraMeleeAttack Combat.set_lastMeleeAttack Combat.attackTicks];
    rewrite ?He, ?Hextra; cbn [negb orb];
    rewrite ?orb_true_r;
    (destruct (Z.gtb_spec (sb_speed sb) (Combat.attackTicks m)) as [_|]; [|lia]);
    eexists; (split; [reflexivity|]);
    cbn -[Combat.doAttacking_loop]; rewrite ?andb_false_r; reflexivity.
Qed.

(** A turn that gets to the period test with the period elapsed and the
    remainder below the interval: canUseSpell answers by the range test, and
    the turn casts the ability exactly when it is in range and the chance
    roll passes. *)
Lemma doAttacking_turn_accepted clock roll interval target sb spell i m ul rt log :
  Combat.takesPeriodTest m (clock i) sb = true ->
  sb_spell sb = Some spell ->
  sb_speed sb <= Combat.attackTicks m ->
  sb_speed sb <> 0 ->
  Combat.attackTicks m mod sb_speed sb < interval ->
  exists m' m'',
    Combat.canUseSpell m (clock i) (Combat.position m) (c_position target) sb interval rt
    = Some (withinRange sb (Combat.position m) (c_position target),
            withinRange sb (Combat.position m) (c_position target), rt, m')
    /\ Combat.doAttacking_loop clock roll interval target [sb] i m ul rt log
       = Some (m'',
               ul && negb (withinRange sb (Combat.position m) (c_position target)
                           && (sb_chance sb >=? to_uint32 (roll i))),
               rt,
               log ++ (if withinRange sb (Combat.position m) (c_position target)
                          && (sb_chance sb >=? to_uint32 (roll i))
                       then (if ul then [Combat.EvLook] else [])
                            ++ [Combat.EvCast spell (c_id target)]
                       else [])).
Proof.
  unfold Combat.takesPeriodTest. cbn [Combat.doAttacking_loop].
  intros Htakes Hspell Hdue Hnonzero Hrem. rewrite Hspell in *.
  apply andb_prop in Htakes as [Htakes Hperiod].
  apply andb_prop in Htakes as [Hskip Hwindow].
  apply negb_true_iff in Hskip, Hwindow.
  rewrite Hskip. unfold Combat.canUseSpell. rewrite Hskip, Hwindow.
  set (far := Z.max (to_uint32 (getDistanceX (Combat.position m) (c_position target)))
                    (to_uint32 (getDistanceY (Combat.position m) (c_position target)))).
  assert (Hrange : negb (sb_range sb =? 0) && (far >? sb_range sb)
                   = negb (withinRange sb (Combat.position m) (c_position target))).
  { unfold withinRange. fold far.
    destruct (sb_range sb =? 0); [reflexivity|]. cbn.
    destruct (Z.gtb_spec far (sb_range sb)), (Z.leb_spec far (sb_range sb));
      reflexivity || lia. }
  assert (Hextra : (if Combat.extraMeleeAttack m
                    then negb (sb_isMelee sb) else true) = true).
  { destruct (Combat.extraMeleeAttack m), (sb_isMelee sb); auto. }
  destruct (Combat.extraMeleeAttack m) eqn:He;
    cbn [Combat.extraMeleeAttack Combat.set_lastMeleeAttack Combat.attackTicks
         Combat.position];
    rewrite ?He, ?Hextra; cbn [negb orb];
    rewrite ?orb_true_r;
    (destruct (Z.gtb_spec (sb_speed sb) (Combat.attackTicks m)) as [|_]; [lia|]);
    (destruct (Z.eqb_spec (sb_speed sb) 0) as [|_]; [contradiction|]);
    (destruct (Z.geb_spec (Combat.attackTicks m mod sb_speed sb) interval) as [|_];
       [lia|]);
    fold far; rewrite Hrange;
    destruct (withinRange sb (Combat.position m) (c_position target));
    cbn [negb andb];
    destruct (sb_chance sb >=? to_uint32 (roll i)), ul, (sb_isMelee sb);
    cbn -[Combat.doAttacking_loop]; rewrite ?app_nil_r, <- ?app_assoc;
    first [discriminate Hperiod | discriminate Hextra | eexists _, _; split; reflexivity].
Qed.

(** C3, as the code has it. With an attacked target and no zero period among
    the attack abilities, doAttacking ends, and leaves the accumulator either
    at its value after the interval was added or at zero.  It is left
    unreset when the interval is zero and when some ability that gets to the
    period test, in the state the loop reaches it in, has a period above the
    accumulator: so for every ability that is not melee and carries a spell,
    and for the ability heading the list when the monster does not flee, no
    extra swing is pending and the last extra-swing mark is 1.5 s old.  With
    a nonzero interval it is reset when every ability that gets to the period
    test has a period within the accumulator: an ability skipped before the
    test does not hold the reset back, be it one without a spell or a melee
    ability of a fleeing monster anywhere in the list, or a melee ability
    heading the list with an extra swing pending or inside the 1.5 s after
    the last extra-swing mark. *)
Theorem C3_attackTicks_reset :
  forall (clock roll : nat -> Z) (interval : Z) (m : Combat.Monster) (target : Creature),
    Combat.attackedCreature m = Some target ->
    Combat.isSummon m && (c_id target =? Combat.id m) = false ->
    Forall (fun sb => sb_speed sb <> 0) (mt_attackSpells (Combat.mType m)) ->
    exists m' log,
      Combat.doAttacking clock roll interval m = Some (m', log)
      /\ (Combat.attackTicks m' = to_uint32 (Combat.attackTicks m + interval)
          \/ Combat.attackTicks m' = 0)
      /\ (interval = 0 ->
          Combat.attackTicks m' = to_uint32 (Combat.attackTicks m + interval))
      /\ (forall sb,
             sb ∈ mt_attackSpells (Combat.mType m) ->
             sb_isMelee sb = false -> sb_spell sb <> None ->
             to_uint32 (Combat.attackTicks m + interval) < sb_speed sb ->
             Combat.attackTicks m' = to_uint32 (Combat.attackTicks m + interval))
      /\ (forall sb rest,
             mt_attackSpells (Combat.mType m) = sb :: rest ->
             sb_spell sb <> None ->
             Combat.isFleeing m = false ->
             Combat.extraMeleeAttack m = false ->
             1500 <= clock 0%nat - Combat.lastMeleeAttack m ->
             to_uint32 (Combat.attackTicks m + interval) < sb_speed sb ->
             Combat.attackTicks m' = to_uint32 (Combat.attackTicks m + interval))
      /\ (forall before sb after mk ulk rtk logk,
             mt_attackSpells (Combat.mType m) = before ++ sb :: after ->
             Combat.doAttacking_loop clock roll interval target before 0%nat
               (Combat.set_attackTicks (to_uint32 (Combat.attackTicks m + interval)) m)
               true (negb (interval =? 0)) []
             = Some (mk, ulk, rtk, logk) ->
             Combat.takesPeriodTest mk (clock (length before)) sb = true ->
             to_uint32 (Combat.attackTicks m + interval) < sb_speed sb ->
             Combat.attackTicks m' = to_uint32 (Combat.attackTicks m + interval))
      /\ (interval <> 0 ->
          (forall before sb after mk ulk rtk logk,
              mt_attackSpells (Combat.mType m) = before ++ sb :: after ->
              Combat.doAttacking_loop clock roll interval target before 0%nat
                (Combat.set_attackTicks (to_uint32 (Combat.attackTicks m + interval)) m)
                true (negb (interval =? 0)) []
              = Some (mk, ulk, rtk, logk) ->
              Combat.takesPeriodTest mk (clock (length before)) sb = true ->
              sb_speed sb <= to_uint32 (Combat.attackTicks m + interval)) ->
          Combat.attackTicks m' = 0)
      /\ (interval <> 0 ->
          (forall sb,
              sb ∈ mt_attackSpells (Combat.mType m) ->
              sb_spell sb = None
              \/ (sb_isMelee sb = true /\ Combat.isFleeing m = true)
              \/ sb_speed sb <= to_uint32 (Combat.attackTicks m + interval)) ->
          Combat.attackTicks m' = 0)
      /\ (forall sb rest,
             mt_attackSpells (Combat.mType m) = sb :: rest ->
             sb_isMelee sb = true ->
             Combat.extraMeleeAttack m = true
             \/ clock 0%nat - Combat.lastMeleeAttack m < 1500 ->
             interval <> 0 ->
             (forall sb',
                 sb' ∈ rest ->
                 sb_spell sb' = None
                 \/ (sb_isMelee sb' = true /\ Combat.isFleeing m = true)
                 \/ sb_speed sb' <= to_uint32 (Combat.attackTicks m + interval)) ->
             Combat.attackTicks m' = 0).
Proof.
  intros clock roll interval m target Hatt Hself Hspeeds.
  unfold Combat.doAttacking. rewrite Hatt, Hself. cbv zeta.
  set (acc := to_uint32 (Combat.attackTicks m + interval)).
  set (m0 := Combat.set_attackTicks acc m).
  change (Combat.mType m0) with (Combat.mType m).
  destruct (doAttacking_loop_total clock roll interval target
              (mt_attackSpells (Combat.mType m)) Hspeeds 0%nat m0 true
              (negb (interval =? 0)) []) as [[[[m1 ul] rt] log] Hloop].
  rewrite Hloop.
  pose proof (doAttacking_loop_frame _ _ _ _ _ _ _ _ _ _ _ _ _ _ Hloop) as [Hticks Hrt].
  pose proof (doAttacking_loop_reset _ _ _ _ _ _ _ _ _ _ _ _ _ _ Hloop) as Hreset.
  change (Combat.attackTicks m0) with acc in Hticks, Hrt, Hreset.
  assert (Hkept : rt = false ->
                  Combat.attackTicks (if rt then Combat.set_attackTicks 0 m1 else m1) = acc)
    by (intros ->; exact Hticks).
  assert (Hzero : rt = true ->
                  Combat.attackTicks (if rt then Combat.set_attackTicks 0 m1 else m1) = 0)
    by (intros ->; reflexivity).
  assert (Hheld : forall before sb after mk ulk rtk logk,
             mt_attackSpells (Combat.mType m) = before ++ sb :: after ->
             Combat.doAttacking_loop clock roll interval target before 0%nat m0
               true (negb (interval =? 0)) []
             = Some (mk, ulk, rtk, logk) ->
             Combat.takesPeriodTest mk (clock (length before)) sb = true ->
             acc < sb_speed sb ->
             rt = false).
  { intros before sb after mk ulk rtk logk Hsplit Hbefore Htakes Hlt.
    apply not_true_is_false. intros Hrt'.
    apply Hreset in Hrt' as [_ Hall].
    specialize (Hall before sb after mk ulk rtk logk Hsplit Hbefore).
    rewrite Nat.add_0_r in Hall. specialize (Hall Htakes). lia. }
  assert (Hcleared : interval <> 0 ->
             (forall before sb after mk ulk rtk logk,
                 mt_attackSpells (Combat.mType m) = before ++ sb :: after ->
                 Combat.doAttacking_loop clock roll interval target before 0%nat m0
                   true (negb (interval =? 0)) []
                 = Some (mk, ulk, rtk, logk) ->
                 Combat.takesPeriodTest mk (clock (length before)) sb = true ->
                 sb_speed sb <= acc) ->
             rt = true).
  { intros Hinterval Hall. apply Hreset. split.
    - apply negb_true_iff, Z.eqb_neq. exact Hinterval.
    - intros before sb after mk ulk rtk logk Hsplit Hbefore Htakes.
      rewrite Nat.add_0_r in Htakes. eapply Hall; eassumption. }
  eexists _, _. split; [reflexivity|].
  split; [destruct rt; [right; reflexivity | left; exact Hticks]|].
  split; [|split; [|split; [|split; [|split; [|split]]]]].
  - intros ->. apply Hkept. apply not_true_is_false. intros Hrt'.
    apply Hreset in Hrt' as [Hinit _]. discriminate Hinit.
  - intros sb Hin Hmelee Hspell Hlt. apply Hkept. apply not_true_is_false. intros Hrt'.
    destruct (Hrt Hrt') as [_ Hall]. specialize (Hall sb Hin Hmelee Hspell). lia.
  - intros sb rest Hspells Hspell Hflee Hextra Hgrace Hlt. apply Hkept.
    apply (Hheld [] sb rest m0 true (negb (interval =? 0)) [] Hspells eq_refl); [|exact Hlt].
    unfold Combat.takesPeriodTest.
    change (Combat.isFleeing m0) with (Combat.isFleeing m).
    change (Combat.extraMeleeAttack m0) with (Combat.extraMeleeAttack m).
    change (Combat.lastMeleeAttack m0) with (Combat.lastMeleeAttack m).
    rewrite Hflee, Hextra. cbn [length].
    destruct (sb_spell sb); [|congruence].
    destruct (Z.ltb_spec (clock 0%nat - Combat.lastMeleeAttack m) 1500); [lia|].
    rewrite !andb_false_r. cbn. apply orb_true_r.
  - intros before sb after mk ulk rtk logk Hsplit Hbefore Htakes Hlt.
    apply Hkept. eapply Hheld; eassumption.
  - intros Hinterval Hall. apply Hzero. apply Hcleared; assumption.
  - intros Hinterval Hall. apply Hzero. apply Hcleared; [exact Hinterval|].
    intros before sb after mk ulk rtk logk Hsplit Hbefore Htakes.
    destruct (Hall sb) as [Hnull|[Hskip|Hdue]]; [| | |exact Hdue].
    + rewrite Hsplit. apply elem_of_app. right. apply list_elem_of_here.
    + rewrite takesPeriodTest_skipped in Htakes by (left; exact Hnull).
      discriminate Htakes.
    + apply doAttacking_loop_stance in Hbefore as (Hflee & _).
      change (Combat.isFleeing m0) with (Combat.isFleeing m) in Hflee.
      rewrite takesPeriodTest_skipped in Htakes
        by (right; rewrite Hflee; exact Hskip).
      discriminate Htakes.
  - intros sb rest Hspells Hmelee Hcarved Hinterval Hall. apply Hzero.
    apply Hcleared; [exact Hinterval|].
    intros before sb' after mk ulk rtk logk Hsplit Hbefore Htakes.
    rewrite Hspells in Hsplit. destruct before as [|sb0 before'].
    + cbn in Hsplit. injection Hsplit as <- _.
      cbn in Hbefore. injection Hbefore as <- _ _ _.
      rewrite takesPeriodTest_melee_carved in Htakes; [discriminate Htakes|exact Hmelee|].
      exact Hcarved.
    + cbn in Hsplit. injection Hsplit as _ Hsplit.
      destruct (Hall sb') as [Hnull|[Hskip|Hdue]]; [| | |exact Hdue].
      * rewrite Hsplit. apply elem_of_app. right. apply list_elem_of_here.
      * rewrite takesPeriodTest_skipped in Htakes by (left; exact Hnull).
        discriminate Htakes.
      * apply doAttacking_loop_stance in Hbefore as (Hflee & _).
        change (Combat.isFleeing m0) with (Combat.isFleeing m) in Hflee.
        rewrite takesPeriodTest_skipped in Htakes
          by (right; rewrite Hflee; exact Hskip).
        discriminate Htakes.
Qed.

Lemma C3_witness :
  (exists m' log,
      Combat.doAttacking noon lowRoll 1000 shootingHunter = Some (m', log)
      /\ Combat.attackTicks m' = 1000)
  /\ (exists m' log,
         Combat.doAttacking noon lowRoll 1000 fleeingMelee = Some (m', log)
         /\ Combat.attackTicks m' = 0).
Proof.
  split.
  - destruct (C3_attackTicks_reset noon lowRoll 1000 shootingHunter
                (playerAt 10 (mkPosition 103 100 7)) eq_refl eq_refl)
      as (m' & log & Hrun & _ & _ & Hpending & _).
    + repeat constructor; discriminate.
    + exists m', log. split; [exact Hrun|].
      apply (Hpending boltSpell).
      * apply list_elem_of_here.
      * reflexivity.
      * discriminate.
      * vm_compute. reflexivity.
  - destruct (C3_attackTicks_reset noon lowRoll 1000 fleeingMelee
                (playerAt 10 (mkPosition 101 100 7)) eq_refl eq_refl)
      as (m' & log & Hrun & _ & _ & _ & _ & _ & _ & Hskipped & _).
    + repeat constructor; discriminate.
    + exists m', log. split; [exact Hrun|].
      apply Hskipped; [discriminate|].
      intros sb Hsb. apply list_elem_of_singleton in Hsb. subst sb.
      right. left. split; reflexivity.
Defined.

(** C3, as stated, fails: the melee ability of a fleeing monster is skipped
    before the period test, so its period of 2000 above the accumulator of
    1000 does not hold the reset back. *)
Lemma C3_counterexample :
  ~ (forall (clock roll : nat -> Z) (interval : Z) (m m' : Combat.Monster)
            (log : list Combat.Event) (target : Creature),
        Combat.attackedCreature m = Some target ->
        interval <> 0 ->
        Combat.doAttacking clock roll interval m = Some (m', log) ->
        (exists sb, sb ∈ mt_attackSpells (Combat.mType m)
                    /\ to_uint32 (Combat.attackTicks m + interval) < sb_speed sb) ->
        Combat.attackTicks m' = to_uint32 (Combat.attackTicks m + interval)).
Proof.
  intros Hclaim.
  specialize (Hclaim noon lowRoll 1000 fleeingMelee
                (Combat.set_attackTicks 0 fleeingMelee) [Combat.EvLook]
                (playerAt 10 (mkPosition 101 100 7)) eq_refl).
  assert (H : Combat.attackTicks (Combat.set_attackTicks 0 fleeingMelee)
              = to_uint32 (Combat.attackTicks fleeingMelee + 1000)).
  { apply Hclaim.
    - discriminate.
    - vm_compute. reflexivity.
    - exists meleeSpell. split; [apply list_elem_of_here | vm_compute; reflexivity]. }
  vm_compute in H. discriminate H.
Qed.

(** One tick of interval 10 on a single ability of period 20 whose
    accumulator starts at 0: the period test refuses it. *)
Lemma doAttacking_period20_first_tick clock roll m sb spell target :
  mt_attackSpells (Combat.mType m) = [sb] ->
  sb_speed sb = 20 ->
  sb_spell sb = Some spell ->
  Combat.attackedCreature m = Some target ->
  Combat.isSummon m && (c_id target =? Combat.id m) = false ->
  Combat.attackTicks m = 0 ->
  sb_isMelee sb && Combat.extraMeleeAttack m = false ->
  (sb_isMelee sb = true ->
   Combat.isFleeing m = false /\ 1500 <= clock 0%nat - Combat.lastMeleeAttack m) ->
  Combat.doAttacking clock roll 10 m
  = Some (if Combat.extraMeleeAttack m
          then Combat.set_lastMeleeAttack (clock 0%nat) (Combat.set_attackTicks 10 m)
          else Combat.set_attackTicks 10 m,
          [Combat.EvLook]).
Proof.
  intros Hspells Hspeed Hspell Hatt Hself Hticks Hcarve Hmelee.
  unfold Combat.doAttacking. rewrite Hatt, Hself. cbv zeta.
  cbn [Combat.mType Combat.set_attackTicks]. rewrite Hspells.
  cbn [Combat.doAttacking_loop]. rewrite Hspell, Hticks.
  change (to_uint32 (0 + 10)) with 10.
  unfold Combat.canUseSpell.
  cbn [Combat.isFleeing Combat.set_attackTicks Combat.extraMeleeAttack
       Combat.lastMeleeAttack Combat.attackTicks Combat.position].
  rewrite Hspeed.
  destruct (sb_isMelee sb) eqn:Hm.
  - destruct (Hmelee eq_refl) as (Hflee & Hg).
    simpl in Hcarve. rewrite Hflee, Hcarve.
    destruct (Z.ltb_spec (clock 0%nat - Combat.lastMeleeAttack m) 1500); [lia|].
    cbn. rewrite Hcarve. reflexivity.
  - destruct (Combat.extraMeleeAttack m); reflexivity.
Qed.

(** The next tick, entered with the accumulator at 10: the period test lets
    the ability through, and it is cast exactly when it is in range and the
    roll passes. *)
Lemma doAttacking_period20_second_tick clock roll m sb spell target :
  mt_attackSpells (Combat.mType m) = [sb] ->
  sb_speed sb = 20 ->
  sb_spell sb = Some spell ->
  Combat.attackedCreature m = Some target ->
  Combat.isSummon m && (c_id target =? Combat.id m) = false ->
  Combat.attackTicks m = 10 ->
  (sb_isMelee sb = true ->
   Combat.isFleeing m = false
   /\ (Combat.extraMeleeAttack m = false ->
       1500 <= clock 0%nat - Combat.lastMeleeAttack m)) ->
  exists m2,
    Combat.doAttacking clock roll 10 m
    = Some (m2,
            if ((sb_range sb =? 0)
                || (Z.max (to_uint32 (getDistanceX (Combat.position m) (c_position target)))
                          (to_uint32 (getDistanceY (Combat.position m) (c_position target)))
                    <=? sb_range sb))
               && (sb_chance sb >=? to_uint32 (roll 0%nat))
            then [Combat.EvLook; Combat.EvCast spell (c_id target)]
            else [Combat.EvLook])
    /\ Combat.attackTicks m2 = 0.
Proof.
  intros Hspells Hspeed Hspell Hatt Hself Hticks Hmelee.
  unfold Combat.doAttacking. rewrite Hatt, Hself. cbv zeta.
  cbn [Combat.mType Combat.set_attackTicks]. rewrite Hspells.
  cbn [Combat.doAttacking_loop]. rewrite Hspell, Hticks.
  change (to_uint32 (10 + 10)) with 20.
  unfold Combat.canUseSpell.
  cbn [Combat.isFleeing Combat.set_attackTicks Combat.extraMeleeAttack
       Combat.lastMeleeAttack Combat.attackTicks Combat.position].
  rewrite Hspeed.
  set (far := Z.max (to_uint32 (getDistanceX (Combat.position m) (c_position target)))
                    (to_uint32 (getDistanceY (Combat.position m) (c_position target)))).
  assert (Hfar : (far >? sb_range sb) = negb (far <=? sb_range sb)).
  { destruct (Z.gtb_spec far (sb_range sb)), (Z.leb_spec far (sb_range sb));
      reflexivity || lia. }
  rewrite Hfar.
  destruct (sb_isMelee sb) eqn:Hm.
  - destruct (Hmelee eq_refl) as (Hflee & Hg). rewrite Hflee.
    destruct (Combat.extraMeleeAttack m) eqn:Hextra; cbn; rewrite ?Hextra; cbn.
    + destruct (sb_range sb =? 0), (far <=? sb_range sb),
        (sb_chance sb >=? to_uint32 (roll 0%nat)); cbn; eexists; split; reflexivity.
    + destruct (Z.ltb_spec (clock 0%nat - Combat.lastMeleeAttack m) 1500);
        [specialize (Hg eq_refl); lia|].
      cbn. rewrite ?Hextra. cbn.
      destruct (sb_range sb =? 0), (far <=? sb_range sb),
        (sb_chance sb >=? to_uint32 (roll 0%nat)); cbn; eexists; split; reflexivity.
  - destruct (Combat.extraMeleeAttack m); cbn;
      destruct (sb_range sb =? 0), (far <=? sb_range sb),
        (sb_chance sb >=? to_uint32 (roll 0%nat)); cbn; eexists; split; reflexivity.
Qed.

(** The case of a monster with a single attack ability of period 20, with
    no extra melee swing pending, ticked twice with interval 10 from an
    accumulator of 0: the first tick casts nothing, the second casts the
    ability exactly when it is in range and the roll passes, and resets the
    accumulator. *)
Lemma doAttacking_period20_single :
  forall (clock1 roll1 clock2 roll2 : nat -> Z) (m : Combat.Monster)
         (sb : spellBlock_t) (spell : Z) (target : Creature),
    mt_attackSpells (Combat.mType m) = [sb] ->
    sb_speed sb = 20 ->
    sb_spell sb = Some spell ->
    Combat.attackedCreature m = Some target ->
    Combat.isSummon m && (c_id target =? Combat.id m) = false ->
    Combat.attackTicks m = 0 ->
    sb_isMelee sb && Combat.extraMeleeAttack m = false ->
    (sb_isMelee sb = true ->
     Combat.isFleeing m = false
     /\ 1500 <= clock1 0%nat - Combat.lastMeleeAttack m
     /\ 1500 <= clock2 0%nat - Combat.lastMeleeAttack m) ->
    exists m1 m2,
      Combat.doAttacking clock1 roll1 10 m = Some (m1, [Combat.EvLook])
      /\ Combat.attackTicks m1 = 10
      /\ Combat.doAttacking clock2 roll2 10 m1
         = Some (m2,
                 if ((sb_range sb =? 0)
                     || (Z.max (to_uint32 (getDistanceX (Combat.position m)
                                             (c_position target)))
                               (to_uint32 (getDistanceY (Combat.position m)
                                             (c_position target)))
                         <=? sb_range sb))
                    && (sb_chance sb >=? to_uint32 (roll2 0%nat))
                 then [Combat.EvLook; Combat.EvCast spell (c_id target)]
                 else [Combat.EvLook])
      /\ Combat.attackTicks m2 = 0.
Proof.
  intros clock1 roll1 clock2 roll2 m sb spell target Hspells Hspeed Hspell Hatt Hself
         Hticks Hcarve Hmelee.
  assert (Hm1 : sb_isMelee sb = true ->
                Combat.isFleeing m = false
                /\ 1500 <= clock1 0%nat - Combat.lastMeleeAttack m)
    by (intros Hm; destruct (Hmelee Hm) as (? & ? & ?); auto).
  pose proof (doAttacking_period20_first_tick clock1 roll1 m sb spell target
                Hspells Hspeed Hspell Hatt Hself Hticks Hcarve Hm1) as Hfirst.
  destruct (Combat.extraMeleeAttack m) eqn:Hextra.
  - (* an extra swing is pending, so the ability is not melee *)
    rewrite andb_true_r in Hcarve.
    destruct (doAttacking_period20_second_tick clock2 roll2
                (Combat.set_lastMeleeAttack (clock1 0%nat) (Combat.set_attackTicks 10 m))
                sb spell target Hspells Hspeed Hspell Hatt Hself eq_refl)
      as (m2 & Hsecond & Hreset); [congruence|].
    eexists _, m2. split; [exact Hfirst|]. split; [reflexivity|].
    split; [exact Hsecond | exact Hreset].
  - destruct (doAttacking_period20_second_tick clock2 roll2
                (Combat.set_attackTicks 10 m)
                sb spell target Hspells Hspeed Hspell Hatt Hself eq_refl)
      as (m2 & Hsecond & Hreset).
    { intros Hm. destruct (Hmelee Hm) as (Hflee & _ & Hg2). split; [exact Hflee|].
      intros _. exact Hg2. }
    eexists _, m2. split; [exact Hfirst|]. split; [reflexivity|].
    split; [exact Hsecond | exact Hreset].
Qed.

(** C4, as the code has it. An attack ability of period 20 that carries a
    spell, anywhere in a list of attack abilities with nonzero periods, ticked
    twice with interval 10 from an accumulator of 0.  The states named are
    those the loop is in when the ability's turn comes, on the first and on
    the second tick.  When the ability gets to the period test on the first
    tick, canUseSpell refuses it, its turn casts nothing and the accumulator
    stays at 10.  When the accumulator is at 10 and the ability gets to the
    period test on the second tick, canUseSpell answers by the range test
    alone (range 0, or Chebyshev distance within range), and its turn casts
    the ability exactly when it is in range and its chance is at least the
    roll.  An ability that is not melee always gets to the period test; a
    melee ability does when the monster does not flee, no extra swing is
    pending and the last extra-swing mark is 1.5 s old.  For a monster with
    this single ability nothing at all is cast on the first tick and the
    accumulator is reset after the second. *)
Theorem C4_period20_interval10 :
  forall (clock1 roll1 clock2 roll2 : nat -> Z) (m : Combat.Monster)
         (before : list spellBlock_t) (sb : spellBlock_t) (after : list spellBlock_t)
         (spell : Z) (target : Creature),
    mt_attackSpells (Combat.mType m) = before ++ sb :: after ->
    Forall (fun sb0 => sb_speed sb0 <> 0) (mt_attackSpells (Combat.mType m)) ->
    sb_speed sb = 20 ->
    sb_spell sb = Some spell ->
    Combat.attackedCreature m = Some target ->
    Combat.isSummon m && (c_id target =? Combat.id m) = false ->
    Combat.attackTicks m = 0 ->
    exists m1 log1 m2 log2 mk1 ulk1 rtk1 logk1 mk2 ulk2 rtk2 logk2,
      Combat.doAttacking clock1 roll1 10 m = Some (m1, log1)
      /\ Combat.doAttacking clock2 roll2 10 m1 = Some (m2, log2)
      /\ Combat.doAttacking_loop clock1 roll1 10 target before 0%nat
           (Combat.set_attackTicks 10 m) true true []
         = Some (mk1, ulk1, rtk1, logk1)
      /\ Combat.doAttacking_loop clock2 roll2 10 target before 0%nat
           (Combat.set_attackTicks (to_uint32 (Combat.attackTicks m1 + 10)) m1) true true []
         = Some (mk2, ulk2, rtk2, logk2)
      /\ (Combat.takesPeriodTest mk1 (clock1 (length before)) sb = true ->
          (exists mk',
              Combat.canUseSpell mk1 (clock1 (length before)) (Combat.position m)
                (c_position target) sb 10 rtk1
              = Some (false, true, false, mk')
              /\ Combat.doAttacking_loop clock1 roll1 10 target (before ++ [sb]) 0%nat
                   (Combat.set_attackTicks 10 m) true true []
                 = Some (mk', ulk1, false, logk1))
          /\ Combat.attackTicks m1 = 10)
      /\ (Combat.attackTicks m1 = 10 ->
          Combat.takesPeriodTest mk2 (clock2 (length before)) sb = true ->
          let inRange := withinRange sb (Combat.position m) (c_position target) in
          let cast := inRange && (sb_chance sb >=? to_uint32 (roll2 (length before))) in
          let turnLog :=
            logk2 ++ (if cast
                      then (if ulk2 then [Combat.EvLook] else [])
                           ++ [Combat.EvCast spell (c_id target)]
                      else []) in
          (exists mk',
              Combat.canUseSpell mk2 (clock2 (length before)) (Combat.position m)
                (c_position target) sb 10 rtk2
              = Some (inRange, inRange, rtk2, mk'))
          /\ (exists mk'',
                 Combat.doAttacking_loop clock2 roll2 10 target (before ++ [sb]) 0%nat
                   (Combat.set_attackTicks (to_uint32 (Combat.attackTicks m1 + 10)) m1)
                   true true []
                 = Some (mk'', ulk2 && negb cast, rtk2, turnLog))
          /\ (exists later, log2 = turnLog ++ later))
      /\ (forall mk now,
             Combat.takesPeriodTest mk now sb = true <->
             sb_isMelee sb = false
             \/ (Combat.isFleeing mk = false
                 /\ Combat.extraMeleeAttack mk = false
                 /\ 1500 <= now - Combat.lastMeleeAttack mk))
      /\ (before = [] -> after = [] ->
          sb_isMelee sb && Combat.extraMeleeAttack m = false ->
          (sb_isMelee sb = true ->
           Combat.isFleeing m = false
           /\ 1500 <= clock1 0%nat - Combat.lastMeleeAttack m
           /\ 1500 <= clock2 0%nat - Combat.lastMeleeAttack m) ->
          log1 = [Combat.EvLook]
          /\ Combat.attackTicks m1 = 10
          /\ log2 = (if withinRange sb (Combat.position m) (c_position target)
                        && (sb_chance sb >=? to_uint32 (roll2 0%nat))
                     then [Combat.EvLook; Combat.EvCast spell (c_id target)]
                     else [Combat.EvLook])
          /\ Combat.attackTicks m2 = 0).
Proof.
  intros clock1 roll1 clock2 roll2 m before sb after spell target Hspells Hspeeds Hspeed
         Hspell Hatt Hself Hticks.
  assert (Hbefore : Forall (fun sb0 => sb_speed sb0 <> 0) before).
  { rewrite Hspells in Hspeeds. apply Forall_app in Hspeeds as [H _]. exact H. }
  (* the first tick *)
  set (m0 := Combat.set_attackTicks 10 m).
  destruct (doAttacking_loop_total clock1 roll1 10 target _ Hspeeds 0%nat m0 true true [])
    as [[[[mF1 ulF1] rtF1] logF1] Hloop1].
  destruct (doAttacking_loop_total clock1 roll1 10 target _ Hbefore 0%nat m0 true true [])
    as [[[[mk1 ulk1] rtk1] logk1] Hpre1].
  pose proof (doAttacking_loop_stance _ _ _ _ _ _ _ _ _ _ _ _ _ _ Hloop1)
    as (HfF1 & HpF1 & HtF1 & HtyF1 & HaF1 & HiF1 & HmF1).
  pose proof (doAttacking_loop_stance _ _ _ _ _ _ _ _ _ _ _ _ _ _ Hpre1)
    as (Hfk1 & Hpk1 & Htk1 & _).
  change (Combat.attackTicks m0) with 10 in HtF1, Htk1.
  change (Combat.position m0) with (Combat.position m) in HpF1, Hpk1.
  change (Combat.mType m0) with (Combat.mType m) in HtyF1.
  change (Combat.attackedCreature m0) with (Combat.attackedCreature m) in HaF1.
  change (Combat.id m0) with (Combat.id m) in HiF1.
  change (Combat.master m0) with (Combat.master m) in HmF1.
  set (m1 := if rtF1 then Combat.set_attackTicks 0 mF1 else mF1).
  set (log1 := if ulF1 then logF1 ++ [Combat.EvLook] else logF1).
  assert (Hrun1 : Combat.doAttacking clock1 roll1 10 m = Some (m1, log1)).
  { unfold Combat.doAttacking. rewrite Hatt, Hself, Hticks. cbv zeta.
    change (to_uint32 (0 + 10)) with 10. change (negb (10 =? 0)) with true.
    fold m0. change (Combat.mType m0) with (Combat.mType m). rewrite Hloop1. reflexivity. }
  assert (Hty1 : Combat.mType m1 = Combat.mType m)
    by (subst m1; destruct rtF1; exact HtyF1).
  assert (Ha1 : Combat.attackedCreature m1 = Some target)
    by (subst m1; destruct rtF1; cbn; rewrite HaF1; exact Hatt).
  assert (Hp1 : Combat.position m1 = Combat.position m)
    by (subst m1; destruct rtF1; exact HpF1).
  assert (Hself1 : Combat.isSummon m1 && (c_id target =? Combat.id m1) = false).
  { unfold Combat.isSummon in *.
    replace (Combat.master m1) with (Combat.master m)
      by (subst m1; destruct rtF1; symmetry; exact HmF1).
    replace (Combat.id m1) with (Combat.id m)
      by (subst m1; destruct rtF1; symmetry; exact HiF1).
    exact Hself. }
  (* the second tick *)
  set (acc2 := to_uint32 (Combat.attackTicks m1 + 10)).
  set (n0 := Combat.set_attackTicks acc2 m1).
  assert (Hspeeds1 : Forall (fun sb0 => sb_speed sb0 <> 0) (mt_attackSpells (Combat.mType m1)))
    by (rewrite Hty1; exact Hspeeds).
  destruct (doAttacking_loop_total clock2 roll2 10 target _ Hspeeds1 0%nat n0 true true [])
    as [[[[mF2 ulF2] rtF2] logF2] Hloop2].
  destruct (doAttacking_loop_total clock2 roll2 10 target _ Hbefore 0%nat n0 true true [])
    as [[[[mk2 ulk2] rtk2] logk2] Hpre2].
  pose proof (doAttacking_loop_stance _ _ _ _ _ _ _ _ _ _ _ _ _ _ Hpre2)
    as (Hfk2 & Hpk2 & Htk2 & _).
  change (Combat.attackTicks n0) with acc2 in Htk2.
  change (Combat.position n0) with (Combat.position m1) in Hpk2.
  rewrite Hp1 in Hpk2.
  set (m2 := if rtF2 then Combat.set_attackTicks 0 mF2 else mF2).
  set (log2 := if ulF2 then logF2 ++ [Combat.EvLook] else logF2).
  assert (Hrun2 : Combat.doAttacking clock2 roll2 10 m1 = Some (m2, log2)).
  { unfold Combat.doAttacking. rewrite Ha1, Hself1. cbv zeta.
    change (negb (10 =? 0)) with true. fold acc2. fold n0.
    change (Combat.mType n0) with (Combat.mType m1). rewrite Hloop2. reflexivity. }
  exists m1, log1, m2, log2, mk1, ulk1, rtk1, logk1, mk2, ulk2, rtk2, logk2.
  split; [exact Hrun1|]. split; [exact Hrun2|]. split; [exact Hpre1|].
  split; [exact Hpre2|]. split; [|split; [|split]].
  - (* the first tick: the period test rejects the ability *)
    intros Htakes.
    destruct (doAttacking_turn_rejected clock1 roll1 10 target sb (length before + 0)%nat
                mk1 ulk1 rtk1 logk1) as (mk' & Hcan & Hturn).
    { rewrite Nat.add_0_r. exact Htakes. }
    { rewrite Htk1, Hspeed. lia. }
    rewrite Nat.add_0_r, Hpk1 in Hcan. split.
    + exists mk'. split; [exact Hcan|].
      rewrite doAttacking_loop_app. fold m0. rewrite Hpre1. exact Hturn.
    + assert (HrtF1 : rtF1 = false).
      { apply not_true_is_false. intros Hset.
        apply (doAttacking_loop_reset _ _ _ _ _ _ _ _ _ _ _ _ _ _ Hloop1) in Hset
          as [_ Hall].
        specialize (Hall before sb after mk1 ulk1 rtk1 logk1 Hspells Hpre1).
        rewrite Nat.add_0_r in Hall. specialize (Hall Htakes).
        change (Combat.attackTicks m0) with 10 in Hall. lia. }
      subst m1. rewrite HrtF1. exact HtF1.
  - (* the second tick: the period test accepts it *)
    intros Hticks1 Htakes. cbv zeta. fold acc2. fold n0.
    assert (Hacc2 : acc2 = 20) by (subst acc2; rewrite Hticks1; reflexivity).
    destruct (doAttacking_turn_accepted clock2 roll2 10 target sb spell
                (length before + 0)%nat mk2 ulk2 rtk2 logk2) as (mk' & mk'' & Hcan & Hturn).
    { rewrite Nat.add_0_r. exact Htakes. }
    { exact Hspell. }
    { rewrite Htk2, Hacc2, Hspeed. lia. }
    { rewrite Hspeed. discriminate. }
    { rewrite Htk2, Hacc2, Hspeed. reflexivity. }
    rewrite Nat.add_0_r, Hpk2 in Hcan, Hturn.
    assert (Hupto : Combat.doAttacking_loop clock2 roll2 10 target (before ++ [sb]) 0%nat
                      n0 true true []
                    = Combat.doAttacking_loop clock2 roll2 10 target [sb]
                        (length before + 0)%nat mk2 ulk2 rtk2 logk2)
      by (rewrite doAttacking_loop_app, Hpre2; reflexivity).
    split; [exists mk'; exact Hcan|]. split.
    + exists mk''. rewrite Hupto, Nat.add_0_r. exact Hturn.
    + rewrite Hty1, Hspells in Hloop2.
      change (before ++ sb :: after) with (before ++ [sb] ++ after) in Hloop2.
      rewrite app_assoc, doAttacking_loop_app, Hupto, Nat.add_0_r, Hturn in Hloop2.
      apply doAttacking_loop_log in Hloop2 as [extra ->].
      subst log2. destruct ulF2; [rewrite <- app_assoc|]; eauto.
  - (* which abilities get to the period test *)
    intros mk now. unfold Combat.takesPeriodTest. rewrite Hspell.
    destruct (sb_isMelee sb), (Combat.isFleeing mk), (Combat.extraMeleeAttack mk);
      cbn; (split; [intros Hyes|intros [Hno|(Hf & He & Hw)]]);
      try discriminate; auto.
    + right. repeat split; try reflexivity.
      destruct (Z.ltb_spec (now - Combat.lastMeleeAttack mk) 1500); [discriminate|lia].
    + destruct (Z.ltb_spec (now - Combat.lastMeleeAttack mk) 1500); [lia|reflexivity].
  - (* the single-ability case *)
    intros -> -> Hcarve Hmelee. cbn [app] in Hspells.
    destruct (doAttacking_period20_single clock1 roll1 clock2 roll2 m sb spell target
                Hspells Hspeed Hspell Hatt Hself Hticks Hcarve Hmelee)
      as (m1' & m2' & Hfirst & Hticks1 & Hsecond & Hreset).
    rewrite Hrun1 in Hfirst. injection Hfirst as <- Hlog1.
    rewrite Hrun2 in Hsecond. injection Hsecond as <- Hlog2.
    unfold withinRange. auto.
Qed.

Lemma C4_witness :
  exists m1 log1 m2 log2,
    Combat.doAttacking noon lowRoll 10 skirmisher = Some (m1, log1)
    /\ Combat.attackTicks m1 = 10
    /\ Combat.doAttacking noon lowRoll 10 m1 = Some (m2, log2)
    /\ exists later, log2 = [Combat.EvLook; Combat.EvCast 3 10] ++ later.
Proof.
  destruct (C4_period20_interval10 noon lowRoll noon lowRoll skirmisher [jab20] dart20 []
              3 (playerAt 10 (mkPosition 103 100 7)) eq_refl)
    as (m1 & log1 & m2 & log2 & mk1 & ulk1 & rtk1 & logk1 & mk2 & ulk2 & rtk2 & logk2
        & Hrun1 & Hrun2 & Hpre1 & Hpre2 & Hfirst & Hsecond & Htakes & _);
    try reflexivity.
  { repeat constructor; discriminate. }
  assert (Hdart : forall mk now, Combat.takesPeriodTest mk now dart20 = true)
    by (intros mk now; apply Htakes; left; reflexivity).
  destruct (Hfirst (Hdart _ _)) as [_ Hticks1].
  destruct (Hsecond Hticks1 (Hdart _ _)) as (_ & _ & later & Hlog2).
  exists m1, log1, m2, log2. split; [exact Hrun1|]. split; [exact Hticks1|].
  split; [exact Hrun2|]. exists later. rewrite Hlog2.
  vm_compute in Hrun1. injection Hrun1 as <- <-.
  vm_compute in Hpre2. injection Hpre2 as <- <- <- <-.
  reflexivity.
Defined.

(** The state of [brawlerSwingPending] is met in play: two ticks against a
    target out of reach leave the accumulator at 0 with an extra swing
    pending. *)
Example brawler_swing_pending_arises :
  exists m1,
    Combat.doAttacking noon lowRoll 10 brawlerFar = Some (m1, [Combat.EvLook])
    /\ Combat.doAttacking noon lowRoll 10 m1
       = Some (Combat.set_extraMeleeAttack true brawlerFar, [Combat.EvLook]).
Proof.
  exists (Combat.set_attackTicks 10 brawlerFar).
  split; vm_compute; reflexivity.
Qed.

(** C4, as stated, fails: with an extra melee swing pending the period test
    is skipped, and a melee ability of period 20 is cast on the first tick,
    at an accumulator of 10. *)
Lemma C4_counterexample :
  ~ (forall (clock roll : nat -> Z) (m m1 : Combat.Monster) (log : list Combat.Event)
            (sb : spellBlock_t) (spell : Z) (target : Creature),
        sb ∈ mt_attackSpells (Combat.mType m) ->
        sb_speed sb = 20 ->
        sb_spell sb = Some spell ->
        Combat.attackedCreature m = Some target ->
        Combat.attackTicks m = 0 ->
        Combat.doAttacking clock roll 10 m = Some (m1, log) ->
        Combat.EvCast spell (c_id target) ∉ log).
Proof.
  intros Hclaim.
  apply (Hclaim noon lowRoll brawlerSwingPending
           (Combat.mkMonster 503 jabType None (mkPosition 100 100 7) false true
              (Some (playerAt 10 (mkPosition 101 100 7))) [] 0 0 false
              1700000000000 0 (-20))
           [Combat.EvLook; Combat.EvCast 4 10] jab20 4
           (playerAt 10 (mkPosition 101 100 7))).
  - apply list_elem_of_here.
  - reflexivity.
  - reflexivity.
  - reflexivity.
  - reflexivity.
  - vm_compute. reflexivity.
  - apply list_elem_of_further, list_elem_of_here.
Qed.

(** *** Summons *)

Lemma summonCount_app name l x :
  Combat.summonCount name (l ++ [x])
  = Combat.summonCount name l
    + match x with
      | Some c => if String.eqb (c_name c) name then 1 else 0
      | None => 0
      end.
Proof.
  induction l as [|y l IH]; simpl; [lia|]. rewrite IH. lia.
Qed.

Lemma summonCount_bounds name l :
  0 <= Combat.summonCount name l <= Z.of_nat (length l).
Proof.
  induction l as [|[c|] l IH]; simpl length; simpl Combat.summonCount;
    try destruct (String.eqb (c_name c) name); lia.
Qed.

Lemma NoDup_fmap_inj {A B} (f : A -> B) (l : list A) x y :
  NoDup (f <$> l) -> x ∈ l -> y ∈ l -> f x = f y -> x = y.
Proof.
  induction l as [|a l IH]; intros Hnd Hx Hy Hxy; [inversion Hx|].
  rewrite fmap_cons in Hnd. apply NoDup_cons in Hnd as [Hnotin Hnd].
  apply elem_of_cons in Hx as [->|Hx]; apply elem_of_cons in Hy as [->|Hy].
  - reflexivity.
  - exfalso. apply Hnotin. rewrite Hxy. apply list_elem_of_fmap_2. exact Hy.
  - exfalso. apply Hnotin. rewrite <- Hxy. apply list_elem_of_fmap_2. exact Hx.
  - apply IH; assumption.
Qed.

(** The defense abilities leave the summons, the template and the follow
    state alone. *)
Lemma onThinkDefense_spells_frame roll interval spells :
  forall i m rt log m' rt' log',
    Combat.onThinkDefense_spells roll interval spells i m rt log = Some (m', rt', log') ->
    Combat.m_summons m' = Combat.m_summons m
    /\ Combat.mType m' = Combat.mType m
    /\ Combat.hasFollowPath m' = Combat.hasFollowPath m
    /\ Combat.master m' = Combat.master m
    /\ Combat.defenseTicks m' = Combat.defenseTicks m.
Proof.
  induction spells as [|sb rest IH]; intros i m rt log m' rt' log' Hrun; simpl in Hrun.
  - injection Hrun as <- _ _. auto.
  - destruct (sb_speed sb >? Combat.defenseTicks m); [eapply IH; exact Hrun|].
    destruct (sb_spell sb); [|eapply IH; exact Hrun].
    destruct (sb_speed sb =? 0); [discriminate|].
    destruct (Combat.defenseTicks m mod sb_speed sb >=? interval);
      [eapply IH; exact Hrun|].
    destruct (sb_chance sb >=? to_uint32 (roll i)); [|eapply IH; exact Hrun].
    apply IH in Hrun. exact Hrun.
Qed.

Lemma onThinkDefense_spells_total roll interval spells :
  Forall (fun sb => sb_speed sb <> 0) spells ->
  forall i m rt log,
    is_Some (Combat.onThinkDefense_spells roll interval spells i m rt log).
Proof.
  induction 1 as [|sb rest Hsb _ IH]; intros i m rt log; simpl; [eauto|].
  destruct (sb_speed sb >? Combat.defenseTicks m); [apply IH|].
  destruct (sb_spell sb); [|apply IH].
  destruct (Z.eqb_spec (sb_speed sb) 0); [contradiction|].
  destruct (Combat.defenseTicks m mod sb_speed sb >=? interval); [apply IH|].
  destruct (sb_chance sb >=? to_uint32 (roll i)); apply IH.
Qed.

Lemma onThinkDefense_summons_total w roll interval blocks :
  Forall (fun su => su_speed su <> 0) blocks ->
  forall i m rt log,
    is_Some (Combat.onThinkDefense_summons w roll interval blocks i m rt log).
Proof.
  induction 1 as [|su rest Hsu _ IH]; intros i m rt log; simpl; [eauto|].
  destruct (su_speed su >? Combat.defenseTicks m); [apply IH|].
  destruct (Z.of_nat (length (Combat.m_summons m)) >=? mt_maxSummons (Combat.mType m));
    [apply IH|].
  destruct (Z.eqb_spec (su_speed su) 0); [contradiction|].
  destruct (Combat.defenseTicks m mod su_speed su >=? interval); [apply IH|].
  destruct (Combat.summonCount (su_name su) (Combat.m_summons m) >=? su_count su);
    [apply IH|].
  destruct (su_chance su <? to_uint32 (roll i)); [apply IH|].
  destruct (Combat.createMonster w (su_name su)); [|apply IH].
  destruct (Combat.placeCreature w _ (Combat.position m) (su_force su)); apply IH.
Qed.

(** The summon loop keeps every entry within its cap, when the entries bear
    distinct names and a created monster bears the name it was asked for. *)
Lemma onThinkDefense_summons_cap w roll interval (all : list summonBlock_t) :
  NoDup (su_name <$> all) ->
  (forall name c, Combat.createMonster w name = Some c -> c_name c = name) ->
  forall blocks, (forall su, su ∈ blocks -> su ∈ all) ->
  forall i m rt log m' rt' log',
    (forall su, su ∈ all -> Combat.withinSummonCap m su) ->
    Combat.onThinkDefense_summons w roll interval blocks i m rt log
    = Some (m', rt', log') ->
    (forall su, su ∈ all -> Combat.withinSummonCap m' su)
    /\ Combat.mType m' = Combat.mType m.
Proof.
  intros Hnames Hcreate.
  induction blocks as [|su rest IH]; intros Hsub i m rt log m' rt' log' Hcap Hrun;
    simpl in Hrun.
  - injection Hrun as <- _ _. auto.
  - assert (Hrest : forall su0, su0 ∈ rest -> su0 ∈ all)
      by (intros su0 Hin; apply Hsub; apply list_elem_of_further; exact Hin).
    assert (Hsu : su ∈ all) by (apply Hsub; apply list_elem_of_here).
    destruct (su_speed su >? Combat.defenseTicks m); [eapply IH; eassumption|].
    destruct (Z.geb_spec (Z.of_nat (length (Combat.m_summons m)))
                (mt_maxSummons (Combat.mType m))) as [|Hroom]; [eapply IH; eassumption|].
    destruct (su_speed su =? 0); [discriminate|].
    destruct (Combat.defenseTicks m mod su_speed su >=? interval);
      [eapply IH; eassumption|].
    destruct (Z.geb_spec (Combat.summonCount (su_name su) (Combat.m_summons m))
                (su_count su)) as [|Hbelow]; [eapply IH; eassumption|].
    destruct (su_chance su <? to_uint32 (roll i)); [eapply IH; eassumption|].
    destruct (Combat.createMonster w (su_name su)) as [summon|] eqn:Hmade;
      [|eapply IH; eassumption].
    destruct (Combat.placeCreature w summon (Combat.position m) (su_force su))
      as [at_|]; [|eapply IH; eassumption].
    cbn -[Combat.onThinkDefense_summons] in Hrun.
    eapply IH in Hrun; [exact Hrun | exact Hrest |].
    intros su0 Hin. unfold Combat.withinSummonCap.
    cbn [Combat.m_summons Combat.set_m_summons Combat.mType].
    rewrite summonCount_app.
    cbn [c_name set_c_master set_c_position].
    rewrite (Hcreate _ _ Hmade).
    specialize (Hcap su0 Hin). unfold Combat.withinSummonCap in Hcap.
    destruct (String.eqb_spec (su_name su) (su_name su0)) as [Hsame|_]; [|lia].
    assert (su = su0) as <- by (eapply NoDup_fmap_inj; eassumption).
    pose proof (summonCount_bounds (su_name su) (Combat.m_summons m)). lia.
Qed.

(** C6, as the code has it. For a caster whose summon entries bear pairwise
    distinct names, each name resolving to a creature of that name, and whose
    ability periods are nonzero: onThinkDefense ends, every entry that was
    within min(maxSummons, count) live summons of its name before the tick is
    within it after the tick, and the summon list changes only for a caster
    that is no summon itself and has a follow path. *)
Theorem C6_summons_within_cap :
  forall (w : Combat.World) (rollD rollS : nat -> Z) (interval : Z) (m : Combat.Monster),
    NoDup (su_name <$> mt_summons (Combat.mType m)) ->
    (forall name c, Combat.createMonster w name = Some c -> c_name c = name) ->
    Forall (fun sb => sb_speed sb <> 0) (mt_defenseSpells (Combat.mType m)) ->
    Forall (fun su => su_speed su <> 0) (mt_summons (Combat.mType m)) ->
    (forall su, su ∈ mt_summons (Combat.mType m) -> Combat.withinSummonCap m su) ->
    exists m' log,
      Combat.onThinkDefense w rollD rollS interval m = Some (m', log)
      /\ (forall su, su ∈ mt_summons (Combat.mType m) -> Combat.withinSummonCap m' su)
      /\ (Combat.m_summons m' <> Combat.m_summons m ->
          Combat.hasFollowPath m = true /\ Combat.isSummon m = false).
Proof.
  intros w rollD rollS interval m Hnames Hcreate HspeedD HspeedS Hcap.
  unfold Combat.onThinkDefense. cbv zeta.
  set (m0 := Combat.set_defenseTicks (to_uint32 (Combat.defenseTicks m + interval)) m).
  change (Combat.mType m0) with (Combat.mType m).
  destruct (onThinkDefense_spells_total rollD interval _ HspeedD 0%nat m0 true [])
    as [[[m1 rt1] log1] Hspells].
  rewrite Hspells.
  destruct (onThinkDefense_spells_frame _ _ _ _ _ _ _ _ _ _ Hspells)
    as (Hsum1 & Htype1 & Hpath1 & Hmaster1 & _).
  change (Combat.m_summons m0) with (Combat.m_summons m) in Hsum1.
  change (Combat.mType m0) with (Combat.mType m) in Htype1.
  change (Combat.hasFollowPath m0) with (Combat.hasFollowPath m) in Hpath1.
  change (Combat.master m0) with (Combat.master m) in Hmaster1.
  assert (Hcap1 : forall su, su ∈ mt_summons (Combat.mType m) ->
                             Combat.withinSummonCap m1 su).
  { intros su Hin. unfold Combat.withinSummonCap. rewrite Hsum1, Htype1.
    apply Hcap. exact Hin. }
  assert (Hsummon1 : Combat.isSummon m1 = Combat.isSummon m)
    by (unfold Combat.isSummon; rewrite Hmaster1; reflexivity).
  rewrite Htype1, Hsummon1, Hpath1.
  destruct (negb (Combat.isSummon m)
            && (Z.of_nat (length (Combat.m_summons m1)) <? mt_maxSummons (Combat.mType m))
            && Combat.hasFollowPath m) eqn:Hguard.
  - destruct (onThinkDefense_summons_total w rollS interval _ HspeedS 0%nat m1 rt1 log1)
      as [[[m2 rt2] log2] Hsummons].
    rewrite Hsummons.
    destruct (onThinkDefense_summons_cap w rollS interval _ Hnames Hcreate
                (mt_summons (Combat.mType m)) (fun _ H => H)
                _ _ _ _ _ _ _ Hcap1 Hsummons) as [Hcap2 Htype2].
    eexists _, _. split; [reflexivity|]. split.
    + intros su Hin. specialize (Hcap2 su Hin).
      unfold Combat.withinSummonCap in *. destruct rt2; exact Hcap2.
    + intros _. apply andb_prop in Hguard as [Hguard Hpath].
      apply andb_prop in Hguard as [Hnot _].
      split; [exact Hpath|]. apply negb_true_iff. exact Hnot.
  - eexists _, _. split; [reflexivity|]. split.
    + intros su Hin. specialize (Hcap1 su Hin).
      unfold Combat.withinSummonCap in *. destruct rt1; exact Hcap1.
    + intros Hchanged. exfalso. apply Hchanged.
      destruct rt1; exact Hsum1.
Qed.

Lemma C6_witness :
  exists m' log,
    Combat.onThinkDefense ratWorld lowRoll lowRoll 1000 ratCaller = Some (m', log)
    /\ (forall su, su ∈ mt_summons ratCallerType -> Combat.withinSummonCap m' su)
    /\ (Combat.m_summons m' <> Combat.m_summons ratCaller ->
        Combat.hasFollowPath ratCaller = true /\ Combat.isSummon ratCaller = false).
Proof.
  apply (C6_summons_within_cap ratWorld lowRoll lowRoll 1000 ratCaller).
  - cbn. apply NoDup_singleton.
  - intros name c. cbn. destruct (String.eqb_spec name "Rat") as [->|_];
      [intros [= <-]; reflexivity | discriminate].
  - constructor.
  - repeat constructor. discriminate.
  - intros su Hin. unfold Combat.withinSummonCap. cbn in Hin.
    apply list_elem_of_singleton in Hin as ->. vm_compute. discriminate.
Defined.

(** C6, as stated, fails: a template may list the same summon name twice.
    With "Rat" listed under counts 1 and 3, one tick summons two rats, above
    the min(5, 1) of the first entry. *)
Lemma C6_counterexample :
  ~ (forall (w : Combat.World) (rollD rollS : nat -> Z) (interval : Z)
            (m m' : Combat.Monster) (log : list Combat.Event),
        (forall su, su ∈ mt_summons (Combat.mType m) -> Combat.withinSummonCap m su) ->
        Combat.onThinkDefense w rollD rollS interval m = Some (m', log) ->
        forall su, su ∈ mt_summons (Combat.mType m) -> Combat.withinSummonCap m' su).
Proof.
  intros Hclaim.
  destruct (Combat.onThinkDefense ratWorld lowRoll lowRoll 1000 ratTwiceCaller)
    as [[m' log]|] eqn:Hrun; [|vm_compute in Hrun; discriminate Hrun].
  assert (Hcap : Combat.withinSummonCap m' (mkSummon "Rat" 100 1000 1 false)).
  { apply (Hclaim ratWorld lowRoll lowRoll 1000 ratTwiceCaller m' log).
    - intros su Hin. cbn in Hin.
      apply elem_of_cons in Hin as [->|Hin];
        [|apply list_elem_of_singleton in Hin as ->]; vm_compute; discriminate.
    - exact Hrun.
    - apply list_elem_of_here. }
  vm_compute in Hrun. injection Hrun as <- _.
  vm_compute in Hcap. apply Hcap. reflexivity.
Qed.

(** ** Life cycle *)

Lemma Position_eqb_eq a b : Position_eqb a b = true <-> a = b.
Proof.
  unfold Position_eqb. destruct a as [ax ay az], b as [bx by_ bz]. simpl. split.
  - intros H. apply andb_prop in H as [H Hz]. apply andb_prop in H as [Hx Hy].
    apply Z.eqb_eq in Hx, Hy, Hz. congruence.
  - intros [= -> -> ->]. rewrite !Z.eqb_refl. reflexivity.
Qed.

(** C7, as the code has it. A monster that is no summon, bears no condition,
    has an empty target list, is not removed and has health left: when
    isInSpawnLocation holds it becomes idle (and its walking-back flag is left
    alone); otherwise it is set walking back and is not idle.
    isInSpawnLocation holds exactly for a monster without a spawn record, a
    monster on its anchor and a monster whose anchor is the default position:
    each of these becomes idle, and a monster with a spawn record and an
    anchor other than the default position that stands off its anchor is set
    walking back instead. *)
Theorem C7_updateIdleStatus_anchor :
  forall (st : Store) (m : Lifecycle.Monster),
    Lifecycle.isSummon st m = false ->
    Lifecycle.conditions m = [] ->
    Lifecycle.targetList m = [] ->
    Lifecycle.removed m = false ->
    0 < Lifecycle.health m ->
    (Lifecycle.isInSpawnLocation m = true ->
     Lifecycle.isIdle (fst (Lifecycle.updateIdleStatus st m)) = true
     /\ Lifecycle.isWalkingBack (fst (Lifecycle.updateIdleStatus st m))
        = Lifecycle.isWalkingBack m)
    /\ (Lifecycle.isInSpawnLocation m = false ->
        Lifecycle.isIdle (fst (Lifecycle.updateIdleStatus st m)) = false
        /\ Lifecycle.isWalkingBack (fst (Lifecycle.updateIdleStatus st m)) = true)
    /\ (Lifecycle.position m = Lifecycle.masterPos m ->
        Lifecycle.isInSpawnLocation m = true)
    /\ (Lifecycle.hasSpawn m = true ->
        Lifecycle.masterPos m <> Position_default ->
        Lifecycle.position m <> Lifecycle.masterPos m ->
        Lifecycle.isInSpawnLocation m = false)
    /\ (Lifecycle.isInSpawnLocation m = true <->
        Lifecycle.hasSpawn m = false
        \/ Lifecycle.position m = Lifecycle.masterPos m
        \/ Lifecycle.masterPos m = Position_default)
    /\ (Lifecycle.hasSpawn m = false
        \/ Lifecycle.position m = Lifecycle.masterPos m
        \/ Lifecycle.masterPos m = Position_default ->
        Lifecycle.isIdle (fst (Lifecycle.updateIdleStatus st m)) = true
        /\ Lifecycle.isWalkingBack (fst (Lifecycle.updateIdleStatus st m))
           = Lifecycle.isWalkingBack m)
    /\ (Lifecycle.hasSpawn m = true ->
        Lifecycle.masterPos m <> Position_default ->
        Lifecycle.position m <> Lifecycle.masterPos m ->
        Lifecycle.isIdle (fst (Lifecycle.updateIdleStatus st m)) = false
        /\ Lifecycle.isWalkingBack (fst (Lifecycle.updateIdleStatus st m)) = true).
Proof.
  intros st m Hsummon Hcond Htargets Hremoved Hhealth.
  assert (Halive : (Lifecycle.health m <=? 0) = false) by lia.
  assert (Hin : Lifecycle.isInSpawnLocation m = true ->
                Lifecycle.isIdle (fst (Lifecycle.updateIdleStatus st m)) = true
                /\ Lifecycle.isWalkingBack (fst (Lifecycle.updateIdleStatus st m))
                   = Lifecycle.isWalkingBack m).
  { unfold Lifecycle.updateIdleStatus, Lifecycle.setIdle.
    rewrite Hcond, Hsummon, Htargets. simpl negb. simpl andb. cbv iota.
    intros ->. cbn. rewrite Hremoved, Halive. cbn. split; reflexivity. }
  assert (Hout : Lifecycle.isInSpawnLocation m = false ->
                 Lifecycle.isIdle (fst (Lifecycle.updateIdleStatus st m)) = false
                 /\ Lifecycle.isWalkingBack (fst (Lifecycle.updateIdleStatus st m)) = true).
  { unfold Lifecycle.updateIdleStatus, Lifecycle.setIdle.
    rewrite Hcond, Hsummon, Htargets. simpl negb. simpl andb. cbv iota.
    intros ->. cbn. rewrite Hremoved, Halive. cbn. split; reflexivity. }
  assert (Hiff : Lifecycle.isInSpawnLocation m = true <->
                 Lifecycle.hasSpawn m = false
                 \/ Lifecycle.position m = Lifecycle.masterPos m
                 \/ Lifecycle.masterPos m = Position_default).
  { unfold Lifecycle.isInSpawnLocation.
    destruct (Lifecycle.hasSpawn m); cbn [negb]; [|split; auto].
    rewrite orb_true_iff, !Position_eqb_eq. split.
    - intros [H|H]; auto.
    - intros [H|[H|H]]; [discriminate H | auto | auto]. }
  assert (Hoff : Lifecycle.hasSpawn m = true ->
                 Lifecycle.masterPos m <> Position_default ->
                 Lifecycle.position m <> Lifecycle.masterPos m ->
                 Lifecycle.isInSpawnLocation m = false).
  { intros Hspawn Hset Hoff.
    apply not_true_is_false. intros E.
    apply Hiff in E as [H|[H|H]]; [congruence | contradiction | contradiction]. }
  split; [exact Hin|]. split; [exact Hout|]. split; [|split; [exact Hoff|]].
  - intros Hanchor. apply Hiff. auto.
  - split; [exact Hiff|]. split.
    + intros Hcase. apply Hin, Hiff, Hcase.
    + intros Hspawn Hset Hstray. apply Hout, Hoff; assumption.
Qed.

Lemma C7_witness :
  (Lifecycle.isIdle (fst (Lifecycle.updateIdleStatus ∅ homeMonster)) = true
   /\ Lifecycle.isWalkingBack (fst (Lifecycle.updateIdleStatus ∅ homeMonster)) = false)
  /\ (Lifecycle.isIdle (fst (Lifecycle.updateIdleStatus ∅ strayedMonster)) = false
      /\ Lifecycle.isWalkingBack (fst (Lifecycle.updateIdleStatus ∅ strayedMonster)) = true)
  /\ (Lifecycle.isIdle (fst (Lifecycle.updateIdleStatus ∅ scriptedMonster)) = true
      /\ Lifecycle.isWalkingBack (fst (Lifecycle.updateIdleStatus ∅ scriptedMonster))
         = false).
Proof.
  split; [|split].
  - apply (proj1 (C7_updateIdleStatus_anchor ∅ homeMonster
                    eq_refl eq_refl eq_refl eq_refl eq_refl)).
    reflexivity.
  - apply (proj1 (proj2 (C7_updateIdleStatus_anchor ∅ strayedMonster
                           eq_refl eq_refl eq_refl eq_refl eq_refl))).
    reflexivity.
  - apply (proj1 (proj2 (proj2 (proj2 (proj2 (proj2
             (C7_updateIdleStatus_anchor ∅ scriptedMonster
                eq_refl eq_refl eq_refl eq_refl eq_refl))))))).
    left. reflexivity.
Defined.

(** C7, as stated, fails: a monster without a spawn record counts as being in
    its spawn location wherever it stands, so off its anchor it becomes idle
    and is not set walking back. *)
Lemma C7_counterexample :
  ~ (forall (st : Store) (m : Lifecycle.Monster),
        Lifecycle.isSummon st m = false ->
        Lifecycle.conditions m = [] ->
        Lifecycle.targetList m = [] ->
        Lifecycle.position m <> Lifecycle.masterPos m ->
        Lifecycle.isWalkingBack (fst (Lifecycle.updateIdleStatus st m)) = true
        /\ Lifecycle.isIdle (fst (Lifecycle.updateIdleStatus st m)) = false).
Proof.
  intros Hclaim.
  destruct (Hclaim ∅ scriptedMonster eq_refl eq_refl eq_refl) as [Hback _].
  - discriminate.
  - vm_compute in Hback. discriminate Hback.
Qed.

(** A summon that death has dealt with stays dealt with, and every summon on
    the list is dealt with. *)
Lemma death_summons_released summons :
  forall (st : Store) (sid : Z) (c : Creature),
    st !! sid = Some c ->
    Some sid ∈ summons \/ (c_health c = 0 /\ c_master c = None) ->
    exists c',
      Lifecycle.death_summons summons st !! sid = Some c'
      /\ c_health c' = 0 /\ c_master c' = None /\ c_id c' = c_id c.
Proof.
  induction summons as [|[s|] rest IH]; intros st sid c Hlook Hcase; simpl.
  - destruct Hcase as [Hin|[Hh Hm]]; [inversion Hin|]. exists c. auto.
  - destruct (decide (s = sid)) as [->|Hne].
    + set (c1 := Lifecycle.removeMaster (Lifecycle.changeHealth (- c_health c) c)).
      assert (Hc1 : c_health c1 = 0 /\ c_master c1 = None /\ c_id c1 = c_id c).
      { unfold c1, Lifecycle.removeMaster, Lifecycle.changeHealth,
          Lifecycle.Creature_changeHealth.
        destruct (c_kind c); [| destruct (c_removed c || (c_health c <=? 0)) |];
          cbn; repeat split; lia. }
      destruct Hc1 as (Hh & Hm & Hid).
      destruct (IH (alter (fun summon =>
                             Lifecycle.removeMaster
                               (Lifecycle.changeHealth (- c_health summon) summon))
                          sid st) sid c1) as (c' & Hc' & ? & ? & ?).
      * rewrite lookup_alter_eq, Hlook. reflexivity.
      * right. auto.
      * exists c'. repeat split; auto. congruence.
    + apply IH.
      * rewrite lookup_alter_ne by exact Hne. exact Hlook.
      * destruct Hcase as [Hin|Hdone]; [|right; exact Hdone].
        apply elem_of_cons in Hin as [Heq|Hin]; [congruence|]. left. exact Hin.
  - apply IH; [exact Hlook|].
    destruct Hcase as [Hin|Hdone]; [|right; exact Hdone].
    apply elem_of_cons in Hin as [Heq|Hin]; [discriminate|]. left. exact Hin.
Qed.

(** C8. After death the attacked-target reference is null, the target list,
    the friend list and the summon list are empty, the monster is marked
    dead, and every summon it owned is in the store with health zero and no
    master. *)
Theorem C8_death_clears_and_releases :
  forall (st : Store) (m : Lifecycle.Monster),
    Lifecycle.attackedCreature (snd (fst (Lifecycle.death st m))) = None
    /\ Lifecycle.targetList (snd (fst (Lifecycle.death st m))) = []
    /\ Lifecycle.friendList (snd (fst (Lifecycle.death st m))) = ∅
    /\ Lifecycle.m_summons (snd (fst (Lifecycle.death st m))) = []
    /\ Lifecycle.dead (snd (fst (Lifecycle.death st m))) = true
    /\ forall (sid : Z) (summon : Creature),
         Some sid ∈ Lifecycle.m_summons m ->
         st !! sid = Some summon ->
         exists summon',
           fst (fst (Lifecycle.death st m)) !! sid = Some summon'
           /\ c_health summon' = 0
           /\ c_master summon' = None
           /\ c_id summon' = c_id summon.
Proof.
  intros st m. unfold Lifecycle.death. cbn.
  repeat (split; [reflexivity|]).
  intros sid summon Hin Hlook.
  apply (death_summons_released _ st sid summon Hlook). left. exact Hin.
Qed.

Lemma C8_witness :
  exists summon',
    fst (fst (Lifecycle.death packStore packLeader)) !! 602 = Some summon'
    /\ c_health summon' = 0
    /\ c_master summon' = None
    /\ c_id summon' = 602.
Proof.
  apply (proj2 (proj2 (proj2 (proj2 (proj2
           (C8_death_clears_and_releases packStore packLeader))))) 602
           (summonOf 602 600)).
  - apply list_elem_of_further, list_elem_of_further, list_elem_of_here.
  - reflexivity.
Defined.

(** ** Target registry *)

(** C9. For a summon whose master is a player, isOpponent is false for the
    null reference and for the master, and true for every other creature,
    among them the players of the master's party, whom isFriend classifies
    as friends at the same time, and the summons of other players. *)
Theorem C9_player_summon_opponents :
  forall (w : Registry.World) (m : Registry.Monster) (masterId : Z) (masterC : Creature),
    Registry.master m = Some masterId ->
    Registry.store w !! masterId = Some masterC ->
    getPlayer masterC = true ->
    Registry.isOpponent w m None = false
    /\ (forall c, Registry.isOpponent w m (Some c) = negb (c_id c =? masterId))
    /\ (forall c, c_id c = masterId -> Registry.isOpponent w m (Some c) = false)
    /\ (forall c, c_id c <> masterId -> Registry.isOpponent w m (Some c) = true)
    /\ (forall c,
           getPlayer c = true ->
           Registry.isPartner w masterId (c_id c) = true ->
           c_id c <> masterId ->
           Registry.isFriend w m c = true /\ Registry.isOpponent w m (Some c) = true)
    /\ (forall c ownerId owner,
           c_master c = Some ownerId ->
           Registry.store w !! ownerId = Some owner ->
           getPlayer owner = true ->
           c_id c <> masterId ->
           Registry.isOpponent w m (Some c) = true).
Proof.
  intros w m masterId masterC Hmaster Hstore Hplayer.
  assert (Hopp : forall c, Registry.isOpponent w m (Some c) = negb (c_id c =? masterId)).
  { intros c. unfold Registry.isOpponent, Registry.getMaster.
    rewrite Hmaster, Hstore, Hplayer. reflexivity. }
  assert (Hother : forall c, c_id c <> masterId -> Registry.isOpponent w m (Some c) = true).
  { intros c Hne. rewrite Hopp. apply negb_true_iff. lia. }
  split; [reflexivity|]. split; [exact Hopp|]. split; [|split; [exact Hother|split]].
  - intros c Hc. rewrite Hopp, Hc, Z.eqb_refl. reflexivity.
  - intros c Hc Hpartner Hne. split; [|apply Hother; exact Hne].
    unfold Registry.isFriend, Registry.getMaster.
    rewrite Hmaster, Hstore, Hplayer, Hc, Hpartner, orb_true_r. reflexivity.
  - intros c ownerId owner _ _ _ Hne. apply Hother. exact Hne.
Qed.

Lemma C9_witness :
  (Registry.isFriend partyWorld playerSummon (playerAt 11 (mkPosition 102 100 7)) = true
   /\ Registry.isOpponent partyWorld playerSummon
        (Some (playerAt 11 (mkPosition 102 100 7))) = true)
  /\ Registry.isOpponent partyWorld playerSummon (Some (summonOf 613 12)) = true
  /\ Registry.isOpponent partyWorld playerSummon
       (Some (playerAt 10 (mkPosition 100 101 7))) = false.
Proof.
  pose proof (C9_player_summon_opponents partyWorld playerSummon 10
                (playerAt 10 (mkPosition 100 101 7)) eq_refl eq_refl eq_refl)
    as (_ & _ & Hmaster & _ & Hparty & Hsummon).
  split; [|split].
  - apply Hparty; [reflexivity | reflexivity | discriminate].
  - apply (Hsummon _ 12 (playerAt 12 (mkPosition 104 100 7)));
      [reflexivity | reflexivity | reflexivity | discriminate].
  - apply Hmaster. reflexivity.
Defined.

Lemma searchDistance_chebyshev myPos pos :
  chebyshev myPos pos < 2 ^ 31 ->
  Registry.searchDistance myPos pos = chebyshev myPos pos.
Proof.
  unfold Registry.searchDistance, chebyshev, getDistanceX, getDistanceY. intros H.
  rewrite !to_int32_small by lia. reflexivity.
Qed.




(** * Further properties *)

(** ** Movement planner *)

(** What getDistanceStep needs of getRandomStep: a step that is granted is
    walkable, and a refusal means every direction was blocked. *)
Lemma getRandomStep_outcome :
  forall (w : Movement.World) (m : Movement.Monster) (pos : Position)
         (dirList : list Direction) (moveDirection : Direction),
    match Movement.getRandomStep w m pos dirList moveDirection with
    | (true, d) => Movement.canWalkTo w m pos d = true
    | (false, d) =>
        d = moveDirection
        /\ forall x, x ∈ dirList -> Movement.canWalkTo w m pos x = false
    end.
Proof.
  intros w m pos dirList moveDirection. unfold Movement.getRandomStep.
  induction dirList as [|dir rest IH]; cbn.
  - split; [reflexivity|]. intros x Hx. inversion Hx.
  - destruct (Movement.canWalkTo w m pos dir) eqn:Hdir; [exact Hdir|].
    destruct (Movement.getRandomStep_loop w m pos rest moveDirection) as [[|] d];
      [exact IH|].
    destruct IH as [-> Hblocked]. split; [reflexivity|].
    intros x Hx. apply elem_of_cons in Hx as [->|Hx]; auto.
Qed.

(** X1. getRandomStep takes the first walkable direction of the shuffled
    list: on success the direction returned is walkable and every direction
    before it in the list is blocked; on failure every direction of the list
    is blocked and moveDirection is left as it was. *)
Theorem X1_getRandomStep_first_walkable :
  forall (w : Movement.World) (m : Movement.Monster) (pos : Position)
         (dirList : list Direction) (moveDirection : Direction),
    match Movement.getRandomStep w m pos dirList moveDirection with
    | (true, d) =>
        Movement.canWalkTo w m pos d = true
        /\ exists before after,
             dirList = before ++ d :: after
             /\ forall x, x ∈ before -> Movement.canWalkTo w m pos x = false
    | (false, d) =>
        d = moveDirection
        /\ forall x, x ∈ dirList -> Movement.canWalkTo w m pos x = false
    end.
Proof.
  intros w m pos dirList moveDirection. unfold Movement.getRandomStep.
  induction dirList as [|dir rest IH]; simpl.
  - split; [reflexivity|]. intros x Hx. inversion Hx.
  - destruct (Movement.canWalkTo w m pos dir) eqn:Hdir.
    + split; [exact Hdir|]. exists [], rest. split; [reflexivity|].
      intros x Hx. inversion Hx.
    + destruct (Movement.getRandomStep_loop w m pos rest moveDirection) as [[|] d].
      * destruct IH as (Hd & before & after & -> & Hblocked).
        split; [exact Hd|]. exists (dir :: before), after. split; [reflexivity|].
        intros x Hx. apply elem_of_cons in Hx as [->|Hx]; auto.
      * destruct IH as (-> & Hblocked). split; [reflexivity|].
        intros x Hx. apply elem_of_cons in Hx as [->|Hx]; auto.
Qed.

Lemma dance_block_elem (g t r : bool) (l : list Direction) (dir x : Direction) :
  x ∈ (if g then if t then if r then l ++ [dir] else l else l else l) ->
  x ∈ l \/ (x = dir /\ g = true /\ t = true /\ r = true).
Proof.
  destruct g, t, r; auto. intros Hx. apply elem_of_app in Hx as [Hx|Hx]; [auto|].
  apply list_elem_of_singleton in Hx. auto.
Qed.

(** X2. A dance step that is granted is a cardinal step onto a walkable
    tile that leaves the distance to the attacked creature as it was, taken
    by a monster at least its target distance away; when keepAttack is asked
    for and the monster can attack from where it stands, it can still attack
    from the position the code builds for the tile it steps onto, whose
    coordinates are taken in 16 bits.  The shuffle only reorders the
    directions. *)
Theorem X2_getDanceStep_keeps_range :
  forall (w : Movement.World) (m : Movement.Monster)
         (shuffle : list Direction -> list Direction) (rnd : Z)
         (creaturePos : Position) (moveDirection : Direction)
         (keepAttack keepDistance : bool) (attacked : Creature) (d : Direction),
    Movement.attackedCreature m = Some attacked ->
    (forall l x, x ∈ shuffle l -> x ∈ l) ->
    Movement.getDanceStep w m shuffle rnd creaturePos moveDirection keepAttack keepDistance
    = Some (true, d) ->
    isCardinal d = true
    /\ Movement.canWalkTo w m creaturePos d = true
    /\ danceDistance (stepFrom creaturePos d) (c_position attacked)
       = danceDistance creaturePos (c_position attacked)
    /\ to_uint32 (Movement.targetDistance m)
       <= danceDistance creaturePos (c_position attacked)
    /\ (keepAttack = true ->
        canUseAttack (Movement.isSightClear w) (Movement.mType m) creaturePos attacked = true ->
        canUseAttack (Movement.isSightClear w) (Movement.mType m)
          (danceTile creaturePos d) attacked = true).
Proof.
  intros w m shuffle rnd creaturePos moveDirection keepAttack keepDistance attacked d
         Hatt Hshuffle Hrun.
  unfold Movement.getDanceStep in Hrun. rewrite Hatt in Hrun. cbv zeta in Hrun.
  fold (danceDistance creaturePos (c_position attacked)) in Hrun.
  destruct (Z.ltb_spec (danceDistance creaturePos (c_position attacked))
              (to_uint32 (Movement.targetDistance m))) as [|Hfar]; [discriminate|].
  match type of Hrun with
  | match ?l with [] => _ | _ :: _ => _ end = _ => remember l as dirList eqn:HdirList
  end.
  assert (Hd : d ∈ dirList).
  { destruct dirList as [|a rest]; [discriminate|].
    destruct (0 <=? rnd); [|discriminate].
    destruct (shuffle (a :: rest) !! Z.to_nat rnd) as [dir|] eqn:Hpick; [|discriminate].
    injection Hrun as ->. apply Hshuffle. eapply list_elem_of_lookup_2. exact Hpick. }
  clear Hrun. rewrite HdirList in Hd. clear HdirList.
  assert (Hstep : forall dir,
             stepFrom creaturePos dir
             = mkPosition (pos_x creaturePos + (directionOffset dir).1)
                 (pos_y creaturePos + (directionOffset dir).2) (pos_z creaturePos))
    by reflexivity.
  repeat (apply dance_block_elem in Hd as [Hd | (-> & Hg & Ht & Hr)]);
    [inversion Hd | ..];
    apply andb_prop in Ht as [Hdist Hwalk]; apply Z.eqb_eq in Hdist;
    (split; [reflexivity|]); (split; [exact Hwalk|]); (split; [|split; [exact Hfar|]]).
  all: try (rewrite <- Hdist; unfold danceDistance, stepFrom, getOffsetX, getOffsetY;
            cbn; repeat f_equal; lia).
  all: intros -> Hnow; rewrite Hnow in Hr; cbn [negb orb] in Hr; rewrite <- Hr;
    f_equal; unfold danceTile; cbn [directionOffset fst snd];
    rewrite ?Z.add_0_r; reflexivity.
Qed.

Lemma X2_witness :
  isCardinal DIRECTION_NORTH = true
  /\ Movement.canWalkTo openWorld strandedDancer (mkPosition 100 100 7) DIRECTION_NORTH = true
  /\ danceDistance (stepFrom (mkPosition 100 100 7) DIRECTION_NORTH) (mkPosition 103 100 7)
     = danceDistance (mkPosition 100 100 7) (mkPosition 103 100 7)
  /\ to_uint32 1 <= danceDistance (mkPosition 100 100 7) (mkPosition 103 100 7)
  /\ (true = true ->
      canUseAttack (fun _ _ => true) meleeType (mkPosition 100 100 7)
        (playerAt 10 (mkPosition 103 100 7)) = true ->
      canUseAttack (fun _ _ => true) meleeType
        (danceTile (mkPosition 100 100 7) DIRECTION_NORTH)
        (playerAt 10 (mkPosition 103 100 7)) = true).
Proof.
  apply (X2_getDanceStep_keeps_range openWorld strandedDancer (fun l => l) 0
           (mkPosition 100 100 7) DIRECTION_EAST true true
           (playerAt 10 (mkPosition 103 100 7)) DIRECTION_NORTH).
  - reflexivity.
  - intros l x Hx. exact Hx.
  - vm_compute. reflexivity.
Defined.

(** X3. With no attacked creature, or with the four cardinal neighbours
    blocked, getDanceStep returns false and leaves moveDirection alone,
    whatever the shuffle and the draw. *)
Theorem X3_getDanceStep_blocked :
  forall (w : Movement.World) (m : Movement.Monster)
         (shuffle : list Direction -> list Direction) (rnd : Z)
         (creaturePos : Position) (moveDirection : Direction)
         (keepAttack keepDistance : bool),
    Movement.attackedCreature m = None
    \/ (forall dir, isCardinal dir = true ->
                    Movement.canWalkTo w m creaturePos dir = false) ->
    Movement.getDanceStep w m shuffle rnd creaturePos moveDirection keepAttack keepDistance
    = Some (false, moveDirection).
Proof.
  intros w m shuffle rnd creaturePos moveDirection keepAttack keepDistance Hcase.
  unfold Movement.getDanceStep.
  destruct (Movement.attackedCreature m) as [attacked|]; [|reflexivity].
  destruct Hcase as [Hnone|Hblocked]; [discriminate|]. cbv zeta.
  rewrite !Hblocked by reflexivity. rewrite !andb_false_r. cbv iota.
  destruct (_ <? _); [reflexivity|].
  repeat match goal with
         | |- context [if negb keepDistance || ?c then _ else _] =>
             destruct (negb keepDistance || c); cbv iota
         end.
  all: reflexivity.
Qed.

Lemma X3_witness :
  Movement.getDanceStep walledWorld strandedDancer (fun l => l) 0
    (mkPosition 100 100 7) DIRECTION_EAST true true
  = Some (false, DIRECTION_EAST).
Proof.
  apply X3_getDanceStep_blocked. right. intros dir _. destruct dir; reflexivity.
Defined.

(** X29. The dance step is refused, without proposing a move, whenever the
    monster is closer to its target than its target distance: the guard is
    [centerToDist < targetDistance]. *)
Theorem X29_getDanceStep_bails_when_closer :
  forall (w : Movement.World) (m : Movement.Monster)
         (shuffle : list Direction -> list Direction) (rnd : Z)
         (creaturePos : Position) (moveDirection : Direction)
         (keepAttack keepDistance : bool) (attacked : Creature),
    Movement.attackedCreature m = Some attacked ->
    0 <= Movement.targetDistance m < 2 ^ 32 ->
    chebyshev creaturePos (c_position attacked) < Movement.targetDistance m ->
    Movement.getDanceStep w m shuffle rnd creaturePos moveDirection keepAttack keepDistance
    = Some (false, moveDirection).
Proof.
  intros w m shuffle rnd creaturePos moveDirection keepAttack keepDistance attacked
         Hatt Htd Hlt.
  unfold Movement.getDanceStep. rewrite Hatt. cbv zeta.
  unfold chebyshev, getDistanceX, getDistanceY in Hlt.
  assert (Hx : 0 <= Z.abs (getOffsetX creaturePos (c_position attacked)) < 2 ^ 32) by lia.
  assert (Hy : 0 <= Z.abs (getOffsetY creaturePos (c_position attacked)) < 2 ^ 32) by lia.
  rewrite (to_uint32_small _ Hx), (to_uint32_small _ Hy), (to_uint32_small _ Htd).
  destruct (Z.ltb_spec (Z.max (Z.abs (getOffsetX creaturePos (c_position attacked)))
                              (Z.abs (getOffsetY creaturePos (c_position attacked))))
                       (Movement.targetDistance m)) as [_|Hge]; [reflexivity | lia].
Qed.

Lemma X29_witness :
  Movement.getDanceStep openWorld corneredHunter (fun l => l) 0
    (mkPosition 100 100 7) DIRECTION_EAST true true
  = Some (false, DIRECTION_EAST).
Proof.
  apply (X29_getDanceStep_bails_when_closer openWorld corneredHunter (fun l => l) 0
           (mkPosition 100 100 7) DIRECTION_EAST true true
           (playerAt 10 (mkPosition 100 98 7))).
  - reflexivity.
  - vm_compute. split; [discriminate | reflexivity].
  - vm_compute. reflexivity.
Defined.

(** What every path through getDistanceStep has in common. *)
Lemma getDistanceStep_cases :
  forall (w : Movement.World) (m : Movement.Monster) (coin : bool)
         (dirList : list Direction) (targetPos : Position)
         (moveDirection : Direction) (flee : bool),
    exists m' ok d,
      Movement.getDistanceStep w m coin dirList targetPos moveDirection flee = (m', ok, d)
      /\ (d = moveDirection \/ Movement.canWalkTo w m (Movement.position m) d = true)
      /\ (Movement.stepDuration m' = Movement.stepDuration m
          \/ (Movement.stepDuration m < 2
              /\ Movement.stepDuration m' = Movement.stepDuration m + 1)
          \/ (0 < Movement.stepDuration m
              /\ Movement.stepDuration m' = Movement.stepDuration m - 1))
      /\ (ok = false ->
          d = moveDirection
          /\ ((flee = false
               /\ (Movement.targetDistance m
                     < Z.max (to_int32 (getDistanceX (Movement.position m) targetPos))
                             (to_int32 (getDistanceY (Movement.position m) targetPos))
                   \/ Movement.isSightClear w (Movement.position m) targetPos = false))
              \/ (getOffsetX (Movement.position m) targetPos = 0
                  /\ getOffsetY (Movement.position m) targetPos = 0
                  /\ forall x, x ∈ dirList ->
                               Movement.canWalkTo w m (Movement.position m) x = false))).
Proof.
  intros w m coin dirList targetPos moveDirection flee.
  unfold Movement.getDistanceStep. cbv zeta.
  set (distance := Z.max (to_int32 (getDistanceX (Movement.position m) targetPos))
                        (to_int32 (getDistanceY (Movement.position m) targetPos))).
  destruct (negb flee && ((distance >? Movement.targetDistance m)
                          || negb (Movement.isSightClear w (Movement.position m) targetPos)))
    eqn:Hfar.
  { eexists _, _, _. split; [reflexivity|]. split; [auto|]. split; [auto|].
    intros _. split; [reflexivity|]. left.
    apply andb_prop in Hfar as [Hflee Hfar]. apply negb_true_iff in Hflee.
    split; [exact Hflee|]. apply orb_prop in Hfar as [Hfar|Hfar].
    - left. lia.
    - right. apply negb_true_iff in Hfar. exact Hfar. }
  destruct (negb flee && (distance =? Movement.targetDistance m)) eqn:Hat.
  { eexists _, _, _. split; [reflexivity|]. split; [auto|]. split; [auto|]. discriminate. }
  match goal with
  | |- context [Movement.canWalkTo w ?mm (Movement.position m)] =>
      remember mm as m' eqn:Hm'
  end.
  assert (Hwalk : forall x, Movement.canWalkTo w m' (Movement.position m) x
                            = Movement.canWalkTo w m (Movement.position m) x).
  { intros x. subst m'.
    repeat match goal with
           | |- context [if ?c then _ else _] => destruct c
           end; reflexivity. }
  assert (Hdur : Movement.stepDuration m' = Movement.stepDuration m
          \/ (Movement.stepDuration m < 2
              /\ Movement.stepDuration m' = Movement.stepDuration m + 1)
          \/ (0 < Movement.stepDuration m
              /\ Movement.stepDuration m' = Movement.stepDuration m - 1)).
  { subst m'.
    destruct ((getDistanceX (Movement.position m) targetPos <=? 1)
              && (getDistanceY (Movement.position m) targetPos <=? 1)).
    - destruct (Z.ltb_spec (Movement.stepDuration m) 2);
        [right; left; split; [assumption | reflexivity] | left; reflexivity].
    - destruct (Z.gtb_spec (Movement.stepDuration m) 0);
        [right; right; split; [lia | reflexivity] | left; reflexivity]. }
  clear Hm'.
  destruct ((getOffsetX (Movement.position m) targetPos =? 0)
            && (getOffsetY (Movement.position m) targetPos =? 0)) eqn:Hsame.
  { pose proof (getRandomStep_outcome w m' (Movement.position m) dirList
                  moveDirection) as Hrand.
    destruct (Movement.getRandomStep w m' (Movement.position m) dirList moveDirection)
      as [[|] d].
    - rename Hrand into Hd. rewrite Hwalk in Hd.
      eexists _, _, _. split; [reflexivity|]. split; [auto|]. split; [exact Hdur|].
      discriminate.
    - destruct Hrand as [-> Hblocked].
      eexists _, _, _. split; [reflexivity|]. split; [auto|]. split; [exact Hdur|].
      intros _. split; [reflexivity|]. right.
      apply andb_prop in Hsame as [Hx Hy]. repeat split; [lia | lia |].
      intros x Hx'. rewrite <- Hwalk. apply Hblocked. exact Hx'. }
  rewrite !Hwalk.
  repeat match goal with
         | |- context [if ?c then _ else _] => destruct c eqn:?
         end.
  all: eexists _, _, _; (split; [reflexivity|]); (split; [|split; [exact Hdur|discriminate]]).
  all: repeat match goal with
              | H : _ && _ = true |- _ => apply andb_prop in H as [? ?]
              end; first [left; reflexivity | right; assumption].
Qed.

(** X4. Whatever getDistanceStep writes to moveDirection is a direction the
    monster can walk to: afterwards moveDirection is either what the caller
    passed in or a direction for which canWalkTo holds. *)
Theorem X4_getDistanceStep_walkable :
  forall (w : Movement.World) (m : Movement.Monster) (coin : bool)
         (dirList : list Direction) (targetPos : Position)
         (moveDirection : Direction) (flee : bool),
    (Movement.getDistanceStep w m coin dirList targetPos moveDirection flee).2
    = moveDirection
    \/ Movement.canWalkTo w m (Movement.position m)
         (Movement.getDistanceStep w m coin dirList targetPos moveDirection flee).2
       = true.
Proof.
  intros w m coin dirList targetPos moveDirection flee.
  destruct (getDistanceStep_cases w m coin dirList targetPos moveDirection flee)
    as (m' & ok & d & -> & Hd & _). exact Hd.
Qed.

(** X5. getDistanceStep moves stepDuration by at most one and keeps it
    between 0 and 2 when it starts there. *)
Theorem X5_getDistanceStep_stepDuration :
  forall (w : Movement.World) (m : Movement.Monster) (coin : bool)
         (dirList : list Direction) (targetPos : Position)
         (moveDirection : Direction) (flee : bool),
    0 <= Movement.stepDuration m <= 2 ->
    0 <= Movement.stepDuration
           (Movement.getDistanceStep w m coin dirList targetPos moveDirection flee).1.1
      <= 2
    /\ Z.abs (Movement.stepDuration
                (Movement.getDistanceStep w m coin dirList targetPos moveDirection flee).1.1
              - Movement.stepDuration m) <= 1.
Proof.
  intros w m coin dirList targetPos moveDirection flee Hrange.
  destruct (getDistanceStep_cases w m coin dirList targetPos moveDirection flee)
    as (m' & ok & d & -> & _ & Hdur & _). cbn. lia.
Qed.

Lemma X5_witness :
  0 <= Movement.stepDuration
         (Movement.getDistanceStep openWorld corneredHunter true [] (mkPosition 100 99 7)
            DIRECTION_EAST false).1.1 <= 2
  /\ Z.abs (Movement.stepDuration
              (Movement.getDistanceStep openWorld corneredHunter true []
                 (mkPosition 100 99 7) DIRECTION_EAST false).1.1
            - Movement.stepDuration corneredHunter) <= 1.
Proof.
  apply (X5_getDistanceStep_stepDuration openWorld corneredHunter true []
           (mkPosition 100 99 7) DIRECTION_EAST false).
  vm_compute. split; discriminate.
Defined.

(** X6. getDistanceStep answers false in two situations only, and then
    leaves moveDirection alone: a monster that is not fleeing and is farther
    from the target than its target distance or has no clear line of sight
    (the step is left to path finding), and a monster on the target's own
    tile with every direction of the shuffled list blocked. *)
Theorem X6_getDistanceStep_false :
  forall (w : Movement.World) (m : Movement.Monster) (coin : bool)
         (dirList : list Direction) (targetPos : Position)
         (moveDirection : Direction) (flee : bool),
    (Movement.getDistanceStep w m coin dirList targetPos moveDirection flee).1.2 = false ->
    (Movement.getDistanceStep w m coin dirList targetPos moveDirection flee).2
    = moveDirection
    /\ ((flee = false
         /\ (Movement.targetDistance m
               < Z.max (to_int32 (getDistanceX (Movement.position m) targetPos))
                       (to_int32 (getDistanceY (Movement.position m) targetPos))
             \/ Movement.isSightClear w (Movement.position m) targetPos = false))
        \/ (getOffsetX (Movement.position m) targetPos = 0
            /\ getOffsetY (Movement.position m) targetPos = 0
            /\ forall x, x ∈ dirList ->
                         Movement.canWalkTo w m (Movement.position m) x = false)).
Proof.
  intros w m coin dirList targetPos moveDirection flee.
  destruct (getDistanceStep_cases w m coin dirList targetPos moveDirection flee)
    as (m' & ok & d & -> & _ & _ & Hfalse). exact Hfalse.
Qed.

Lemma X6_witness :
  (Movement.getDistanceStep openWorld strandedDancer true [] (mkPosition 103 100 7)
     DIRECTION_EAST false).2 = DIRECTION_EAST
  /\ ((false = false
       /\ (Movement.targetDistance strandedDancer
             < Z.max (to_int32 (getDistanceX (mkPosition 100 100 7) (mkPosition 103 100 7)))
                     (to_int32 (getDistanceY (mkPosition 100 100 7) (mkPosition 103 100 7)))
           \/ Movement.isSightClear openWorld (mkPosition 100 100 7) (mkPosition 103 100 7)
              = false))
      \/ (getOffsetX (mkPosition 100 100 7) (mkPosition 103 100 7) = 0
          /\ getOffsetY (mkPosition 100 100 7) (mkPosition 103 100 7) = 0
          /\ forall x, x ∈ [] ->
                       Movement.canWalkTo openWorld strandedDancer (mkPosition 100 100 7) x
                       = false)).
Proof.
  apply (X6_getDistanceStep_false openWorld strandedDancer true [] (mkPosition 103 100 7)
           DIRECTION_EAST false).
  vm_compute. reflexivity.
Defined.

(** Case analysis on the walkability tests of a decision table, one test at a
    time. *)
Ltac split_walks w m :=
  repeat (cbn [andb orb negb];
          match goal with
          | |- context [if ?c then _ else _] =>
              match c with
              | context [Movement.canWalkTo w m ?p ?d] =>
                  destruct (Movement.canWalkTo w m p d) eqn:?
              | _ => destruct c eqn:?
              end
          end).

(** X7. A fleeing monster that is not on the target's tile and has at least
    one walkable cardinal neighbour always gets a step from getDistanceStep:
    the answer is true and the direction written to moveDirection is
    walkable. *)
Theorem X7_getDistanceStep_flee_escapes :
  forall (w : Movement.World) (m : Movement.Monster) (coin : bool)
         (dirList : list Direction) (targetPos : Position) (moveDirection : Direction),
    (getOffsetX (Movement.position m) targetPos <> 0
     \/ getOffsetY (Movement.position m) targetPos <> 0) ->
    (Movement.canWalkTo w m (Movement.position m) DIRECTION_NORTH = true
     \/ Movement.canWalkTo w m (Movement.position m) DIRECTION_SOUTH = true
     \/ Movement.canWalkTo w m (Movement.position m) DIRECTION_EAST = true
     \/ Movement.canWalkTo w m (Movement.position m) DIRECTION_WEST = true) ->
    (Movement.getDistanceStep w m coin dirList targetPos moveDirection true).1.2 = true
    /\ Movement.canWalkTo w m (Movement.position m)
         (Movement.getDistanceStep w m coin dirList targetPos moveDirection true).2 = true.
Proof.
  intros w m coin dirList targetPos moveDirection Hapart Hfree.
  unfold Movement.getDistanceStep. cbv zeta. cbn [negb andb].
  match goal with
  | |- context [Movement.canWalkTo w ?mm (Movement.position m)] =>
      remember mm as m' eqn:Hm'
  end.
  assert (Hwalk : forall x, Movement.canWalkTo w m' (Movement.position m) x
                            = Movement.canWalkTo w m (Movement.position m) x).
  { intros x. subst m'.
    repeat match goal with
           | |- context [if ?c then _ else _] => destruct c
           end; reflexivity. }
  clear Hm'.
  destruct ((getOffsetX (Movement.position m) targetPos =? 0)
            && (getOffsetY (Movement.position m) targetPos =? 0)) eqn:Hsame.
  { apply andb_prop in Hsame as [Hx Hy]. lia. }
  rewrite !Hwalk.
  split_walks w m.
  all: cbn [fst snd]; split; [reflexivity|].
  all: first [assumption | destruct Hfree as [H|[H|[H|H]]]; congruence].
Qed.

Lemma X7_witness :
  (Movement.getDistanceStep openWorld corneredHunter true [] (mkPosition 100 98 7)
     DIRECTION_EAST true).1.2 = true
  /\ Movement.canWalkTo openWorld corneredHunter (Movement.position corneredHunter)
       (Movement.getDistanceStep openWorld corneredHunter true [] (mkPosition 100 98 7)
          DIRECTION_EAST true).2 = true.
Proof.
  apply (X7_getDistanceStep_flee_escapes openWorld corneredHunter true []
           (mkPosition 100 98 7) DIRECTION_EAST).
  - right. vm_compute. discriminate.
  - left. vm_compute. reflexivity.
Defined.

(** X8. When the target is nearer along one axis than along the other,
    the monster is fleeing or stands closer than its target distance with a
    clear line of sight, and the tile straight away from the target along the
    longer axis is walkable, getDistanceStep takes exactly that step. *)
Theorem X8_getDistanceStep_straight_away :
  forall (w : Movement.World) (m : Movement.Monster) (coin : bool)
         (dirList : list Direction) (targetPos : Position)
         (moveDirection : Direction) (flee : bool),
    let pos := Movement.position m in
    let away :=
      if getDistanceY pos targetPos >? getDistanceX pos targetPos
      then (if getOffsetY pos targetPos <? 0 then DIRECTION_NORTH else DIRECTION_SOUTH)
      else (if getOffsetX pos targetPos <? 0 then DIRECTION_WEST else DIRECTION_EAST) in
    (flee = true
     \/ (Z.max (to_int32 (getDistanceX pos targetPos)) (to_int32 (getDistanceY pos targetPos))
           < Movement.targetDistance m
         /\ Movement.isSightClear w pos targetPos = true)) ->
    getDistanceX pos targetPos <> getDistanceY pos targetPos ->
    Movement.canWalkTo w m pos away = true ->
    (Movement.getDistanceStep w m coin dirList targetPos moveDirection flee).1.2 = true
    /\ (Movement.getDistanceStep w m coin dirList targetPos moveDirection flee).2 = away.
Proof.
  intros w m coin dirList targetPos moveDirection flee pos away Hgo Hskew Haway.
  subst pos away.
  unfold Movement.getDistanceStep. cbv zeta.
  set (distance := Z.max (to_int32 (getDistanceX (Movement.position m) targetPos))
                        (to_int32 (getDistanceY (Movement.position m) targetPos))) in *.
  destruct (negb flee && ((distance >? Movement.targetDistance m)
                          || negb (Movement.isSightClear w (Movement.position m) targetPos)))
    eqn:Hfar.
  { exfalso. destruct Hgo as [->|[Hnear Hsight]]; [discriminate|].
    rewrite Hsight in Hfar. cbn in Hfar.
    rewrite orb_false_r in Hfar. apply andb_prop in Hfar as [_ Hfar]. lia. }
  destruct (negb flee && (distance =? Movement.targetDistance m)) eqn:Hat.
  { exfalso. destruct Hgo as [->|[Hnear Hsight]]; [discriminate|].
    apply andb_prop in Hat as [_ Hat]. lia. }
  match goal with
  | |- context [Movement.canWalkTo w ?mm (Movement.position m)] =>
      remember mm as m' eqn:Hm'
  end.
  assert (Hwalk : forall x, Movement.canWalkTo w m' (Movement.position m) x
                            = Movement.canWalkTo w m (Movement.position m) x).
  { intros x. subst m'.
    repeat match goal with
           | |- context [if ?c then _ else _] => destruct c
           end; reflexivity. }
  clear Hm'.
  destruct ((getOffsetX (Movement.position m) targetPos =? 0)
            && (getOffsetY (Movement.position m) targetPos =? 0)) eqn:Hsame.
  { exfalso. apply andb_prop in Hsame as [Hx Hy]. apply Hskew.
    unfold getDistanceX, getDistanceY. 
    replace (getOffsetX (Movement.position m) targetPos) with 0 by lia.
    replace (getOffsetY (Movement.position m) targetPos) with 0 by lia. reflexivity. }
  rewrite !Hwalk.
  destruct (getDistanceX (Movement.position m) targetPos
            =? getDistanceY (Movement.position m) targetPos) eqn:Hdiag; [lia|].
  destruct (getDistanceY (Movement.position m) targetPos
            >? getDistanceX (Movement.position m) targetPos);
    [destruct (getOffsetY (Movement.position m) targetPos <? 0)
    |destruct (getOffsetX (Movement.position m) targetPos <? 0)];
    cbn [negb]; rewrite Haway; split; reflexivity.
Qed.

Lemma X8_witness :
  (Movement.getDistanceStep openWorld corneredHunter true [] (mkPosition 100 98 7)
     DIRECTION_EAST false).1.2 = true
  /\ (Movement.getDistanceStep openWorld corneredHunter true [] (mkPosition 100 98 7)
        DIRECTION_EAST false).2 = DIRECTION_SOUTH.
Proof.
  apply (X8_getDistanceStep_straight_away openWorld corneredHunter true []
           (mkPosition 100 98 7) DIRECTION_EAST false).
  - right. vm_compute. split; reflexivity.
  - vm_compute. discriminate.
  - vm_compute. reflexivity.
Defined.

(** ** Facing the target *)

(** X9. updateLookDirection turns a monster that looks along an axis to look
    along an axis again, and along the one on which its target is farthest:
    the step in the new direction covers the full Chebyshev distance to the
    attacked creature.  The distances are those of two positions on the map
    (below 2^31). *)
Theorem X9_updateLookDirection_faces_target :
  forall (dir : Direction) (pos : Position) (attacked : Creature),
    isCardinal dir = true ->
    Z.abs (getOffsetX (c_position attacked) pos) < 2 ^ 31 ->
    Z.abs (getOffsetY (c_position attacked) pos) < 2 ^ 31 ->
    exists d,
      updateLookDirection dir pos (Some attacked) = Some d
      /\ isCardinal d = true
      /\ (directionOffset d).1 * getOffsetX (c_position attacked) pos
         + (directionOffset d).2 * getOffsetY (c_position attacked) pos
         = chebyshev (c_position attacked) pos.
Proof.
  intros dir pos attacked Hdir Hx Hy.
  unfold updateLookDirection, chebyshev, getDistanceX, getDistanceY. cbv zeta.
  rewrite !to_int32_small by lia.
  set (ox := getOffsetX (c_position attacked) pos) in *.
  set (oy := getOffsetY (c_position attacked) pos) in *.
  destruct (Z.gtb_spec (Z.abs ox) (Z.abs oy)).
  { destruct (Z.ltb_spec ox 0); eexists; (split; [reflexivity|]); cbn; split; [reflexivity|lia| reflexivity |lia]. }
  destruct (Z.ltb_spec (Z.abs ox) (Z.abs oy)).
  { destruct (Z.ltb_spec oy 0); eexists; (split; [reflexivity|]); cbn; split; [reflexivity|lia| reflexivity |lia]. }
  destruct (Z.ltb_spec ox 0), (Z.ltb_spec oy 0), (Z.gtb_spec ox 0), (Z.gtb_spec oy 0);
    cbn [andb]; try lia;
    destruct dir; try discriminate Hdir;
    eexists; (split; [reflexivity|]); cbn; (split; [reflexivity|lia]).
Qed.

Lemma X9_witness :
  exists d,
    updateLookDirection DIRECTION_NORTH (mkPosition 100 100 7)
      (Some (playerAt 10 (mkPosition 103 101 7))) = Some d
    /\ isCardinal d = true
    /\ (directionOffset d).1
       * getOffsetX (c_position (playerAt 10 (mkPosition 103 101 7))) (mkPosition 100 100 7)
       + (directionOffset d).2
         * getOffsetY (c_position (playerAt 10 (mkPosition 103 101 7))) (mkPosition 100 100 7)
       = chebyshev (c_position (playerAt 10 (mkPosition 103 101 7))) (mkPosition 100 100 7).
Proof.
  apply (X9_updateLookDirection_faces_target DIRECTION_NORTH (mkPosition 100 100 7)
           (playerAt 10 (mkPosition 103 101 7))).
  - reflexivity.
  - vm_compute. reflexivity.
  - vm_compute. reflexivity.
Defined.

(** ** Target and friend sets *)

Lemma erase_not_elem (cid : Z) (l : list Z) : cid ∉ l -> Targets.erase cid l = l.
Proof.
  induction l as [|a l IH]; [reflexivity|]. intros Hnot. cbn.
  destruct (Z.eqb_spec a cid) as [->|Hne].
  - exfalso. apply Hnot. apply list_elem_of_here.
  - f_equal. apply IH. intros Hin. apply Hnot. apply list_elem_of_further. exact Hin.
Qed.

Lemma erase_app_last (cid : Z) (l : list Z) :
  cid ∉ l -> Targets.erase cid (l ++ [cid]) = l.
Proof.
  induction l as [|a l IH]; intros Hnot; cbn.
  - rewrite Z.eqb_refl. reflexivity.
  - destruct (Z.eqb_spec a cid) as [->|Hne].
    + exfalso. apply Hnot. apply list_elem_of_here.
    + f_equal. apply IH. intros Hin. apply Hnot. apply list_elem_of_further. exact Hin.
Qed.

Lemma erase_subset (cid x : Z) (l : list Z) : x ∈ Targets.erase cid l -> x ∈ l.
Proof.
  induction l as [|a l IH]; cbn; [auto|].
  destruct (a =? cid).
  - intros Hx. apply list_elem_of_further. exact Hx.
  - intros Hx. apply elem_of_cons in Hx as [->|Hx].
    + apply list_elem_of_here.
    + apply list_elem_of_further. auto.
Qed.

Lemma erase_NoDup (cid : Z) (l : list Z) :
  NoDup l -> NoDup (Targets.erase cid l) /\ cid ∉ Targets.erase cid l.
Proof.
  induction l as [|a l IH]; cbn; intros Hnd.
  - split; [constructor|]. intros H. inversion H.
  - apply NoDup_cons in Hnd as [Ha Hnd].
    destruct (Z.eqb_spec a cid) as [->|Hne].
    + split; assumption.
    + destruct (IH Hnd) as [IH1 IH2]. split.
      * apply NoDup_cons. split; [|exact IH1].
        intros Hin. apply Ha. eapply erase_subset. exact Hin.
      * intros Hin. apply elem_of_cons in Hin as [Heq|Hin]; [congruence|auto].
Qed.

(** X10. addTarget keeps the target list free of duplicates and free of the
    monster itself; the list gains the creature and nothing else, and the
    answer is true exactly when the creature is another creature that was
    not listed yet. *)
Theorem X10_addTarget_invariant :
  forall (st : Store) (m : Targets.Monster) (creature : Creature) (pushFront : bool),
    NoDup (Targets.targetList m) ->
    Targets.id m ∉ Targets.targetList m ->
    let m' := (Targets.addTarget st m creature pushFront).1 in
    NoDup (Targets.targetList m')
    /\ (Targets.id m' ∉ Targets.targetList m')
    /\ (forall x, (x ∈ Targets.targetList m') <->
                  (x ∈ Targets.targetList m
                   \/ (x = c_id creature /\ c_id creature <> Targets.id m)))
    /\ ((Targets.addTarget st m creature pushFront).2 = true <->
        c_id creature <> Targets.id m /\ c_id creature ∉ Targets.targetList m).
Proof.
  intros st m creature pushFront Hnd Hself. unfold Targets.addTarget, Targets.getTargetIterator.
  destruct (Z.eqb_spec (c_id creature) (Targets.id m)) as [Heq|Hne]; cbn.
  { split; [exact Hnd|]. split; [exact Hself|]. split.
    - intros x. split; [auto|]. intros [Hx|[_ Hx]]; [exact Hx|contradiction].
    - split; [discriminate|]. intros [Hx _]. contradiction. }
  destruct (bool_decide_reflect (c_id creature ∈ Targets.targetList m)) as [Hin|Hnot]; cbn.
  { split; [exact Hnd|]. split; [exact Hself|]. split.
    - intros x. split; [auto|]. intros [Hx|[-> _]]; assumption.
    - split; [discriminate|]. intros [_ Hx]. contradiction. }
  destruct pushFront; cbn.
  - split; [apply NoDup_cons; auto|]. split.
    + intros Hx. apply elem_of_cons in Hx as [Hx|Hx]; [congruence|contradiction].
    + split; [|split; auto].
      intros x. rewrite elem_of_cons. split; intros [Hx|Hx]; auto. destruct Hx; auto.
  - split.
    + apply NoDup_app. split; [exact Hnd|]. split; [|apply NoDup_singleton].
      intros x Hx Hx'. apply list_elem_of_singleton in Hx'. subst x. contradiction.
    + split.
      * intros Hx. apply elem_of_app in Hx as [Hx|Hx]; [contradiction|].
        apply list_elem_of_singleton in Hx. congruence.
      * split; [|split; auto].
        intros x. rewrite elem_of_app, list_elem_of_singleton.
        split; intros [Hx|Hx]; auto. destruct Hx; auto.
Qed.

Lemma X10_witness :
  let m' := (Targets.addTarget arenaStore arenaTracker
               (playerAt 24 (mkPosition 101 101 7)) true).1 in
  NoDup (Targets.targetList m')
  /\ (Targets.id m' ∉ Targets.targetList m')
  /\ (forall x, (x ∈ Targets.targetList m') <->
                (x ∈ Targets.targetList arenaTracker
                 \/ (x = c_id (playerAt 24 (mkPosition 101 101 7))
                     /\ c_id (playerAt 24 (mkPosition 101 101 7))
                        <> Targets.id arenaTracker)))
  /\ ((Targets.addTarget arenaStore arenaTracker
         (playerAt 24 (mkPosition 101 101 7)) true).2 = true <->
      c_id (playerAt 24 (mkPosition 101 101 7)) <> Targets.id arenaTracker
      /\ c_id (playerAt 24 (mkPosition 101 101 7)) ∉ Targets.targetList arenaTracker).
Proof.
  apply (X10_addTarget_invariant arenaStore arenaTracker
           (playerAt 24 (mkPosition 101 101 7)) true).
  - apply (bool_decide_unpack _). vm_compute. exact I.
  - apply (bool_decide_unpack _). vm_compute. exact I.
Defined.

(** X11. Removing a target right after addTarget accepted it gives the
    monster back as it was, counter of players in view included, whether the
    creature was put at the front or at the back. *)
Theorem X11_addTarget_removeTarget_round_trip :
  forall (st : Store) (m : Targets.Monster) (creature : Creature) (pushFront : bool),
    0 <= Targets.totalPlayersOnScreen m < 2 ^ 16 - 1 ->
    (Targets.addTarget st m creature pushFront).2 = true ->
    Targets.removeTarget st (Targets.addTarget st m creature pushFront).1 (Some creature)
    = (m, true).
Proof.
  intros st m creature pushFront Hcount. unfold Targets.addTarget, Targets.getTargetIterator.
  destruct (c_id creature =? Targets.id m); [discriminate|].
  destruct (bool_decide_reflect (c_id creature ∈ Targets.targetList m)) as [Hin|Hnot];
    [discriminate|].
  intros _. destruct m as [mid mmaster mfaction mpath mtargets mfriends mtotal].
  cbn in *. unfold Targets.removeTarget, Targets.getTargetIterator. cbn.
  assert (Hfound : bool_decide
                     (c_id creature ∈ (if pushFront then c_id creature :: mtargets
                                       else mtargets ++ [c_id creature])) = true).
  { apply bool_decide_eq_true. destruct pushFront.
    - apply list_elem_of_here.
    - apply elem_of_app. right. apply list_elem_of_here. }
  rewrite Hfound. cbn [negb].
  assert (Herase : Targets.erase (c_id creature)
                     (if pushFront then c_id creature :: mtargets
                      else mtargets ++ [c_id creature]) = mtargets).
  { destruct pushFront.
    - cbn. rewrite Z.eqb_refl. reflexivity.
    - apply erase_app_last. exact Hnot. }
  rewrite Herase.
  unfold Targets.countsAsPlayerOnScreen, Targets.getMaster. cbn.
  destruct ((match match mmaster with Some mid0 => st !! mid0 | None => None end with
             | Some _ => false | None => true end)
            && negb (mfaction =? FACTION_DEFAULT) && getPlayer creature).
  - unfold Targets.to_uint16. rewrite (Z.mod_small (mtotal + 1)) by lia.
    replace (mtotal + 1 - 1) with mtotal by lia. rewrite Z.mod_small by lia. reflexivity.
  - reflexivity.
Qed.

Lemma X11_witness :
  Targets.removeTarget arenaStore
    (Targets.addTarget arenaStore arenaTracker (playerAt 24 (mkPosition 101 101 7)) true).1
    (Some (playerAt 24 (mkPosition 101 101 7)))
  = (arenaTracker, true).
Proof.
  apply (X11_addTarget_removeTarget_round_trip arenaStore arenaTracker
           (playerAt 24 (mkPosition 101 101 7)) true).
  - vm_compute. split; [discriminate | reflexivity].
  - vm_compute. reflexivity.
Defined.

Lemma to_uint16_dec_inc (t : Z) :
  0 <= t < 2 ^ 16 -> Targets.to_uint16 (Targets.to_uint16 (t - 1) + 1) = t.
Proof.
  intros Ht. unfold Targets.to_uint16.
  destruct (Z.eq_dec t 0) as [->|Hpos]; [reflexivity|].
  rewrite (Z.mod_small (t - 1)) by lia.
  replace (t - 1 + 1) with t by lia. apply Z.mod_small. lia.
Qed.

(** X12. onFollowCreatureComplete on a listed creature moves it to the front
    of the target list when the monster has a follow path, to the back when
    it has none and is no summon, and drops it when it has none and is a
    summon; the counter of players in view ends as it started. *)
Theorem X12_onFollowCreatureComplete_reorders :
  forall (st : Store) (m : Targets.Monster) (creature : Creature),
    NoDup (Targets.targetList m) ->
    Targets.id m ∉ Targets.targetList m ->
    c_id creature ∈ Targets.targetList m ->
    0 <= Targets.totalPlayersOnScreen m < 2 ^ 16 ->
    let m' := Targets.onFollowCreatureComplete st m (Some creature) in
    Targets.targetList m'
    = (if Targets.hasFollowPath m
       then c_id creature :: Targets.erase (c_id creature) (Targets.targetList m)
       else if Targets.isSummon st m
            then Targets.erase (c_id creature) (Targets.targetList m)
            else Targets.erase (c_id creature) (Targets.targetList m) ++ [c_id creature])
    /\ Targets.totalPlayersOnScreen m' = Targets.totalPlayersOnScreen m.
Proof.
  intros st m creature Hnd Hself Hin Hcount.
  destruct m as [mid mmaster mfaction mpath mtargets mfriends mtotal]. cbn in *.
  unfold Targets.onFollowCreatureComplete, Targets.removeTarget, Targets.getTargetIterator.
  cbn. rewrite (bool_decide_eq_true_2 _ Hin). cbn.
  destruct (erase_NoDup (c_id creature) mtargets Hnd) as [Hnd' Hgone].
  assert (Hne : (c_id creature =? mid) = false).
  { apply Z.eqb_neq. intros Heq. apply Hself. rewrite <- Heq. exact Hin. }
  unfold Targets.isSummon, Targets.addTarget, Targets.getTargetIterator,
    Targets.countsAsPlayerOnScreen, Targets.getMaster.
  cbn. rewrite Hne, (bool_decide_eq_false_2 _ Hgone).
  destruct (match mmaster with Some mid0 => st !! mid0 | None => None end) as [owner|];
    destruct mpath; cbn; (split; [reflexivity|]); try reflexivity.
  all: destruct (negb (mfaction =? FACTION_DEFAULT) && getPlayer creature);
    [apply to_uint16_dec_inc; exact Hcount | reflexivity].
Qed.

Lemma X12_witness :
  let m' := Targets.onFollowCreatureComplete arenaStore arenaTracker
              (Some (playerAt 22 (mkPosition 100 105 7))) in
  Targets.targetList m'
  = (if Targets.hasFollowPath arenaTracker
     then c_id (playerAt 22 (mkPosition 100 105 7))
          :: Targets.erase (c_id (playerAt 22 (mkPosition 100 105 7)))
               (Targets.targetList arenaTracker)
     else if Targets.isSummon arenaStore arenaTracker
          then Targets.erase (c_id (playerAt 22 (mkPosition 100 105 7)))
                 (Targets.targetList arenaTracker)
          else Targets.erase (c_id (playerAt 22 (mkPosition 100 105 7)))
                 (Targets.targetList arenaTracker)
               ++ [c_id (playerAt 22 (mkPosition 100 105 7))])
  /\ Targets.totalPlayersOnScreen m' = Targets.totalPlayersOnScreen arenaTracker.
Proof.
  apply (X12_onFollowCreatureComplete_reorders arenaStore arenaTracker
           (playerAt 22 (mkPosition 100 105 7))).
  - apply (bool_decide_unpack _). vm_compute. exact I.
  - apply (bool_decide_unpack _). vm_compute. exact I.
  - apply (bool_decide_unpack _). vm_compute. exact I.
  - vm_compute. split; [discriminate | reflexivity].
Defined.

(** X13. With friends keyed by the id of the creature they refer to, in a
    store keyed by id: after addFriend and then removeFriend of a creature it
    is no friend, every friend left was one before and still resolves, and
    every other live creature has the entry it had. *)
Theorem X13_removeFriend_after_addFriend :
  forall (st : Store) (m : Targets.Monster) (creature : Creature),
    (forall k ref, Targets.friendList m !! k = Some ref -> ref = k) ->
    (forall k target, st !! k = Some target -> c_id target = k) ->
    let m' := Targets.removeFriend st (Targets.addFriend m creature) creature in
    Targets.friendList m' !! c_id creature = None
    /\ (forall k ref, Targets.friendList m' !! k = Some ref ->
                      Targets.friendList m !! k = Some ref /\ is_Some (st !! ref))
    /\ (forall k, k <> c_id creature -> is_Some (st !! k) ->
                  Targets.friendList m' !! k = Targets.friendList m !! k).
Proof.
  intros st m creature Hkeyed Hstore m'.
  assert (Hadd : forall k ref,
             Targets.friendList (Targets.addFriend m creature) !! k = Some ref ->
             ref = k /\ (k <> c_id creature -> Targets.friendList m !! k = Some ref)).
  { intros k ref. unfold Targets.addFriend.
    destruct (c_id creature =? Targets.id m); [intros H; split; eauto|].
    destruct (Targets.friendList m !! c_id creature) eqn:Hold; [intros H; split; eauto|].
    cbn. destruct (Z.eq_dec k (c_id creature)) as [->|Hne].
    - rewrite lookup_insert_eq. intros [= <-]. split; [reflexivity|congruence].
    - rewrite lookup_insert_ne by congruence. intros H. split; eauto. }
  assert (Hkeep : forall k ref, Targets.friendList m !! k = Some ref ->
                                Targets.friendList (Targets.addFriend m creature) !! k
                                = Some ref).
  { intros k ref Hk. unfold Targets.addFriend.
    destruct (c_id creature =? Targets.id m); [exact Hk|].
    destruct (Targets.friendList m !! c_id creature) eqn:Hold; [exact Hk|].
    cbn. rewrite lookup_insert_ne by congruence. exact Hk. }
  assert (Hstay : forall k ref,
             Targets.friendList m' !! k = Some ref ->
             Targets.friendList (Targets.addFriend m creature) !! k = Some ref
             /\ exists target, st !! ref = Some target /\ c_id target <> c_id creature).
  { intros k ref Hk. subst m'. unfold Targets.removeFriend in Hk. cbn in Hk.
    apply map_lookup_filter_Some in Hk as [Hk Hstays]. split; [exact Hk|].
    unfold Targets.friendStays in Hstays. cbn in Hstays.
    destruct (st !! ref) as [target|]; [|discriminate].
    exists target. split; [reflexivity|].
    apply negb_true_iff, Z.eqb_neq in Hstays. exact Hstays. }
  split; [|split].
  - destruct (Targets.friendList m' !! c_id creature) as [ref|] eqn:Hk; [|reflexivity].
    exfalso. apply Hstay in Hk as [Hk (target & Htarget & Hne)].
    apply Hadd in Hk as [-> _]. apply Hstore in Htarget. contradiction.
  - intros k ref Hk. apply Hstay in Hk as [Hk (target & Htarget & Hne)].
    pose proof (Hadd _ _ Hk) as [-> Hold]. split.
    + apply Hold. intros ->. apply Hstore in Htarget. contradiction.
    + rewrite Htarget. eauto.
  - intros k Hne [target Htarget].
    destruct (Targets.friendList m !! k) as [ref|] eqn:Hold.
    + pose proof (Hkeyed _ _ Hold) as ->.
      subst m'. unfold Targets.removeFriend. cbn.
      apply map_lookup_filter_Some. split; [apply Hkeep; exact Hold|].
      unfold Targets.friendStays. cbn. rewrite Htarget.
      apply negb_true_iff, Z.eqb_neq. apply Hstore in Htarget. congruence.
    + destruct (Targets.friendList m' !! k) as [ref|] eqn:Hk; [|reflexivity].
      exfalso. apply Hstay in Hk as [Hk _]. apply Hadd in Hk as [_ Hk].
      specialize (Hk Hne). congruence.
Qed.

Lemma X13_witness :
  let m' := Targets.removeFriend packStore (Targets.addFriend packFriend (summonOf 602 600))
              (summonOf 602 600) in
  Targets.friendList m' !! c_id (summonOf 602 600) = None
  /\ (forall k ref, Targets.friendList m' !! k = Some ref ->
                    Targets.friendList packFriend !! k = Some ref
                    /\ is_Some (packStore !! ref))
  /\ (forall k, k <> c_id (summonOf 602 600) -> is_Some (packStore !! k) ->
                Targets.friendList m' !! k = Targets.friendList packFriend !! k).
Proof.
  apply (X13_removeFriend_after_addFriend packStore packFriend (summonOf 602 600)).
  - intros k ref Hk. cbn in Hk. apply lookup_singleton_Some in Hk as [<- <-]. reflexivity.
  - intros k target Hk. unfold packStore in Hk.
    apply lookup_insert_Some in Hk as [[<- <-]|[_ Hk]]; [reflexivity|].
    apply lookup_insert_Some in Hk as [[<- <-]|[_ Hk]]; [reflexivity|].
    rewrite lookup_empty in Hk. discriminate Hk.
Defined.

(** ** Ranking strategies of searchTarget *)

Lemma nearest_loop_min (myPos : Position) (rest : list Creature) :
  forall (getTarget : Creature),
    let t := Registry.nearest_loop myPos 0 rest getTarget
               (Registry.searchDistance myPos (c_position getTarget)) in
    (t = getTarget \/ t ∈ rest)
    /\ Registry.searchDistance myPos (c_position t)
       <= Registry.searchDistance myPos (c_position getTarget)
    /\ forall c, c ∈ rest ->
                 Registry.searchDistance myPos (c_position t)
                 <= Registry.searchDistance myPos (c_position c).
Proof.
  induction rest as [|it rest IH]; intros getTarget; cbn.
  - split; [left; reflexivity|]. split; [lia|]. intros c Hc. inversion Hc.
  - rewrite Z.add_0_r.
    destruct (Z.ltb_spec (Registry.searchDistance myPos (c_position it))
                (Registry.searchDistance myPos (c_position getTarget))) as [Hlt|Hge].
    + destruct (IH it) as (Hin & Hle & Hmin). split; [|split].
      * right. destruct Hin as [->|Hin];
          [apply list_elem_of_here | apply list_elem_of_further; exact Hin].
      * lia.
      * intros c Hc. apply elem_of_cons in Hc as [->|Hc]; [exact Hle | apply Hmin, Hc].
    + destruct (IH getTarget) as (Hin & Hle & Hmin). split; [|split].
      * destruct Hin as [->|Hin]; [left; reflexivity|].
        right. apply list_elem_of_further. exact Hin.
      * exact Hle.
      * intros c Hc. apply elem_of_cons in Hc as [->|Hc]; [lia | apply Hmin, Hc].
Qed.

(** X14. When the first candidate is of the default faction, the nearest
    search hands selectTarget a candidate that no other candidate is closer
    than, whatever the number and the factions of the others. *)
Theorem X14_searchTarget_nearest_minimal :
  forall (w : Registry.World) (rnd rndIndex : Z) (m : Registry.Monster)
         (first : Creature) (rest : list Creature),
    Registry.resultList w m = first :: rest ->
    c_faction first = FACTION_DEFAULT ->
    exists t,
      t ∈ Registry.resultList w m
      /\ (forall c, c ∈ Registry.resultList w m ->
                    Registry.searchDistance (Registry.position m) (c_position t)
                    <= Registry.searchDistance (Registry.position m) (c_position c))
      /\ Registry.searchTarget w rnd rndIndex TARGETSEARCH_NEAREST m
         = (let '(m1, ok) := Registry.selectTarget w m t in
            if ok then Some (m1, true)
            else Some (Registry.selectFirst w (Registry.getTargetList w m1) m1)).
Proof.
  intros w rnd rndIndex m first rest Hlist Hfaction.
  exists (Registry.searchNearest (Registry.position m) first rest).
  unfold Registry.searchTarget. cbn [Registry.resolveSearchType]. rewrite Hlist.
  unfold Registry.searchNearest. rewrite Hfaction.
  change (FACTION_DEFAULT * 100) with 0.
  pose proof (nearest_loop_min (Registry.position m) rest first) as Hloop.
  cbv zeta in Hloop. destruct Hloop as (Hin & Hle & Hmin).
  split; [|split].
  - destruct Hin as [->|Hin];
      [apply list_elem_of_here | apply list_elem_of_further; exact Hin].
  - intros c Hc. apply elem_of_cons in Hc as [->|Hc]; [exact Hle | apply Hmin, Hc].
  - reflexivity.
Qed.

Lemma X14_witness :
  exists t,
    t ∈ Registry.resultList arenaWorld arenaMonster
    /\ (forall c, c ∈ Registry.resultList arenaWorld arenaMonster ->
                  Registry.searchDistance (Registry.position arenaMonster) (c_position t)
                  <= Registry.searchDistance (Registry.position arenaMonster) (c_position c))
    /\ Registry.searchTarget arenaWorld 50 0 TARGETSEARCH_NEAREST arenaMonster
       = (let '(m1, ok) := Registry.selectTarget arenaWorld arenaMonster t in
          if ok then Some (m1, true)
          else Some (Registry.selectFirst arenaWorld
                       (Registry.getTargetList arenaWorld m1) m1)).
Proof.
  apply (X14_searchTarget_nearest_minimal arenaWorld 50 0 arenaMonster
           (playerAt 21 (mkPosition 103 100 7))
           [playerAt 22 (mkPosition 100 105 7); playerAt 23 (mkPosition 98 99 7)]).
  - vm_compute. reflexivity.
  - reflexivity.
Defined.

Lemma nearest_loop_keeps (myPos : Position) (factionOffset : Z) (rest : list Creature) :
  forall (getTarget : Creature) (minRange : Z),
    (forall c, c ∈ rest ->
               minRange <= Registry.searchDistance myPos (c_position c) + factionOffset) ->
    Registry.nearest_loop myPos factionOffset rest getTarget minRange = getTarget.
Proof.
  induction rest as [|it rest IH]; intros getTarget minRange Hfar; cbn; [reflexivity|].
  destruct (Z.ltb_spec (Registry.searchDistance myPos (c_position it) + factionOffset)
              minRange) as [Hlt|Hge].
  - specialize (Hfar it (list_elem_of_here _ _)). lia.
  - apply IH. intros c Hc. apply Hfar. apply list_elem_of_further. exact Hc.
Qed.

(** X15. The faction offset of the nearest search is that of the first
    candidate and is added to the others' distances only: a first candidate
    of a faction other than the default, at most 100 tiles away, is the one
    handed to selectTarget however close the others are. *)
Theorem X15_searchTarget_nearest_faction_offset :
  forall (w : Registry.World) (rnd rndIndex : Z) (m : Registry.Monster)
         (first : Creature) (rest : list Creature),
    Registry.resultList w m = first :: rest ->
    1 <= c_faction first ->
    Registry.searchDistance (Registry.position m) (c_position first) <= 100 ->
    (forall c, c ∈ rest -> chebyshev (Registry.position m) (c_position c) < 2 ^ 31) ->
    Registry.searchTarget w rnd rndIndex TARGETSEARCH_NEAREST m
    = (let '(m1, ok) := Registry.selectTarget w m first in
       if ok then Some (m1, true)
       else Some (Registry.selectFirst w (Registry.getTargetList w m1) m1)).
Proof.
  intros w rnd rndIndex m first rest Hlist Hfaction Hnear Hbound.
  unfold Registry.searchTarget. cbn [Registry.resolveSearchType]. rewrite Hlist.
  unfold Registry.searchNearest. rewrite nearest_loop_keeps; [reflexivity|].
  intros c Hc. rewrite (searchDistance_chebyshev _ _ (Hbound c Hc)).
  unfold chebyshev, getDistanceX, getDistanceY. nia.
Qed.

Lemma X15_witness :
  Registry.searchTarget feudWorld 50 0 TARGETSEARCH_NEAREST feudMonster
  = (let '(m1, ok) := Registry.selectTarget feudWorld feudMonster
                        (rivalAt 31 (mkPosition 105 100 7)) in
     if ok then Some (m1, true)
     else Some (Registry.selectFirst feudWorld (Registry.getTargetList feudWorld m1) m1)).
Proof.
  apply (X15_searchTarget_nearest_faction_offset feudWorld 50 0 feudMonster
           (rivalAt 31 (mkPosition 105 100 7)) [playerAt 32 (mkPosition 101 100 7)]).
  - vm_compute. reflexivity.
  - vm_compute. discriminate.
  - vm_compute. discriminate.
  - intros c Hc. apply list_elem_of_singleton in Hc. subst c. vm_compute. reflexivity.
Defined.

Lemma hp_loop_min (rest : list Creature) :
  forall (getTarget : Creature),
    (forall c, c ∈ rest -> c_faction c = FACTION_DEFAULT) ->
    let t := Registry.hp_loop rest getTarget (c_health getTarget) 0 in
    (t = getTarget \/ t ∈ rest)
    /\ c_health t <= c_health getTarget
    /\ forall c, c ∈ rest -> c_health t <= c_health c.
Proof.
  induction rest as [|it rest IH]; intros getTarget Hfaction; cbn.
  - split; [left; reflexivity|]. split; [lia|]. intros c Hc. inversion Hc.
  - rewrite Z.add_0_r, (Hfaction it (list_elem_of_here _ _)).
    change (FACTION_DEFAULT * 100000) with 0.
    assert (Hrest : forall c, c ∈ rest -> c_faction c = FACTION_DEFAULT).
    { intros c Hc. apply Hfaction. apply list_elem_of_further. exact Hc. }
    destruct (Z.ltb_spec (c_health it) (c_health getTarget)) as [Hlt|Hge].
    + destruct (IH it Hrest) as (Hin & Hle & Hmin). split; [|split].
      * right. destruct Hin as [->|Hin];
          [apply list_elem_of_here | apply list_elem_of_further; exact Hin].
      * lia.
      * intros c Hc. apply elem_of_cons in Hc as [->|Hc]; [exact Hle | apply Hmin, Hc].
    + destruct (IH getTarget Hrest) as (Hin & Hle & Hmin). split; [|split].
      * destruct Hin as [->|Hin]; [left; reflexivity|].
        right. apply list_elem_of_further. exact Hin.
      * exact Hle.
      * intros c Hc. apply elem_of_cons in Hc as [->|Hc]; [lia | apply Hmin, Hc].
Qed.

(** X16. With every candidate of the default faction, the health search
    hands selectTarget a candidate of least health. *)
Theorem X16_searchTarget_hp_minimal :
  forall (w : Registry.World) (rnd rndIndex : Z) (m : Registry.Monster),
    Registry.resultList w m <> [] ->
    (forall c, c ∈ Registry.resultList w m -> c_faction c = FACTION_DEFAULT) ->
    exists t,
      t ∈ Registry.resultList w m
      /\ (forall c, c ∈ Registry.resultList w m -> c_health t <= c_health c)
      /\ Registry.searchTarget w rnd rndIndex TARGETSEARCH_HP m
         = (let '(m1, ok) := Registry.selectTarget w m t in
            if ok then Some (m1, true)
            else Some (Registry.selectFirst w (Registry.getTargetList w m1) m1)).
Proof.
  intros w rnd rndIndex m Hsome Hfaction.
  unfold Registry.searchTarget. cbn [Registry.resolveSearchType].
  destruct (Registry.resultList w m) as [|first rest]; [contradiction|].
  exists (Registry.searchHp first rest).
  unfold Registry.searchHp. rewrite (Hfaction first (list_elem_of_here _ _)).
  change (FACTION_DEFAULT * 100000) with 0. rewrite Z.add_0_r.
  assert (Hrest : forall c, c ∈ rest -> c_faction c = FACTION_DEFAULT).
  { intros c Hc. apply Hfaction. apply list_elem_of_further. exact Hc. }
  pose proof (hp_loop_min rest first Hrest) as Hloop.
  cbv zeta in Hloop. destruct Hloop as (Hin & Hle & Hmin).
  split; [|split].
  - destruct Hin as [->|Hin];
      [apply list_elem_of_here | apply list_elem_of_further; exact Hin].
  - intros c Hc. apply elem_of_cons in Hc as [->|Hc]; [exact Hle | apply Hmin, Hc].
  - reflexivity.
Qed.

Lemma X16_witness :
  exists t,
    t ∈ Registry.resultList arenaWorld arenaMonster
    /\ (forall c, c ∈ Registry.resultList arenaWorld arenaMonster ->
                  c_health t <= c_health c)
    /\ Registry.searchTarget arenaWorld 50 0 TARGETSEARCH_HP arenaMonster
       = (let '(m1, ok) := Registry.selectTarget arenaWorld arenaMonster t in
          if ok then Some (m1, true)
          else Some (Registry.selectFirst arenaWorld
                       (Registry.getTargetList arenaWorld m1) m1)).
Proof.
  apply (X16_searchTarget_hp_minimal arenaWorld 50 0 arenaMonster).
  - vm_compute. discriminate.
  - intros c Hc. change (Registry.resultList arenaWorld arenaMonster)
      with [playerAt 21 (mkPosition 103 100 7); playerAt 22 (mkPosition 100 105 7);
            playerAt 23 (mkPosition 98 99 7)] in Hc.
    repeat (apply elem_of_cons in Hc as [->|Hc]); [reflexivity..|inversion Hc].
Defined.

Lemma damage_loop_max (dmap : gmap Z Z) (rest : list Creature) :
  forall (getTarget : Creature) (mostDamage : Z),
    0 <= mostDamage ->
    (forall c, c ∈ rest -> c_faction c = FACTION_DEFAULT) ->
    let t := Registry.damage_loop dmap rest getTarget mostDamage in
    (t = getTarget /\ forall c, c ∈ rest -> default 0 (dmap !! c_id c) <= mostDamage)
    \/ (t ∈ rest /\ mostDamage < default 0 (dmap !! c_id t)
        /\ forall c, c ∈ rest -> default 0 (dmap !! c_id c) <= default 0 (dmap !! c_id t)).
Proof.
  induction rest as [|it rest IH]; intros getTarget mostDamage Hpos Hfaction; cbn.
  - left. split; [reflexivity|]. intros c Hc. inversion Hc.
  - rewrite (Hfaction it (list_elem_of_here _ _)).
    change (FACTION_DEFAULT * 100000) with 0.
    assert (Hrest : forall c, c ∈ rest -> c_faction c = FACTION_DEFAULT).
    { intros c Hc. apply Hfaction. apply list_elem_of_further. exact Hc. }
    destruct (dmap !! c_id it) as [total|] eqn:Htotal.
    + rewrite Z.add_0_r.
      destruct (Z.gtb_spec total mostDamage) as [Hgt|Hle].
      * destruct (IH it total ltac:(lia) Hrest) as [[Ht Hmax]|(Hin & Hmore & Hmax)].
        -- right. rewrite Ht, Htotal. cbn. split; [apply list_elem_of_here|].
           split; [lia|]. intros c Hc.
           apply elem_of_cons in Hc as [->|Hc]; [rewrite Htotal; cbn; lia | apply Hmax, Hc].
        -- right. split; [apply list_elem_of_further; exact Hin|]. split; [lia|].
           intros c Hc.
           apply elem_of_cons in Hc as [->|Hc]; [rewrite Htotal; cbn; lia | apply Hmax, Hc].
      * destruct (IH getTarget mostDamage Hpos Hrest) as [[Ht Hmax]|(Hin & Hmore & Hmax)].
        -- left. split; [exact Ht|]. intros c Hc.
           apply elem_of_cons in Hc as [->|Hc]; [rewrite Htotal; cbn; lia | apply Hmax, Hc].
        -- right. split; [apply list_elem_of_further; exact Hin|]. split; [lia|].
           intros c Hc.
           apply elem_of_cons in Hc as [->|Hc]; [rewrite Htotal; cbn; lia | apply Hmax, Hc].
    + destruct (IH getTarget mostDamage Hpos Hrest) as [[Ht Hmax]|(Hin & Hmore & Hmax)].
      * left. split; [exact Ht|]. intros c Hc.
        apply elem_of_cons in Hc as [->|Hc]; [rewrite Htotal; cbn; lia | apply Hmax, Hc].
      * right. split; [apply list_elem_of_further; exact Hin|]. split; [lia|].
        intros c Hc.
        apply elem_of_cons in Hc as [->|Hc]; [rewrite Htotal; cbn; lia | apply Hmax, Hc].
Qed.

(** X17. The damage search never looks up the damage of the first
    candidate.  With the later candidates of the default faction it hands
    selectTarget the later candidate with the most recorded damage when that
    is positive, and the first candidate when none of them has any. *)
Theorem X17_searchTarget_damage_maximal :
  forall (w : Registry.World) (rnd rndIndex : Z) (m : Registry.Monster)
         (first : Creature) (rest : list Creature),
    Registry.resultList w m = first :: rest ->
    (forall c, c ∈ rest -> c_faction c = FACTION_DEFAULT) ->
    exists t,
      ((t = first
        /\ forall c, c ∈ rest -> default 0 (Registry.damageMap m !! c_id c) <= 0)
       \/ (t ∈ rest
           /\ 0 < default 0 (Registry.damageMap m !! c_id t)
           /\ forall c, c ∈ rest ->
                        default 0 (Registry.damageMap m !! c_id c)
                        <= default 0 (Registry.damageMap m !! c_id t)))
      /\ Registry.searchTarget w rnd rndIndex TARGETSEARCH_DAMAGE m
         = (let '(m1, ok) := Registry.selectTarget w m t in
            if ok then Some (m1, true)
            else Some (Registry.selectFirst w (Registry.getTargetList w m1) m1)).
Proof.
  intros w rnd rndIndex m first rest Hlist Hfaction.
  exists (Registry.searchDamage (Registry.damageMap m) first rest).
  unfold Registry.searchTarget. cbn [Registry.resolveSearchType]. rewrite Hlist.
  split; [|reflexivity].
  unfold Registry.searchDamage.
  apply (damage_loop_max (Registry.damageMap m) rest first 0); [lia | exact Hfaction].
Qed.

Lemma X17_witness :
  exists t,
    ((t = playerAt 21 (mkPosition 103 100 7)
      /\ forall c,
           c ∈ [playerAt 22 (mkPosition 100 105 7); playerAt 23 (mkPosition 98 99 7)] ->
           default 0 (Registry.damageMap arenaMonster !! c_id c) <= 0)
     \/ (t ∈ [playerAt 22 (mkPosition 100 105 7); playerAt 23 (mkPosition 98 99 7)]
         /\ 0 < default 0 (Registry.damageMap arenaMonster !! c_id t)
         /\ forall c,
              c ∈ [playerAt 22 (mkPosition 100 105 7); playerAt 23 (mkPosition 98 99 7)] ->
              default 0 (Registry.damageMap arenaMonster !! c_id c)
              <= default 0 (Registry.damageMap arenaMonster !! c_id t)))
    /\ Registry.searchTarget arenaWorld 50 0 TARGETSEARCH_DAMAGE arenaMonster
       = (let '(m1, ok) := Registry.selectTarget arenaWorld arenaMonster t in
          if ok then Some (m1, true)
          else Some (Registry.selectFirst arenaWorld
                       (Registry.getTargetList arenaWorld m1) m1)).
Proof.
  apply (X17_searchTarget_damage_maximal arenaWorld 50 0 arenaMonster
           (playerAt 21 (mkPosition 103 100 7))
           [playerAt 22 (mkPosition 100 105 7); playerAt 23 (mkPosition 98 99 7)]).
  - vm_compute. reflexivity.
  - intros c Hc.
    repeat (apply elem_of_cons in Hc as [->|Hc]); [reflexivity..|inversion Hc].
Defined.

(** X18. A default search whose draw is within the sum of the three
    strategy weights never takes the random branch: it returns a result, the
    same for every value of the index draw. *)
Theorem X18_searchTarget_default_weights :
  forall (w : Registry.World) (rnd : Z) (m : Registry.Monster),
    rnd <= mt_strategiesTargetNearest (Registry.mType m)
           + mt_strategiesTargetHealth (Registry.mType m)
           + mt_strategiesTargetDamage (Registry.mType m) ->
    exists result,
      forall rndIndex,
        Registry.searchTarget w rnd rndIndex TARGETSEARCH_DEFAULT m = Some result.
Proof.
  intros w rnd m Hsum. unfold Registry.searchTarget, Registry.resolveSearchType.
  destruct (Z.gtb_spec rnd (mt_strategiesTargetNearest (Registry.mType m)));
    [destruct (Z.gtb_spec rnd (mt_strategiesTargetNearest (Registry.mType m)
                                + mt_strategiesTargetHealth (Registry.mType m)));
     [destruct (Z.gtb_spec rnd (mt_strategiesTargetNearest (Registry.mType m)
                                 + mt_strategiesTargetHealth (Registry.mType m)
                                 + mt_strategiesTargetDamage (Registry.mType m)));
      [lia|]|]|].
  all: destruct (Registry.resultList w m) as [|first rest];
    [eexists; intros; reflexivity|].
  all: match goal with
       | |- context [Registry.selectTarget ?w0 ?m0 ?t] =>
           destruct (Registry.selectTarget w0 m0 t) as [m1 [|]]
       end; eexists; intros; reflexivity.
Qed.

Lemma X18_witness :
  exists result,
    forall rndIndex,
      Registry.searchTarget arenaWorld 50 rndIndex TARGETSEARCH_DEFAULT arenaMonster
      = Some result.
Proof.
  apply (X18_searchTarget_default_weights arenaWorld 50 arenaMonster).
  vm_compute. discriminate.
Defined.

(** X19. For a monster of the default faction without a master, the two
    classifications exclude each other: a creature isFriend accepts is never
    one isOpponent accepts. *)
Theorem X19_wild_friend_not_opponent :
  forall (w : Registry.World) (m : Registry.Monster) (creature : Creature),
    Registry.master m = None ->
    Registry.faction m = FACTION_DEFAULT ->
    Registry.isFriend w m creature = true ->
    Registry.isOpponent w m (Some creature) = false.
Proof.
  intros w m creature Hmaster Hfaction.
  unfold Registry.isFriend, Registry.isOpponent, Registry.getMaster, Registry.masterOf,
    getMonster, getPlayer, c_isSummon.
  rewrite Hmaster, Hfaction. cbn.
  destruct (c_kind creature); cbn; try discriminate.
  destruct (c_master creature); cbn; [discriminate|]. reflexivity.
Qed.

Lemma X19_witness :
  Registry.isOpponent arenaWorld arenaMonster (Some ratCreature) = false.
Proof.
  apply (X19_wild_friend_not_opponent arenaWorld arenaMonster ratCreature);
    reflexivity.
Defined.

(** ** Attack and defense rounds *)

Lemma canUseSpell_granted m now pos tp sb interval rt inRange rt' m' :
  Combat.canUseSpell m now pos tp sb interval rt = Some (true, inRange, rt', m') ->
  withinRange sb pos tp = true
  /\ (sb_isMelee sb = false ->
      sb_speed sb <= Combat.attackTicks m
      /\ Combat.attackTicks m mod sb_speed sb < interval).
Proof.
  unfold Combat.canUseSpell, withinRange.
  destruct (sb_isMelee sb && Combat.isFleeing m); [discriminate|].
  destruct (negb (Combat.extraMeleeAttack m) && sb_isMelee sb
            && (now - Combat.lastMeleeAttack m <? 1500)); [discriminate|].
  destruct (Combat.extraMeleeAttack m), (sb_isMelee sb);
    cbn [Combat.extraMeleeAttack Combat.set_lastMeleeAttack Combat.attackTicks negb orb];
    repeat match goal with
           | |- context [if ?c then _ else _] => destruct c eqn:?
           end; intros [= <- <- <-] || discriminate.
  all: split;
    [ match goal with
      | H : negb (sb_range _ =? 0) && _ = false |- _ =>
          apply andb_false_iff in H as [H|H];
          [apply negb_false_iff in H; rewrite H; reflexivity
          |apply orb_true_iff; right; lia]
      end
    | intros Hm; try discriminate Hm; lia ].
Qed.

Lemma doAttacking_loop_casts clock roll interval target spells :
  forall i m ul rt log m' ul' rt' log',
    Combat.doAttacking_loop clock roll interval target spells i m ul rt log
    = Some (m', ul', rt', log') ->
    forall spell t,
      Combat.EvCast spell t ∈ log' ->
      Combat.EvCast spell t ∈ log
      \/ (t = c_id target
          /\ exists sb,
               sb ∈ spells
               /\ sb_spell sb = Some spell
               /\ withinRange sb (Combat.position m) (c_position target) = true
               /\ sb_isMelee sb && Combat.isFleeing m = false
               /\ (sb_isMelee sb = false ->
                   sb_speed sb <= Combat.attackTicks m
                   /\ Combat.attackTicks m mod sb_speed sb < interval)).
Proof.
  induction spells as [|sb rest IH]; intros i m ul rt log m' ul' rt' log' Hrun spell t Hin.
  - cbn in Hrun. injection Hrun as <- <- <- <-. left. exact Hin.
  - assert (Hlater :
      forall mX ulX rtX logX,
        Combat.position mX = Combat.position m ->
        Combat.isFleeing mX = Combat.isFleeing m ->
        Combat.attackTicks mX = Combat.attackTicks m ->
        Combat.doAttacking_loop clock roll interval target rest (S i) mX ulX rtX logX
        = Some (m', ul', rt', log') ->
        Combat.EvCast spell t ∈ logX
        \/ (t = c_id target
            /\ exists sb0,
                 sb0 ∈ sb :: rest
                 /\ sb_spell sb0 = Some spell
                 /\ withinRange sb0 (Combat.position m) (c_position target) = true
                 /\ sb_isMelee sb0 && Combat.isFleeing m = false
                 /\ (sb_isMelee sb0 = false ->
                     sb_speed sb0 <= Combat.attackTicks m
                     /\ Combat.attackTicks m mod sb_speed sb0 < interval))).
    { intros mX ulX rtX logX Hpos Hflee Hticks HrunX.
      destruct (IH _ _ _ _ _ _ _ _ _ HrunX spell t Hin)
        as [Hold|(Ht & sb0 & Hsb0 & Hspell0 & Hrange & Hmelee & Hdue)]; [left; exact Hold|].
      right. split; [exact Ht|]. exists sb0.
      rewrite Hpos, Hflee, Hticks in *.
      split; [apply list_elem_of_further; exact Hsb0|]. auto. }
    cbn [Combat.doAttacking_loop] in Hrun.
    destruct (sb_spell sb) as [spell0|] eqn:Hspell;
      [|apply (Hlater _ _ _ _ eq_refl eq_refl eq_refl Hrun)].
    destruct (sb_isMelee sb && Combat.isFleeing m) eqn:Hskip;
      [apply (Hlater _ _ _ _ eq_refl eq_refl eq_refl Hrun)|].
    destruct (Combat.canUseSpell m (clock i) (Combat.position m) (c_position target)
                sb interval rt) as [[[[ok inRange] rt1] m1]|] eqn:Hcan; [|discriminate].
    pose proof (canUseSpell_frame _ _ _ _ _ _ _ _ _ _ _ Hcan) as (Ht1 & Hf1 & Hp1 & _).
    assert (Hcast :
      ok = true ->
      Combat.EvCast spell t ∈ [Combat.EvCast spell0 (c_id target)] ->
      t = c_id target
      /\ exists sb0,
           sb0 ∈ sb :: rest
           /\ sb_spell sb0 = Some spell
           /\ withinRange sb0 (Combat.position m) (c_position target) = true
           /\ sb_isMelee sb0 && Combat.isFleeing m = false
           /\ (sb_isMelee sb0 = false ->
               sb_speed sb0 <= Combat.attackTicks m
               /\ Combat.attackTicks m mod sb_speed sb0 < interval)).
    { intros -> Hev. apply list_elem_of_singleton in Hev. injection Hev as -> ->.
      apply canUseSpell_granted in Hcan as [Hrange Hdue].
      split; [reflexivity|]. exists sb. split; [apply list_elem_of_here|]. auto. }
    destruct ok, (sb_chance sb >=? to_uint32 (roll i)), ul, (sb_isMelee sb) eqn:Hmelee,
      inRange;
      cbn -[Combat.doAttacking_loop] in Hrun;
      (eapply Hlater in Hrun; [|cbn; assumption..]);
      (destruct Hrun as [Hold|Hnew]; [|right; exact Hnew]);
      try (left; exact Hold).
    all: repeat (apply elem_of_app in Hold as [Hold|Hold]);
      first [ left; exact Hold
            | right; apply Hcast; [reflexivity | exact Hold]
            | apply list_elem_of_singleton in Hold; discriminate Hold ].
Qed.

(** X20. Every cast doAttacking makes is aimed at the attacked creature and
    comes from an ability of the monster's type that reaches the target from
    where the monster stands and is no melee ability of a fleeing monster; an
    ability that is not melee is cast only when its period has elapsed and
    the remainder of the accumulated ticks by the period is below the
    interval. *)
Theorem X20_doAttacking_casts_sound :
  forall (clock roll : nat -> Z) (interval : Z) (m m' : Combat.Monster)
         (log : list Combat.Event) (spell t : Z),
    Combat.doAttacking clock roll interval m = Some (m', log) ->
    Combat.EvCast spell t ∈ log ->
    exists target sb,
      Combat.attackedCreature m = Some target
      /\ t = c_id target
      /\ sb ∈ mt_attackSpells (Combat.mType m)
      /\ sb_spell sb = Some spell
      /\ withinRange sb (Combat.position m) (c_position target) = true
      /\ sb_isMelee sb && Combat.isFleeing m = false
      /\ (sb_isMelee sb = false ->
          sb_speed sb <= to_uint32 (Combat.attackTicks m + interval)
          /\ to_uint32 (Combat.attackTicks m + interval) mod sb_speed sb < interval).
Proof.
  intros clock roll interval m m' log spell t Hrun Hcast.
  unfold Combat.doAttacking in Hrun.
  destruct (Combat.attackedCreature m) as [target|] eqn:Htarget.
  2: { injection Hrun as _ <-. inversion Hcast. }
  destruct (Combat.isSummon m && (c_id target =? Combat.id m)).
  { injection Hrun as _ <-. inversion Hcast. }
  cbv zeta in Hrun.
  destruct (Combat.doAttacking_loop clock roll interval target _ 0%nat _ true _ [])
    as [[[[m1 ul1] rt1] log1]|] eqn:Hloop; [|discriminate].
  injection Hrun as _ <-.
  assert (Hin : Combat.EvCast spell t ∈ log1).
  { destruct ul1; [|exact Hcast].
    apply elem_of_app in Hcast as [Hcast|Hcast]; [exact Hcast|].
    apply list_elem_of_singleton in Hcast. discriminate Hcast. }
  destruct (doAttacking_loop_casts _ _ _ _ _ _ _ _ _ _ _ _ _ _ Hloop spell t Hin)
    as [Hnil|(Ht & sb & Hsb & Hspell & Hrange & Hmelee & Hdue)]; [inversion Hnil|].
  exists target, sb. auto 10.
Qed.

Lemma X20_witness :
  exists target sb,
    Combat.attackedCreature shootingHunter = Some target
    /\ 10 = c_id target
    /\ sb ∈ mt_attackSpells (Combat.mType shootingHunter)
    /\ sb_spell sb = Some 2
    /\ withinRange sb (Combat.position shootingHunter) (c_position target) = true
    /\ sb_isMelee sb && Combat.isFleeing shootingHunter = false
    /\ (sb_isMelee sb = false ->
        sb_speed sb <= to_uint32 (Combat.attackTicks shootingHunter + 2000)
        /\ to_uint32 (Combat.attackTicks shootingHunter + 2000) mod sb_speed sb < 2000).
Proof.
  eapply (X20_doAttacking_casts_sound noon lowRoll 2000 shootingHunter _ _ 2 10).
  - vm_compute. reflexivity.
  - apply list_elem_of_further, list_elem_of_here.
Defined.

Lemma countLooks_app (l1 l2 : list Combat.Event) :
  countLooks (l1 ++ l2) = (countLooks l1 + countLooks l2)%nat.
Proof.
  induction l1 as [|[| |] l1 IH]; cbn; [reflexivity|rewrite IH; reflexivity|exact IH..].
Qed.

(** The look flag and the log go together: either the monster has not turned
    and nothing is logged, or it turned once, first, and only casts follow. *)
Lemma doAttacking_loop_looks clock roll interval target spells :
  forall i m ul rt log m' ul' rt' log',
    Combat.doAttacking_loop clock roll interval target spells i m ul rt log
    = Some (m', ul', rt', log') ->
    ((ul = true /\ log = [])
     \/ (ul = false /\ exists casts, log = Combat.EvLook :: casts /\ countLooks casts = 0%nat)) ->
    (ul' = true /\ log' = [])
    \/ (ul' = false
        /\ exists casts, log' = Combat.EvLook :: casts /\ countLooks casts = 0%nat).
Proof.
  induction spells as [|sb rest IH]; intros i m ul rt log m' ul' rt' log' Hrun Hinv.
  - cbn in Hrun. injection Hrun as <- <- <- <-. exact Hinv.
  - cbn [Combat.doAttacking_loop] in Hrun.
    destruct (sb_spell sb) as [spell|]; [|eapply IH; eassumption].
    destruct (sb_isMelee sb && Combat.isFleeing m); [eapply IH; eassumption|].
    destruct (Combat.canUseSpell m (clock i) (Combat.position m) (c_position target)
                sb interval rt) as [[[[ok inRange] rt1] m1]|]; [|discriminate].
    destruct (ok && (sb_chance sb >=? to_uint32 (roll i))), ul, (sb_isMelee sb), inRange;
      cbn -[Combat.doAttacking_loop] in Hrun;
      (eapply IH; [exact Hrun|]); try exact Hinv.
    all: right; split; [reflexivity|].
    all: destruct Hinv as [[Hul ->]|[Hul (casts & -> & Hcasts)]]; try discriminate Hul.
    all: first [ exists [Combat.EvCast spell (c_id target)]; split; reflexivity
               | exists (casts ++ [Combat.EvCast spell (c_id target)]);
                 split; [reflexivity | rewrite countLooks_app, Hcasts; reflexivity] ].
Qed.

(** X21. An attack round that gets past the early return calls
    updateLookDirection exactly once, before any cast. *)
Theorem X21_doAttacking_looks_once :
  forall (clock roll : nat -> Z) (interval : Z) (m m' : Combat.Monster)
         (log : list Combat.Event) (target : Creature),
    Combat.attackedCreature m = Some target ->
    Combat.isSummon m && (c_id target =? Combat.id m) = false ->
    Combat.doAttacking clock roll interval m = Some (m', log) ->
    exists casts,
      log = Combat.EvLook :: casts
      /\ countLooks casts = 0%nat
      /\ countLooks log = 1%nat.
Proof.
  intros clock roll interval m m' log target Htarget Hself Hrun.
  unfold Combat.doAttacking in Hrun. rewrite Htarget, Hself in Hrun. cbv zeta in Hrun.
  destruct (Combat.doAttacking_loop clock roll interval target _ 0%nat _ true _ [])
    as [[[[m1 ul1] rt1] log1]|] eqn:Hloop; [|discriminate].
  injection Hrun as _ <-.
  apply doAttacking_loop_looks in Hloop; [|left; split; reflexivity].
  destruct Hloop as [[-> ->]|[-> (casts & -> & Hcasts)]].
  - exists []. split; [reflexivity|]. split; reflexivity.
  - exists casts. split; [reflexivity|]. split; [exact Hcasts|].
    cbn. rewrite Hcasts. reflexivity.
Qed.

Lemma X21_witness :
  exists casts,
    [Combat.EvLook; Combat.EvCast 2 10] = Combat.EvLook :: casts
    /\ countLooks casts = 0%nat
    /\ countLooks [Combat.EvLook; Combat.EvCast 2 10] = 1%nat.
Proof.
  eapply (X21_doAttacking_looks_once noon lowRoll 2000 shootingHunter _ _
            (playerAt 10 (mkPosition 103 100 7))).
  - reflexivity.
  - reflexivity.
  - vm_compute. reflexivity.
Defined.

(** X22. After onAttackedCreatureDisappear the next attack round casts the
    first ability when it is a melee ability in reach and its chance roll
    passes, whatever its period, the interval and the time of the last melee
    swing. *)
Theorem X22_swing_after_target_disappears :
  forall (clock roll : nat -> Z) (interval : Z) (m : Combat.Monster) (target : Creature)
         (sb : spellBlock_t) (rest : list spellBlock_t) (spell : Z),
    Combat.attackedCreature m = Some target ->
    Combat.isSummon m && (c_id target =? Combat.id m) = false ->
    mt_attackSpells (Combat.mType m) = sb :: rest ->
    sb_spell sb = Some spell ->
    sb_isMelee sb = true ->
    Combat.isFleeing m = false ->
    withinRange sb (Combat.position m) (c_position target) = true ->
    to_uint32 (roll 0%nat) <= sb_chance sb ->
    Forall (fun sb0 => sb_speed sb0 <> 0) rest ->
    exists m' casts,
      Combat.doAttacking clock roll interval (onAttackedCreatureDisappear m)
      = Some (m', Combat.EvLook :: Combat.EvCast spell (c_id target) :: casts).
Proof.
  intros clock roll interval m target sb rest spell Htarget Hself Hspells Hspell Hmelee
    Hflee Hrange Hchance Hrest.
  set (m0 := onAttackedCreatureDisappear m).
  unfold Combat.doAttacking.
  change (Combat.attackedCreature m0) with (Combat.attackedCreature m).
  change (Combat.isSummon m0) with (Combat.isSummon m).
  change (Combat.id m0) with (Combat.id m).
  rewrite Htarget, Hself. cbv zeta.
  change (Combat.mType (Combat.set_attackTicks _ m0)) with (Combat.mType m).
  rewrite Hspells. cbn [Combat.doAttacking_loop]. rewrite Hspell, Hmelee.
  change (Combat.isFleeing (Combat.set_attackTicks _ m0)) with (Combat.isFleeing m).
  rewrite Hflee. cbn [andb].
  unfold Combat.canUseSpell.
  change (Combat.isFleeing (Combat.set_attackTicks _ m0)) with (Combat.isFleeing m).
  change (Combat.extraMeleeAttack (Combat.set_attackTicks _ m0)) with true.
  change (Combat.position (Combat.set_attackTicks _ m0)) with (Combat.position m).
  rewrite Hmelee, Hflee. cbn [negb andb orb Combat.extraMeleeAttack Combat.set_lastMeleeAttack].
  unfold withinRange in Hrange.
  assert (Hin : negb (sb_range sb =? 0)
                && (Z.max (to_uint32 (getDistanceX (Combat.position m) (c_position target)))
                          (to_uint32 (getDistanceY (Combat.position m) (c_position target)))
                    >? sb_range sb) = false).
  { apply orb_true_iff in Hrange as [Hzero|Hnear].
    - rewrite Hzero. reflexivity.
    - apply andb_false_iff. right. lia. }
  rewrite Hin. cbn [andb].
  assert (Hroll : (sb_chance sb >=? to_uint32 (roll 0%nat)) = true) by lia.
  change (negb (Combat.extraMeleeAttack
                  (Combat.set_attackTicks (to_uint32 (Combat.attackTicks m0 + interval)) m0)))
    with false.
  cbv iota. rewrite Hroll, ?Hmelee. cbn [negb andb app].
  match goal with
  | |- context [Combat.doAttacking_loop clock roll interval target rest 1%nat ?mX ?ulX ?rtX ?logX] =>
      destruct (doAttacking_loop_total clock roll interval target rest Hrest 1%nat
                  mX ulX rtX logX) as [[[[m1 ul1] rt1] log1] Hloop];
      rewrite Hloop;
      apply doAttacking_loop_log in Hloop as [extra ->]
  end.
  cbn [app].
  destruct ul1; destruct rt1; eexists _, _; reflexivity.
Qed.

Lemma X22_witness :
  exists m' casts,
    Combat.doAttacking noon lowRoll 10 (onAttackedCreatureDisappear brawlerSwingPending)
    = Some (m', Combat.EvLook :: Combat.EvCast 4 (c_id (playerAt 10 (mkPosition 101 100 7)))
                  :: casts).
Proof.
  apply (X22_swing_after_target_disappears noon lowRoll 10 brawlerSwingPending
           (playerAt 10 (mkPosition 101 100 7)) jab20 [] 4).
  - reflexivity.
  - reflexivity.
  - reflexivity.
  - reflexivity.
  - reflexivity.
  - reflexivity.
  - vm_compute. reflexivity.
  - vm_compute. discriminate.
  - constructor.
Defined.

Lemma onThinkDefense_summons_grow w roll interval blocks :
  forall i m rt log m' rt' log',
    Combat.onThinkDefense_summons w roll interval blocks i m rt log = Some (m', rt', log') ->
    Combat.mType m' = Combat.mType m
    /\ (exists new, Combat.m_summons m' = Combat.m_summons m ++ new)
    /\ Z.of_nat (length (Combat.m_summons m'))
       <= Z.max (Z.of_nat (length (Combat.m_summons m))) (mt_maxSummons (Combat.mType m)).
Proof.
  induction blocks as [|su rest IH]; intros i m rt log m' rt' log' Hrun;
    cbn [Combat.onThinkDefense_summons] in Hrun.
  - injection Hrun as <- _ _. split; [reflexivity|]. split; [|lia].
    exists []. rewrite app_nil_r. reflexivity.
  - destruct (su_speed su >? Combat.defenseTicks m); [eapply IH; exact Hrun|].
    destruct (Z.geb_spec (Z.of_nat (length (Combat.m_summons m)))
                (mt_maxSummons (Combat.mType m))) as [|Hroom]; [eapply IH; exact Hrun|].
    destruct (su_speed su =? 0); [discriminate|].
    destruct (Combat.defenseTicks m mod su_speed su >=? interval);
      [eapply IH; exact Hrun|].
    destruct (Combat.summonCount (su_name su) (Combat.m_summons m) >=? su_count su);
      [eapply IH; exact Hrun|].
    destruct (su_chance su <? to_uint32 (roll i)); [eapply IH; exact Hrun|].
    destruct (Combat.createMonster w (su_name su)) as [summon|]; [|eapply IH; exact Hrun].
    destruct (Combat.placeCreature w summon (Combat.position m) (su_force su)) as [at_|];
      [|eapply IH; exact Hrun].
    cbn -[Combat.onThinkDefense_summons] in Hrun.
    apply IH in Hrun as (Htype & [new Hnew] & Hlen).
    cbn [Combat.mType Combat.m_summons Combat.set_m_summons] in *.
    split; [exact Htype|]. split.
    + eexists. rewrite Hnew, <- app_assoc. reflexivity.
    + rewrite length_app in Hlen. cbn [length] in Hlen. lia.
Qed.

(** X23. onThinkDefense only appends to the summon list, and never lets it
    grow beyond maxSummons. *)
Theorem X23_onThinkDefense_summon_list :
  forall (w : Combat.World) (rollD rollS : nat -> Z) (interval : Z)
         (m m' : Combat.Monster) (log : list Combat.Event),
    Combat.onThinkDefense w rollD rollS interval m = Some (m', log) ->
    (exists new, Combat.m_summons m' = Combat.m_summons m ++ new)
    /\ Z.of_nat (length (Combat.m_summons m'))
       <= Z.max (Z.of_nat (length (Combat.m_summons m))) (mt_maxSummons (Combat.mType m)).
Proof.
  intros w rollD rollS interval m m' log Hrun.
  unfold Combat.onThinkDefense in Hrun. cbv zeta in Hrun.
  destruct (Combat.onThinkDefense_spells rollD interval _ 0%nat _ true [])
    as [[[m1 rt1] log1]|] eqn:Hspells; [|discriminate].
  destruct (onThinkDefense_spells_frame _ _ _ _ _ _ _ _ _ _ Hspells)
    as (Hsum1 & Htype1 & _).
  cbn [Combat.m_summons Combat.mType Combat.set_defenseTicks] in Hsum1, Htype1.
  destruct (negb (Combat.isSummon m1)
            && (Z.of_nat (length (Combat.m_summons m1)) <? mt_maxSummons (Combat.mType m1))
            && Combat.hasFollowPath m1).
  - destruct (Combat.onThinkDefense_summons w rollS interval _ 0%nat m1 rt1 log1)
      as [[[m2 rt2] log2]|] eqn:Hsummons; [|discriminate].
    injection Hrun as <- _.
    apply onThinkDefense_summons_grow in Hsummons as (_ & Hnew & Hlen).
    rewrite Hsum1, Htype1 in *.
    destruct rt2; cbn [Combat.m_summons Combat.set_defenseTicks]; auto.
  - injection Hrun as <- _.
    assert (Hsame : Combat.m_summons (if rt1 then Combat.set_defenseTicks 0 m1 else m1)
                    = Combat.m_summons m).
    { destruct rt1; exact Hsum1. }
    rewrite Hsame. split; [|lia]. exists []. rewrite app_nil_r. reflexivity.
Qed.

Lemma X23_witness :
  exists m',
    (exists log, Combat.onThinkDefense ratWorld lowRoll lowRoll 1000 ratCaller
                 = Some (m', log))
    /\ (exists new, Combat.m_summons m' = Combat.m_summons ratCaller ++ new)
    /\ Z.of_nat (length (Combat.m_summons m'))
       <= Z.max (Z.of_nat (length (Combat.m_summons ratCaller)))
                (mt_maxSummons (Combat.mType ratCaller)).
Proof.
  eexists. split.
  - eexists. vm_compute. reflexivity.
  - eapply (X23_onThinkDefense_summon_list ratWorld lowRoll lowRoll 1000 ratCaller).
    vm_compute. reflexivity.
Defined.

(** ** The governor over a run of ticks *)

Lemma onThinkTarget_focused (interval rnd : Z) (m : TargetChange.Monster) :
  0 < TargetChange.challengeFocusDuration m ->
  (TargetChange.onThinkTarget interval rnd m).2 = None
  /\ (0 < TargetChange.challengeFocusDuration m - interval < 2 ^ 31 ->
      TargetChange.challengeFocusDuration (TargetChange.onThinkTarget interval rnd m).1
      = TargetChange.challengeFocusDuration m - interval
      \/ TargetChange.challengeFocusDuration (TargetChange.onThinkTarget interval rnd m).1
         = TargetChange.challengeFocusDuration m).
Proof.
  intros Hfocus. unfold TargetChange.onThinkTarget.
  destruct (negb (TargetChange.isSummon m)); [|split; [reflexivity|right; reflexivity]].
  destruct (negb (mt_changeTargetSpeed (TargetChange.mType m) =? 0));
    [|split; [reflexivity|right; reflexivity]].
  destruct (Z.gtb_spec (TargetChange.challengeFocusDuration m) 0) as [_|]; [|lia].
  destruct (TargetChange.m_targetChangeCooldown m >? 0);
    [destruct (to_int32 (TargetChange.m_targetChangeCooldown m - interval) <=? 0)|];
    cbn; (split; [reflexivity|]); intros Hleft; left;
    rewrite to_int32_small by lia;
    (destruct (Z.leb_spec (TargetChange.challengeFocusDuration m - interval) 0); [lia|]);
    reflexivity.
Qed.

(** X24. A challenge that selectTarget accepted locks the target of a
    monster that is no summon: while less than the challenge duration has
    elapsed at the start of a think tick, the tick ends without a
    searchTarget call. *)
Theorem X24_challenge_focus_lock :
  forall (ticks : list (Z * Z)) (last : Z * Z) (m : TargetChange.Monster)
         (targetChangeCooldown : Z),
    0 < targetChangeCooldown < 2 ^ 31 ->
    TargetChange.isSummon m = false ->
    (forall tick, tick ∈ ticks -> 0 <= tick.1) ->
    elapsed ticks < targetChangeCooldown ->
    (challengeCreature true targetChangeCooldown m).2 = true
    /\ (onThinkTarget_run (ticks ++ [last]) (challengeCreature true targetChangeCooldown m).1).2
       = [].
Proof.
  intros ticks last m duration Hduration Hsummon Hpos Hsum.
  unfold challengeCreature. rewrite Hsummon. cbn [fst snd]. split; [reflexivity|].
  rewrite to_int32_small by lia.
  set (m0 := TargetChange.mkMonster _ _ duration _ _).
  assert (Hfocus : elapsed ticks < TargetChange.challengeFocusDuration m0 < 2 ^ 31)
    by (cbn; lia).
  clearbody m0. clear Hsum Hduration Hsummon m duration.
  revert m0 Hfocus. induction ticks as [|[interval rnd] rest IH]; intros m0 Hfocus.
  - cbn in Hfocus. cbn [app onThinkTarget_run]. destruct last as [interval rnd].
    destruct (onThinkTarget_focused interval rnd m0 ltac:(lia)) as [Hcall _].
    destruct (TargetChange.onThinkTarget interval rnd m0) as [m1 call].
    cbn in Hcall. subst call. reflexivity.
  - cbn [elapsed] in Hfocus.
    assert (Hinterval : 0 <= interval) by (apply (Hpos (interval, rnd)), list_elem_of_here).
    assert (Hrest : forall tick, tick ∈ rest -> 0 <= tick.1)
      by (intros tick Hin; apply Hpos, list_elem_of_further, Hin).
    assert (Helapsed : forall l, (forall tick : Z * Z, tick ∈ l -> 0 <= tick.1) ->
                                 0 <= elapsed l).
    { induction l as [|[i r] l IHl]; intros Hl; cbn; [lia|].
      pose proof (Hl (i, r) (list_elem_of_here _ _)) as Hi. cbn in Hi.
      specialize (IHl (fun tick Hin => Hl tick (list_elem_of_further _ _ _ Hin))). lia. }
    specialize (Helapsed rest Hrest).
    cbn [app onThinkTarget_run].
    destruct (onThinkTarget_focused interval rnd m0 ltac:(lia)) as [Hcall Hnext].
    specialize (Hnext ltac:(lia)).
    destruct (TargetChange.onThinkTarget interval rnd m0) as [m1 call].
    cbn in Hcall, Hnext. subst call.
    specialize (IH Hrest m1 ltac:(lia)).
    destruct (onThinkTarget_run (rest ++ [last]) m1) as [m2 calls].
    cbn in IH. subst calls. reflexivity.
Qed.

Lemma X24_witness :
  (challengeCreature true 3000 meleeReconsidering).2 = true
  /\ (onThinkTarget_run ([(1000, 1); (1000, 1)] ++ [(1000, 1)])
        (challengeCreature true 3000 meleeReconsidering).1).2 = [].
Proof.
  apply (X24_challenge_focus_lock [(1000, 1); (1000, 1)] (1000, 1) meleeReconsidering 3000).
  - vm_compute. split; reflexivity.
  - reflexivity.
  - intros tick Htick.
    repeat (apply elem_of_cons in Htick as [->|Htick]);
      [vm_compute; discriminate..|inversion Htick].
  - vm_compute. reflexivity.
Defined.

Lemma onThinkTarget_cooling (interval rnd : Z) (m : TargetChange.Monster) :
  0 < TargetChange.m_targetChangeCooldown m - interval < 2 ^ 31 ->
  0 <= interval ->
  (TargetChange.onThinkTarget interval rnd m).2 = None
  /\ (TargetChange.m_targetChangeCooldown (TargetChange.onThinkTarget interval rnd m).1
      = TargetChange.m_targetChangeCooldown m - interval
      \/ TargetChange.m_targetChangeCooldown (TargetChange.onThinkTarget interval rnd m).1
         = TargetChange.m_targetChangeCooldown m).
Proof.
  intros Hleft Hinterval. unfold TargetChange.onThinkTarget.
  destruct (negb (TargetChange.isSummon m)); [|split; [reflexivity|right; reflexivity]].
  destruct (negb (mt_changeTargetSpeed (TargetChange.mType m) =? 0));
    [|split; [reflexivity|right; reflexivity]].
  destruct (Z.gtb_spec (TargetChange.m_targetChangeCooldown m) 0) as [_|]; [|lia].
  rewrite (to_int32_small (TargetChange.m_targetChangeCooldown m - interval)) by lia.
  destruct (Z.leb_spec (TargetChange.m_targetChangeCooldown m - interval) 0); [lia|].
  destruct (TargetChange.challengeFocusDuration m >? 0); cbn;
    (split; [reflexivity|left; reflexivity]).
Qed.

(** X25. While the ticks of a run add up to less than the cooldown left,
    onThinkTarget makes no searchTarget call. *)
Theorem X25_target_change_cooldown :
  forall (ticks : list (Z * Z)) (m : TargetChange.Monster),
    (forall tick, tick ∈ ticks -> 0 <= tick.1) ->
    elapsed ticks < TargetChange.m_targetChangeCooldown m < 2 ^ 31 ->
    (onThinkTarget_run ticks m).2 = [].
Proof.
  induction ticks as [|[interval rnd] rest IH]; intros m Hpos Hcool; [reflexivity|].
  cbn [elapsed] in Hcool.
  assert (Hinterval : 0 <= interval) by (apply (Hpos (interval, rnd)), list_elem_of_here).
  assert (Hrest : forall tick, tick ∈ rest -> 0 <= tick.1)
    by (intros tick Hin; apply Hpos, list_elem_of_further, Hin).
  assert (Helapsed : forall l, (forall tick : Z * Z, tick ∈ l -> 0 <= tick.1) ->
                               0 <= elapsed l).
  { induction l as [|[i r] l IHl]; intros Hl; cbn; [lia|].
    pose proof (Hl (i, r) (list_elem_of_here _ _)) as Hi. cbn in Hi.
    specialize (IHl (fun tick Hin => Hl tick (list_elem_of_further _ _ _ Hin))). lia. }
  specialize (Helapsed rest Hrest).
  cbn [onThinkTarget_run].
  destruct (onThinkTarget_cooling interval rnd m ltac:(lia) Hinterval) as [Hcall Hnext].
  destruct (TargetChange.onThinkTarget interval rnd m) as [m1 call].
  cbn in Hcall, Hnext. subst call.
  specialize (IH m1 Hrest ltac:(lia)).
  destruct (onThinkTarget_run rest m1) as [m2 calls].
  cbn in IH. subst calls. reflexivity.
Qed.

Lemma X25_witness :
  (onThinkTarget_run [(1000, 1)] meleeCooling).2 = [].
Proof.
  apply (X25_target_change_cooldown [(1000, 1)] meleeCooling).
  - intros tick Htick. apply list_elem_of_singleton in Htick. subst tick.
    vm_compute. discriminate.
  - vm_compute. split; reflexivity.
Defined.

(** ** Idle status *)

(** X26. A monster that is not removed and has health left is idle after
    updateIdleStatus exactly when it bears no condition and either is no
    summon, has no target and is in its spawn location, or has a master that
    is a monster with no player in view while its own faction is not the
    default one.  The monster's own count of players in view plays no
    part. *)
Theorem X26_updateIdleStatus_idle_iff :
  forall (st : Store) (m : Lifecycle.Monster),
    Lifecycle.removed m = false ->
    0 < Lifecycle.health m ->
    Lifecycle.isIdle (Lifecycle.updateIdleStatus st m).1 = true
    <-> (Lifecycle.conditions m = []
         /\ ((Lifecycle.isSummon st m = false
              /\ Lifecycle.targetList m = []
              /\ Lifecycle.isInSpawnLocation m = true)
             \/ (exists masterC,
                   Lifecycle.getMaster st m = Some masterC
                   /\ getMonster masterC = true
                   /\ c_totalPlayersOnScreen masterC = 0
                   /\ Lifecycle.faction m <> FACTION_DEFAULT))).
Proof.
  intros st m Hremoved Hhealth.
  assert (Halive : (Lifecycle.health m <=? 0) = false) by lia.
  unfold Lifecycle.updateIdleStatus, Lifecycle.setIdle, Lifecycle.isSummon,
    Lifecycle.isInSpawnLocation.
  destruct (Lifecycle.conditions m) as [|cond conds].
  2: { cbn. rewrite Hremoved, Halive. cbn. split; [discriminate|]. intros [Hc _].
       discriminate Hc. }
  destruct (Lifecycle.getMaster st m) as [masterC|] eqn:Hmaster; cbn.
  - destruct (getMonster masterC) eqn:Hkind,
      (Z.eqb_spec (c_totalPlayersOnScreen masterC) 0) as [Hnone|Hsome],
      (Z.eqb_spec (Lifecycle.faction m) FACTION_DEFAULT) as [Hdefault|Hfaction];
      cbn; rewrite Hremoved, Halive; cbn;
      (split;
       [ intros Hidle
       | intros [_ [(Hs & _)|(mc & Hmc & Hmon & Htotal & Hother)]] ]).
    all: first [ reflexivity
               | discriminate Hidle
               | discriminate Hs
               | split; [reflexivity|]; right; exists masterC; auto
               | injection Hmc as <-; first [congruence | contradiction] ].
  - destruct (Lifecycle.targetList m) as [|target targets]; cbn.
    + destruct (negb (Lifecycle.hasSpawn m)) eqn:Hspawn; cbn.
      * rewrite Hremoved, Halive. cbn. split; [|reflexivity].
        intros _. split; [reflexivity|]. left. auto.
      * destruct (Position_eqb (Lifecycle.position m) (Lifecycle.masterPos m)
                  || Position_eqb (Lifecycle.masterPos m) Position_default) eqn:Hpos;
          cbn; rewrite Hremoved, Halive; cbn.
        -- split; [|reflexivity]. intros _. split; [reflexivity|]. left. auto.
        -- split; [discriminate|].
           intros [_ [(_ & _ & Hp)|(mc & Hmc & _)]]; discriminate.
    + rewrite Hremoved, Halive. cbn. split; [discriminate|].
      intros [_ [(_ & Ht & _)|(mc & Hmc & _)]]; discriminate.
Qed.

Lemma X26_witness :
  Lifecycle.isIdle (Lifecycle.updateIdleStatus packStore homeMonster).1 = true
  <-> (Lifecycle.conditions homeMonster = []
       /\ ((Lifecycle.isSummon packStore homeMonster = false
            /\ Lifecycle.targetList homeMonster = []
            /\ Lifecycle.isInSpawnLocation homeMonster = true)
           \/ (exists masterC,
                 Lifecycle.getMaster packStore homeMonster = Some masterC
                 /\ getMonster masterC = true
                 /\ c_totalPlayersOnScreen masterC = 0
                 /\ Lifecycle.faction homeMonster <> FACTION_DEFAULT))).
Proof.
  apply (X26_updateIdleStatus_idle_iff packStore homeMonster).
  - reflexivity.
  - vm_compute. reflexivity.
Defined.

(** X27. updateIdleStatus leaves a removed or dead monster's idle flag and
    sets alone and asks nothing of the game.  Otherwise a monster that comes
    out idle has empty target and friend sets and is taken off the creature
    check, and one that comes out active keeps both sets and is put on
    it. *)
Theorem X27_updateIdleStatus_sets :
  forall (st : Store) (m : Lifecycle.Monster),
    let m' := (Lifecycle.updateIdleStatus st m).1 in
    let log := (Lifecycle.updateIdleStatus st m).2 in
    (Lifecycle.removed m || (Lifecycle.health m <=? 0) = true ->
     Lifecycle.isIdle m' = Lifecycle.isIdle m
     /\ Lifecycle.targetList m' = Lifecycle.targetList m
     /\ Lifecycle.friendList m' = Lifecycle.friendList m
     /\ log = [])
    /\ (Lifecycle.removed m || (Lifecycle.health m <=? 0) = false ->
        (Lifecycle.isIdle m' = true ->
         Lifecycle.targetList m' = [] /\ Lifecycle.friendList m' = ∅
         /\ log = [Lifecycle.EvOnIdleStatus; Lifecycle.EvRemoveCreatureCheck])
        /\ (Lifecycle.isIdle m' = false ->
            Lifecycle.targetList m' = Lifecycle.targetList m
            /\ Lifecycle.friendList m' = Lifecycle.friendList m
            /\ log = [Lifecycle.EvAddCreatureCheck])).
Proof.
  intros st m. cbv zeta.
  unfold Lifecycle.updateIdleStatus.
  match goal with
  | |- context [let '(idle, m0) := ?decision in Lifecycle.setIdle idle m0] =>
      assert (Hkeep : Lifecycle.removed decision.2 = Lifecycle.removed m
                      /\ Lifecycle.health decision.2 = Lifecycle.health m
                      /\ Lifecycle.isIdle decision.2 = Lifecycle.isIdle m
                      /\ Lifecycle.targetList decision.2 = Lifecycle.targetList m
                      /\ Lifecycle.friendList decision.2 = Lifecycle.friendList m);
      [|destruct decision as [idleX mX]]
  end.
  { repeat match goal with
           | |- context [match ?c with _ => _ end] => destruct c
           end; cbn; auto. }
  cbn [fst snd] in Hkeep. destruct Hkeep as (Hr & Hh & Hi & Ht & Hf).
  unfold Lifecycle.setIdle. rewrite Hr, Hh.
  destruct (Lifecycle.removed m || (Lifecycle.health m <=? 0)); cbn [fst snd].
  - split; [auto|discriminate].
  - split; [discriminate|]. intros _.
    destruct idleX; cbn; (split; [intros Hidle|intros Hidle]); try discriminate; auto.
Qed.

(** ** Pushing items *)

(** X28. For each of the eight named directions getPushItemLocationOptions
    offers exactly two offsets, different from one another, each one step
    along a single axis from the item's tile (never the tile itself, never a
    diagonal); for a push along an axis they are the two tiles to its sides.
    For any other value of the enumeration it offers none. *)
Theorem X28_getPushItemLocationOptions_sideways :
  forall (direction : Direction),
    length (getPushItemLocationOptions (Some direction)) = 2%nat
    /\ NoDup (getPushItemLocationOptions (Some direction))
    /\ (forall option : Z * Z,
           option ∈ getPushItemLocationOptions (Some direction) ->
           Z.abs option.1 + Z.abs option.2 = 1
           /\ (isCardinal direction = true ->
               option.1 * (directionOffset direction).1
               + option.2 * (directionOffset direction).2 = 0))
    /\ getPushItemLocationOptions None = [].
Proof.
  intros direction. split; [destruct direction; reflexivity|]. split; [|split].
  - destruct direction; cbn;
      (apply NoDup_cons; split; [|apply NoDup_singleton]);
      intros Hin; apply list_elem_of_singleton in Hin; discriminate Hin.
  - intros option Hin.
    destruct direction; cbn in Hin;
      repeat (apply elem_of_cons in Hin as [->|Hin]); try (inversion Hin; fail);
      cbn; (split; [lia|]); intros Hc; first [discriminate Hc | lia].
  - reflexivity.
Qed.
